(** * notification-system: a shallow embedding of the relay core

  The development follows the JavaScript sources:
  - [lib/socket.js]: the Socket.IO room registry, the [sentNotifications]
    duplicate cache and the server-side helpers;
  - [server.js]: the HTTP endpoint [/api/notifications/send];
  - [lib/database.js], [lib/mysql-database.js], [lib/hybrid-database.js]:
    the JSON fallback store, the MySQL store and the hybrid layer with
    its sync queue.

  Conventions.  A JavaScript string is a [string] (code units below 256).
  A value that may be [undefined]/[null] is an [option].  [Date.now()] is
  a [Z] (milliseconds); one reading of the clock is taken per handler
  invocation and passed as the argument [now].  A timestamp rendered with
  [toISOString()] is kept as the clock reading it was rendered from. *)

From Stdlib Require Import ZArith String Ascii List Bool Lia.
From stdpp Require Import base option list gmap sets strings pretty fin_maps.

#[local] Set Warnings "-clear-no-such-hyp".

Local Open Scope Z_scope.
Local Open Scope string_scope.
Local Open Scope list_scope.

(** ** JavaScript values and control *)

Module Js.

(** Completion of a call: a value, or a thrown [Error] with its message. *)
Inductive result (A : Type) : Type :=
| Ok (a : A)
| Throw (message : string).
Arguments Ok {A} a.
Arguments Throw {A} message.

(** [a || b] on possibly-absent strings ([undefined], [null] and the empty
    string are falsy). *)
Definition or_else (v : option string) (d : string) : string :=
  match v with
  | Some s => if String.eqb s "" then d else s
  | None => d
  end.

(** The class [\s] restricted to code units below 256: TAB, LF, VT, FF,
    CR, SPACE and NBSP. *)
Definition is_space (c : ascii) : bool :=
  let n := nat_of_ascii c in
  ((9 <=? n)%nat && (n <=? 13)%nat) || (n =? 32)%nat || (n =? 160)%nat.

(** [s.slice(0, n)]. *)
Definition slice0 (n : nat) (s : string) : string := substring 0 n s.

(** [s.replace(/\s+/g, '-')]: every maximal run of white space becomes one
    dash.  [in_run] tells that the previous code unit was white space. *)
Fixpoint replace_spaces_from (in_run : bool) (s : string) : string :=
  match s with
  | EmptyString => EmptyString
  | String c rest =>
      if is_space c then
        if in_run then replace_spaces_from true rest
        else String "-"%char (replace_spaces_from true rest)
      else String c (replace_spaces_from false rest)
  end.

Definition replace_spaces (s : string) : string := replace_spaces_from false s.

(** Number to string, for the integers [Date.now()] returns. *)
Definition number_toString (n : Z) : string := pretty n.

End Js.

Import Js.

(** ** lib/socket.js *)

Module Socket.

(** *** Identifier derivation *)

(** [message.slice(0, 20).replace(/\s+/g, '-')] *)
Definition slug (message : string) : string :=
  replace_spaces (slice0 20 message).

(** [`user-${targetUserId}-${Date.now()}-${...}`] in the
    [send-notification] handler. *)
Definition notificationId (targetUserId : string) (now : Z) (message : string) : string :=
  "user-" +:+ targetUserId +:+ "-" +:+ number_toString now +:+ "-" +:+ slug message.

(** [`broadcast-${Date.now()}-${...}`] in the [broadcast-notification]
    handler. *)
Definition broadcastId (now : Z) (message : string) : string :=
  "broadcast-" +:+ number_toString now +:+ "-" +:+ slug message.

(** [`server-${userId}-${Date.now()}-${...}`] in [sendToUser]. *)
Definition serverNotificationId (userId : string) (now : Z) (message : string) : string :=
  "server-" +:+ userId +:+ "-" +:+ number_toString now +:+ "-" +:+ slug message.

(** [`server-broadcast-${Date.now()}-${...}`] in [broadcastToAll]. *)
Definition serverBroadcastId (now : Z) (message : string) : string :=
  "server-broadcast-" +:+ number_toString now +:+ "-" +:+ slug message.

(** *** The duplicate cache [sentNotifications] *)

(** [5 * 60 * 1000] *)
Definition retention : Z := 5 * 60 * 1000.

(** The check-then-mark sequence every sender runs on its identifier:
    [if (sentNotifications.has(id)) { ... return }] followed by
    [sentNotifications.set(id, Date.now())]. *)
Definition admitId (id : string) (now : Z) (sent : gmap string Z) : bool * gmap string Z :=
  match sent !! id with
  | Some _ => (false, sent)
  | None => (true, <[id := now]> sent)
  end.

(** The body of the one-minute [setInterval]: every entry whose timestamp
    is below [Date.now() - retention] is deleted. *)
Definition cleanup (now : Z) (sent : gmap string Z) : gmap string Z :=
  filter (λ kv, ¬ (kv.2 < now - retention)) sent.

(** [clearNotificationCache] *)
Definition clearNotificationCache (sent : gmap string Z) : gmap string Z := ∅.


(** *** Connections, rooms and emitted events *)

(** The fields the handlers keep on a [socket] object. *)
Record SocketData := {
  s_userId : option string;      (* socket.userId *)
  s_companyId : option string    (* socket.companyId *)
}.

(** The state of the module once [initSocket] has run: the live sockets,
    the adapter's room table [io.sockets.adapter.rooms] (room name to set
    of socket ids; the private room every socket has under its own id is
    left out), the two module-level maps, and the Engine.IO transports
    that are open without a Socket.IO socket on them (a transport whose
    socket has not connected yet, or has left).  Before [initSocket] the
    variable [io] is undefined and both maps are empty, so the module
    state is an [option World]. *)
Record World := {
  sockets : gmap string SocketData;
  rooms : gmap string (gset string);
  userSockets : gmap string string;
  sentNotifications : gmap string Z;
  idleTransports : nat
}.

(** The state right after [initSocket]. *)
Definition initial : World :=
  {| sockets := ∅; rooms := ∅; userSockets := ∅; sentNotifications := ∅;
     idleTransports := 0 |}.

Definition set_rooms (r : gmap string (gset string)) (w : World) : World :=
  {| sockets := sockets w; rooms := r;
     userSockets := userSockets w; sentNotifications := sentNotifications w;
     idleTransports := idleTransports w |}.

Definition set_userSockets (u : gmap string string) (w : World) : World :=
  {| sockets := sockets w; rooms := rooms w;
     userSockets := u; sentNotifications := sentNotifications w;
     idleTransports := idleTransports w |}.

Definition set_sent (c : gmap string Z) (w : World) : World :=
  {| sockets := sockets w; rooms := rooms w;
     userSockets := userSockets w; sentNotifications := c;
     idleTransports := idleTransports w |}.

Definition set_socket (sid : string) (sk : SocketData) (w : World) : World :=
  {| sockets := <[sid := sk]> (sockets w); rooms := rooms w;
     userSockets := userSockets w; sentNotifications := sentNotifications w;
     idleTransports := idleTransports w |}.

Definition set_idleTransports (n : nat) (w : World) : World :=
  {| sockets := sockets w; rooms := rooms w;
     userSockets := userSockets w; sentNotifications := sentNotifications w;
     idleTransports := n |}.

(** Socket.IO's in-memory adapter. [socket.join(room)]: *)
Definition join (sid room : string) (r : gmap string (gset string)) : gmap string (gset string) :=
  <[room := {[sid]} ∪ default ∅ (r !! room)]> r.

(** [socket.leave(room)]: the id is taken out of the room, and a room
    left empty is deleted from the table. *)
Definition leave (sid room : string) (r : gmap string (gset string)) : gmap string (gset string) :=
  match r !! room with
  | None => r
  | Some members =>
      let rest := members ∖ {[sid]} in
      if decide (rest = ∅) then delete room r else <[room := rest]> r
  end.

(** What the adapter does when a socket closes: it leaves every room it
    is in. *)
Definition leaveAll (sid : string) (r : gmap string (gset string)) : gmap string (gset string) :=
  omap (λ members,
          if decide (sid ∈ members) then
            let rest := members ∖ {[sid]} in
            if decide (rest = ∅) then None else Some rest
          else Some members) r.

(** [io.sockets.adapter.rooms.get(room)] read as a set (absent: empty). *)
Definition members (room : string) (w : World) : gset string :=
  default ∅ (rooms w !! room).

Definition userRoom (userId : string) : string := "user-" +:+ userId.
Definition companyRoom (companyId : string) : string := "company-" +:+ companyId.
Definition waiterRoom (companyId : string) : string := "waiters-" +:+ companyId.

(** The notification object built by the socket handlers and by the
    server-side helpers ([read_at] is always [null] and is left out). *)
Record Notification := {
  n_id : string;
  n_message : string;
  n_type : string;
  n_title : option string;
  n_timestamp : Z;
  n_broadcast : bool;
  n_from : string
}.

(** The notification object built by [server.js]; its [id] is the number
    [Date.now()]. *)
Record ApiNotification := {
  a_message : string;
  a_type : string;
  a_timestamp : Z;
  a_id : Z;
  a_from : string
}.

Inductive Payload : Type :=
| JoinError (error : string)
| JoinedRoom (userId socketId room : string) (timestamp : Z)
| JoinedCompanyRoom (userId companyId socketId room : string) (timestamp : Z)
| JoinedWaiterRoom (success : bool) (companyId : option string)
| NotificationError (error : string) (notificationId targetUserId : option string)
                    (timestamp : Z)
| NotificationSent (targetUserId : string) (success : bool) (timestamp : Z)
                   (roomName notificationId : string) (roomSize : nat)
| BroadcastError (error : string) (broadcastId : option string) (timestamp : Z)
| BroadcastSent (success : bool) (timestamp : Z) (totalClients : nat) (broadcastId : string)
| NotificationMsg (n : Notification)
| ApiNotificationMsg (n : ApiNotification).

(** [socket.emit], [io.to(room).emit] and [io.emit]. *)
Inductive Target : Type :=
| ToSocket (socketId : string)
| ToRoom (room : string)
| ToAll.

Record Emission := {
  e_target : Target;
  e_event : string;
  e_payload : Payload
}.

Definition emit (t : Target) (event : string) (p : Payload) : Emission :=
  {| e_target := t; e_event := event; e_payload := p |}.

(** The connections an emission is pushed to. *)
Definition recipients (t : Target) (w : World) : gset string :=
  match t with
  | ToSocket sid => if decide (sid ∈ dom (sockets w)) then {[sid]} else ∅
  | ToRoom room => members room w
  | ToAll => dom (sockets w)
  end.

(** [io.engine.clientsCount]: the transports Engine.IO has open, those
    that carry a socket and those that carry none. *)
Definition clientsCount (w : World) : nat := (size (sockets w) + idleTransports w)%nat.

(** A handler finishes with the events it emitted, or with an exception
    nobody caught; the second component is the state it leaves. *)
Definition Handled : Type := result (list Emission) * World.

(** [if (!v) ... else ... v ...]: the value when it is truthy. *)
Definition truthy_val (v : option string) : option string :=
  match v with
  | Some s => if String.eqb s "" then None else Some s
  | None => None
  end.

(** *** Handlers registered in [io.on('connection', ...)] *)

(** A new connection: [socket.userId = null]; [socket.companyId] is
    undefined.  Socket ids are unique, an id already connected cannot
    connect again. *)
Definition connection (sid : string) (w : World) : Handled :=
  match sockets w !! sid with
  | Some _ => (Ok [], w)
  | None => (Ok [], set_socket sid {| s_userId := None; s_companyId := None |} w)
  end.

(** [socket.on('join-user-room', (userId) => ...)] *)
Definition join_user_room (sid : string) (sk : SocketData) (userId : option string)
    (now : Z) (w : World) : Handled :=
  match truthy_val userId with
  | None => (Ok [emit (ToSocket sid) "join-error" (JoinError "User ID is required")], w)
  | Some uid =>
      (* Leave previous room if any *)
      let w1 :=
        match truthy_val (s_userId sk) with
        | Some old =>
            set_userSockets (delete old (userSockets w))
              (set_rooms (leave sid (userRoom old) (rooms w)) w)
        | None => w
        end in
      (* Join new room *)
      let w2 := set_rooms (join sid (userRoom uid) (rooms w1)) w1 in
      let w3 := set_socket sid {| s_userId := Some uid; s_companyId := s_companyId sk |} w2 in
      let w4 := set_userSockets (<[uid := sid]> (userSockets w3)) w3 in
      (Ok [emit (ToSocket sid) "joined-room" (JoinedRoom uid sid (userRoom uid) now)], w4)
  end.

(** The payload of [join-company-room]. *)
Record CompanyJoin := {
  cj_userId : option string;
  cj_companyId : option string
}.

(** [socket.on('join-company-room', (data) => ...)].  Destructuring an
    absent [data] throws a [TypeError]. *)
Definition join_company_room (sid : string) (sk : SocketData) (data : option CompanyJoin)
    (now : Z) (w : World) : Handled :=
  match data with
  | None => (Throw "Cannot destructure property 'userId' of 'data' as it is undefined.", w)
  | Some d =>
      match truthy_val (cj_userId d), truthy_val (cj_companyId d) with
      | Some uid, Some cid =>
          (* Leave previous company room if any *)
          let w1 :=
            match truthy_val (s_companyId sk) with
            | Some old => set_rooms (leave sid (companyRoom old) (rooms w)) w
            | None => w
            end in
          (* Join company room *)
          let w2 := set_rooms (join sid (companyRoom cid) (rooms w1)) w1 in
          let w3 := set_socket sid {| s_userId := s_userId sk; s_companyId := Some cid |} w2 in
          (Ok [emit (ToSocket sid) "joined-company-room"
                 (JoinedCompanyRoom uid cid sid (companyRoom cid) now)], w3)
      | _, _ =>
          (Ok [emit (ToSocket sid) "join-error"
                 (JoinError "User ID and Company ID are required")], w)
      end
  end.

(** [socket.on('join-waiter-room', (companyId) => ...)] *)
Definition join_waiter_room (sid : string) (companyId : option string) (w : World) : Handled :=
  (* Specific Company Waiter Room *)
  let w1 :=
    match truthy_val companyId with
    | Some cid => set_rooms (join sid (waiterRoom cid) (rooms w)) w
    | None => w
    end in
  (* Also join global waiters *)
  let w2 := set_rooms (join sid "waiters" (rooms w1)) w1 in
  (Ok [emit (ToSocket sid) "joined-waiter-room" (JoinedWaiterRoom true companyId)], w2).

(** The payload of [send-notification]. *)
Record SendData := {
  sd_targetUserId : option string;
  sd_message : option string;
  sd_type : option string;
  sd_title : option string
}.

(** [socket.on('send-notification', async (data) => ...)].  The whole body
    sits in a [try]; the [catch] reports [error.message] to the sender. *)
Definition send_notification (sid : string) (sk : SocketData) (data : option SendData)
    (now : Z) (w : World) : Handled :=
  match data with
  | None =>
      (Ok [emit (ToSocket sid) "notification-error"
             (NotificationError
                "Cannot destructure property 'targetUserId' of 'data' as it is undefined."
                None None now)], w)
  | Some d =>
      match truthy_val (sd_targetUserId d), truthy_val (sd_message d) with
      | Some targetUserId, Some message =>
          (* Create unique notification ID to prevent duplicates *)
          let id := notificationId targetUserId now message in
          (* Check for duplicates, then mark as sent *)
          match admitId id now (sentNotifications w) with
          | (false, _) =>
              (Ok [emit (ToSocket sid) "notification-error"
                     (NotificationError "Duplicate notification prevented"
                        (Some id) None now)], w)
          | (true, sent) =>
              let notification :=
                {| n_id := id; n_message := message;
                   n_type := default "info" (sd_type d);
                   n_title := sd_title d; n_timestamp := now; n_broadcast := false;
                   n_from := or_else (s_userId sk) "socket-server" |} in
              let w1 := set_sent sent w in
              (* Emit to specific user's room *)
              let roomName := userRoom targetUserId in
              let roomSize := size (members roomName w1) in
              if (0 <? roomSize)%nat then
                (Ok [emit (ToRoom roomName) "notification" (NotificationMsg notification);
                     emit (ToSocket sid) "notification-sent"
                       (NotificationSent targetUserId true now roomName id roomSize)], w1)
              else
                (* User not connected *)
                (Ok [emit (ToSocket sid) "notification-error"
                       (NotificationError "Target user not connected"
                          None (Some targetUserId) now)], w1)
          end
      | _, _ =>
          (Ok [emit (ToSocket sid) "notification-error"
                 (NotificationError "Missing targetUserId or message" None None now)], w)
      end
  end.

(** The payload of [broadcast-notification]. *)
Record BroadcastData := {
  bd_message : option string;
  bd_type : option string;
  bd_title : option string
}.

(** [socket.on('broadcast-notification', (data) => ...)], its body in a
    [try] like that of [send-notification]. *)
Definition broadcast_notification (sid : string) (sk : SocketData)
    (data : option BroadcastData) (now : Z) (w : World) : Handled :=
  match data with
  | None =>
      (Ok [emit (ToSocket sid) "broadcast-error"
             (BroadcastError
                "Cannot destructure property 'message' of 'data' as it is undefined."
                None now)], w)
  | Some d =>
      match truthy_val (bd_message d) with
      | Some message =>
          (* Create unique broadcast ID *)
          let id := broadcastId now message in
          (* Check for duplicate broadcasts, then mark as sent *)
          match admitId id now (sentNotifications w) with
          | (false, _) =>
              (Ok [emit (ToSocket sid) "broadcast-error"
                     (BroadcastError "Duplicate broadcast prevented" (Some id) now)], w)
          | (true, sent) =>
              let notification :=
                {| n_id := id; n_message := message;
                   n_type := default "info" (bd_type d);
                   n_title := bd_title d; n_timestamp := now; n_broadcast := true;
                   n_from := or_else (s_userId sk) "socket-server" |} in
              (Ok [emit ToAll "notification" (NotificationMsg notification);
                   emit (ToSocket sid) "broadcast-sent"
                     (BroadcastSent true now (clientsCount w) id)],
               set_sent sent w)
          end
      | None =>
          (Ok [emit (ToSocket sid) "broadcast-error"
                 (BroadcastError "Missing message" None now)], w)
      end
  end.

(** [socket.on('disconnect', ...)].  Socket.IO has taken the socket out of
    its rooms before the handler runs; the handler cleans up the user
    mapping. *)
Definition disconnect (sid : string) (sk : SocketData) (w : World) : Handled :=
  let w1 := set_rooms (leaveAll sid (rooms w)) w in
  let w2 :=
    match truthy_val (s_userId sk) with
    | Some uid => set_userSockets (delete uid (userSockets w1)) w1
    | None => w1
    end in
  (Ok [], {| sockets := delete sid (sockets w2); rooms := rooms w2;
             userSockets := userSockets w2;
             sentNotifications := sentNotifications w2;
             idleTransports := idleTransports w2 |}).

(** The events of the registry, as a client produces them. *)
Inductive ClientEvent : Type :=
| Connection
| JoinUserRoom (userId : option string)
| JoinCompanyRoom (data : option CompanyJoin)
| JoinWaiterRoom (companyId : option string)
| SendNotification (data : option SendData)
| BroadcastNotification (data : option BroadcastData)
| Disconnect.

(** Socket.IO runs the handler of an event on the socket it arrived on;
    an event for a socket that is not connected reaches no handler. *)
Definition on (sid : string) (ev : ClientEvent) (now : Z) (w : World) : Handled :=
  match ev with
  | Connection => connection sid w
  | _ =>
      match sockets w !! sid with
      | None => (Ok [], w)
      | Some sk =>
          match ev with
          | Connection => (Ok [], w)
          | JoinUserRoom userId => join_user_room sid sk userId now w
          | JoinCompanyRoom data => join_company_room sid sk data now w
          | JoinWaiterRoom companyId => join_waiter_room sid companyId w
          | SendNotification data => send_notification sid sk data now w
          | BroadcastNotification data => broadcast_notification sid sk data now w
          | Disconnect => disconnect sid sk w
          end
      end
  end.

(** A run of the server: events tagged with the socket they arrive on and
    the clock reading, sweeps of the cleanup timer, and what happens below
    Socket.IO: transports open and close, [idle] of them being left without
    a socket. *)
Inductive Step : Type :=
| Client (sid : string) (ev : ClientEvent) (now : Z)
| Sweep (now : Z)
| Engine (idle : nat).

Definition step (w : World) (s : Step) : World :=
  match s with
  | Client sid ev now => (on sid ev now w).2
  | Sweep now => set_sent (cleanup now (sentNotifications w)) w
  | Engine idle => set_idleTransports idle w
  end.

Definition run (steps : list Step) (w : World) : World := foldl step w steps.

(** What holds of every state the server reaches: a recorded user id is
    truthy, and a connection is in the room of user [u] exactly when [u]
    is the user id recorded on its socket. *)
Definition registry_inv (w : World) : Prop :=
  (∀ sid sk u, sockets w !! sid = Some sk → s_userId sk = Some u → u ≠ "") ∧
  (∀ sid u, sid ∈ members (userRoom u) w
            ↔ ∃ sk, sockets w !! sid = Some sk ∧ s_userId sk = Some u).

(** An emission that reports a failure to its receiver. *)
Definition is_error (e : Emission) : bool :=
  match e_payload e with
  | JoinError _ | NotificationError _ _ _ _ | BroadcastError _ _ _ => true
  | _ => false
  end.

(** An emission that reports a delivery to [n] connections. *)
Definition reports_delivery (n : nat) (e : Emission) : bool :=
  match e_payload e with
  | NotificationSent _ true _ _ _ roomSize => (roomSize =? n)%nat
  | _ => false
  end.

(** A server with one client connected, in no room. *)
Definition one_client : World := run [Client "s1" Connection 0] initial.

(** A server with one client connected, in the room of user 42. *)
Definition joined_client : World :=
  run [Client "s1" Connection 0; Client "s1" (JoinUserRoom (Some "42")) 1] initial.

(** A server with one client connected, in the waiter room of company A. *)
Definition company_waiter : World :=
  run [Client "s1" Connection 0; Client "s1" (JoinWaiterRoom (Some "A")) 1] initial.

(** *** Exported helpers *)

(** [getSocket]: the [io] object, or an exception. *)
Definition getSocket (st : option World) : result World :=
  match st with
  | None => Throw "Socket.io not initialized"
  | Some w => Ok w
  end.

Inductive Stats : Type :=
| StatsDown (connected : bool) (clientsCount : nat)
| StatsUp (connected : bool) (clientsCount userCount : nat) (roomNames : list string)
          (notificationCache : nat) (connectedUsers : list string) (timestamp : Z).

(** [getConnectionStats] (the order of the two key arrays is not tracked). *)
Definition getConnectionStats (st : option World) (now : Z) : result Stats :=
  match st with
  | None => Ok (StatsDown false 0)
  | Some w =>
      Ok (StatsUp true (clientsCount w) (size (userSockets w))
            (elements (dom (rooms w))) (size (sentNotifications w))
            (elements (dom (userSockets w))) now)
  end.

(** [sendToUser(userId, message, type = 'info', title = null)]: the value
    returned ([null] as [None]), the events emitted and the state left. *)
Definition sendToUser (st : option World) (userId message : string)
    (type : option string) (title : option string) (now : Z)
    : result (option Notification) * list Emission * option World :=
  match st with
  | None => (Throw "Socket.io not initialized", [], st)
  | Some w =>
      let id := serverNotificationId userId now message in
      (* Check for duplicates, then mark as sent *)
      match admitId id now (sentNotifications w) with
      | (false, _) => (Ok None, [], st)
      | (true, sent) =>
          let notification :=
            {| n_id := id; n_message := message; n_type := default "info" type;
               n_title := title; n_timestamp := now; n_broadcast := false;
               n_from := "server-direct" |} in
          let w1 := set_sent sent w in
          let roomName := userRoom userId in
          if (0 <? size (members roomName w1))%nat then
            (Ok (Some notification),
             [emit (ToRoom roomName) "notification" (NotificationMsg notification)],
             Some w1)
          else
            (Ok (Some notification), [], Some w1)
      end
  end.

(** [broadcastToAll(message, type = 'info', title = null)] *)
Definition broadcastToAll (st : option World) (message : string)
    (type : option string) (title : option string) (now : Z)
    : result (option Notification) * list Emission * option World :=
  match st with
  | None => (Throw "Socket.io not initialized", [], st)
  | Some w =>
      let id := serverBroadcastId now message in
      match admitId id now (sentNotifications w) with
      | (false, _) => (Ok None, [], st)
      | (true, sent) =>
          let notification :=
            {| n_id := id; n_message := message; n_type := default "info" type;
               n_title := title; n_timestamp := now; n_broadcast := true;
               n_from := "server-direct" |} in
          (Ok (Some notification),
           [emit ToAll "notification" (NotificationMsg notification)],
           Some (set_sent sent w))
      end
  end.

(** *** Handlers that only relay *)

(** [`${v}`] for a value that may be undefined. *)
Definition template (v : option string) : string := default "undefined" v.

(** [a || b] when [b] may be undefined too. *)
Definition or_opt (a b : option string) : option string :=
  match truthy_val a with
  | Some x => Some x
  | None => b
  end.

(** What the relaying handlers send.  A signalling blob, which the server
    never looks into, is kept as it arrived. *)
Inductive RelayPayload : Type :=
| CustomerBell (tableId tableName userName : option string) (timestamp id : Z)
               (message : string)
| WaiterCalled (success : bool) (timestamp : Z)
| CallUser (signal from name : option string) (callType : string)
| CallAccepted (signal : option string)
| IceCandidate (candidate : option string)
| CallEnded
| MediaCallRequested (companyId : option string) (request : string) (socketId : string)
                     (timestamp : Z)
| RequestCancelled (companyId : option string) (request : string)
| RequestCancelledEmpty
| ContentRefreshRequested (page component : option string) (timestamp : Z).

Record RelayEmission := {
  r_target : Target;
  r_event : string;
  r_payload : RelayPayload
}.

Definition relay (t : Target) (event : string) (p : RelayPayload) : RelayEmission :=
  {| r_target := t; r_event := event; r_payload := p |}.

(** A relaying handler touches no state: it ends with the events it
    emitted and, when it threw, the message of the exception. *)
Definition Relayed : Type := list RelayEmission * option string.

(** The payload of [call-waiter]. *)
Record CallWaiter := {
  cw_tableId : option string;
  cw_tableName : option string;
  cw_userName : option string
}.

(** [socket.on('call-waiter', (data) => ...)] *)
Definition call_waiter (sid : string) (data : option CallWaiter) (now : Z) : Relayed :=
  match data with
  | None => ([], Some "Cannot destructure property 'tableId' of 'data' as it is undefined.")
  | Some d =>
      let table := template (or_opt (cw_tableName d) (cw_tableId d)) in
      let message :=
        match truthy_val (cw_userName d) with
        | Some userName => "Table " +:+ table +:+ " (" +:+ userName +:+ ") is calling"
        | None => "Table " +:+ table +:+ " is calling"
        end in
      (* Broadcast to waiters, then confirm to the caller *)
      ([relay (ToRoom "waiters") "customer-bell"
          (CustomerBell (cw_tableId d) (cw_tableName d) (cw_userName d) now now message);
        relay (ToSocket sid) "waiter-called" (WaiterCalled true now)], None)
  end.

(** The payload of [request-call] and of [cancel-call-request]: the company
    id the handlers read, and the rest of the object. *)
Record CallRequest := {
  cr_companyId : option string;
  cr_request : string
}.

(** [socket.on('request-call', (data) => ...)] *)
Definition request_call (sid : string) (data : option CallRequest) (now : Z) : Relayed :=
  match data with
  | None => ([], Some "Cannot destructure property 'companyId' of 'data' as it is undefined.")
  | Some d =>
      let targetRoom :=
        match truthy_val (cr_companyId d) with
        | Some companyId => waiterRoom companyId
        | None => "waiters"
        end in
      ([relay (ToRoom targetRoom) "media-call-requested"
          (MediaCallRequested (cr_companyId d) (cr_request d) sid now)], None)
  end.

(** [socket.on('cancel-call-request', (data) => ...)]: the event goes to
    [waiters] first; reading [data.companyId] of an absent [data] throws
    after that. *)
Definition cancel_call_request (data : option CallRequest) : Relayed :=
  match data with
  | None =>
      ([relay (ToRoom "waiters") "request-cancelled" RequestCancelledEmpty],
       Some "Cannot read properties of undefined (reading 'companyId')")
  | Some d =>
      let cancelled := RequestCancelled (cr_companyId d) (cr_request d) in
      match truthy_val (cr_companyId d) with
      | Some companyId =>
          ([relay (ToRoom "waiters") "request-cancelled" cancelled;
            relay (ToRoom (waiterRoom companyId)) "request-cancelled" cancelled], None)
      | None => ([relay (ToRoom "waiters") "request-cancelled" cancelled], None)
      end
  end.

(** The payload of [call-user]. *)
Record CallUserData := {
  cu_userToCall : option string;
  cu_signalData : option string;
  cu_from : option string;
  cu_name : option string;
  cu_callType : option string
}.

(** [socket.on('call-user', (data) => ...)] *)
Definition call_user (data : option CallUserData) : Relayed :=
  match data with
  | None => ([], Some "Cannot destructure property 'userToCall' of 'data' as it is undefined.")
  | Some d =>
      ([relay (ToRoom (userRoom (template (cu_userToCall d)))) "call-user"
          (CallUser (cu_signalData d) (cu_from d) (cu_name d)
             (or_else (cu_callType d) "video"))], None)
  end.

(** The payload of [answer-call], [ice-candidate] and [end-call]: the
    target user and the blob to pass on. *)
Record Signal := {
  sg_to : option string;
  sg_blob : option string
}.

(** [socket.on('answer-call', (data) => ...)] *)
Definition answer_call (data : option Signal) : Relayed :=
  match data with
  | None => ([], Some "Cannot destructure property 'to' of 'data' as it is undefined.")
  | Some d =>
      ([relay (ToRoom (userRoom (template (sg_to d)))) "call-accepted"
          (CallAccepted (sg_blob d))], None)
  end.

(** [socket.on('ice-candidate', (data) => ...)] *)
Definition ice_candidate (data : option Signal) : Relayed :=
  match data with
  | None => ([], Some "Cannot destructure property 'to' of 'data' as it is undefined.")
  | Some d =>
      ([relay (ToRoom (userRoom (template (sg_to d)))) "ice-candidate"
          (IceCandidate (sg_blob d))], None)
  end.

(** [socket.on('end-call', (data) => ...)] *)
Definition end_call (data : option Signal) : Relayed :=
  match data with
  | None => ([], Some "Cannot destructure property 'to' of 'data' as it is undefined.")
  | Some d => ([relay (ToRoom (userRoom (template (sg_to d)))) "call-ended" CallEnded], None)
  end.

(** The payload of [request-content-refresh]. *)
Record RefreshRequest := {
  rr_page : option string;
  rr_component : option string;
  rr_targetUserId : option string
}.

(** [socket.on('request-content-refresh', (data) => ...)] *)
Definition request_content_refresh (sid : string) (data : option RefreshRequest) (now : Z)
    : Relayed :=
  match data with
  | None => ([], Some "Cannot destructure property 'page' of 'data' as it is undefined.")
  | Some d =>
      let refreshMessage := ContentRefreshRequested (rr_page d) (rr_component d) now in
      match truthy_val (rr_targetUserId d) with
      | Some targetUserId =>
          ([relay (ToRoom (userRoom targetUserId)) "content-refresh" refreshMessage], None)
      | None =>
          (* Send back to requesting client *)
          ([relay (ToSocket sid) "content-refresh" refreshMessage], None)
      end
  end.

(** How many of the emitted events are pushed to a connection. *)
Definition deliveries (sid : string) (w : World) (out : list RelayEmission) : nat :=
  length (filter (λ e, sid ∈ recipients (r_target e) w) out).

(** Every entry of [userSockets] names a connected socket that carries the
    user id of the entry. *)
Definition userSockets_inv (w : World) : Prop :=
  ∀ u sid, userSockets w !! u = Some sid →
           ∃ sk, sockets w !! sid = Some sk ∧ s_userId sk = Some u.

(** A connection in the waiter room of a company is in the room [waiters]. *)
Definition waiters_inv (w : World) : Prop :=
  ∀ sid c, sid ∈ members (waiterRoom c) w → sid ∈ members "waiters" w.

End Socket.

(** ** server.js *)

Module Server.
Import Socket.

(** The fields the endpoint reads from the parsed body. *)
Record SendBody := {
  b_userId : option string;
  b_message : option string;
  b_type : option string
}.

Inductive ResponseBody : Type :=
| MethodNotAllowed (error : string)
| InvalidJson (error message : string)
| MissingFields (error : string) (received : SendBody)
| NotificationAccepted (success : bool) (message : string) (targetUser : string)
                       (notification : ApiNotification) (connectedClients : nat).

Record Response := {
  status : Z;
  body : ResponseBody
}.

(** [case '/api/notifications/send']; [parsed] is what [parseJsonBody]
    resolved to, or the error it rejected with.  In [server.js] the
    constant [io] is the initialised server. *)
Definition api_notifications_send (method : string) (parsed : result SendBody)
    (now : Z) (w : World) : Response * list Emission :=
  if negb (String.eqb method "POST") then
    ({| status := 405; body := MethodNotAllowed "Method not allowed" |}, [])
  else
    match parsed with
    | Throw parseError =>
        ({| status := 400; body := InvalidJson "Invalid JSON format" parseError |}, [])
    | Ok sendData =>
        match truthy_val (b_userId sendData), truthy_val (b_message sendData) with
        | Some notificationUserId, Some message =>
            let notification :=
              {| a_message := message; a_type := default "info" (b_type sendData);
                 a_timestamp := now; a_id := now; a_from := "api" |} in
            (* Send via Socket.IO *)
            ({| status := 200;
                body := NotificationAccepted true "Notification sent" notificationUserId
                          notification (clientsCount w) |},
             [emit (ToRoom (userRoom notificationUserId)) "notification"
                (ApiNotificationMsg notification)])
        | _, _ =>
            ({| status := 400;
                body := MissingFields "Missing required fields: userId, message" sendData |},
             [])
        end
    end.

(** *** [/api/notifications/broadcast] and [/api/content/refresh] *)











End Server.

(** ** A state monad with exceptions, for the persistence layer *)

Module Eff.

Definition M (S A : Type) : Type := S → result A * S.

Definition ret {S A} (a : A) : M S A := λ s, (Ok a, s).

Definition bind {S A B} (m : M S A) (k : A → M S B) : M S B :=
  λ s, match m s with
       | (Ok a, s') => k a s'
       | (Throw e, s') => (Throw e, s')
       end.

Definition throw {S A} (e : string) : M S A := λ s, (Throw e, s).

(** [try { m } catch (error) { handler(error.message) }] *)
Definition try_catch {S A} (m : M S A) (handler : string → M S A) : M S A :=
  λ s, match m s with
       | (Ok a, s') => (Ok a, s')
       | (Throw e, s') => handler e s'
       end.

Definition gets {S A} (f : S → A) : M S A := λ s, (Ok (f s), s).

Definition modify {S} (f : S → S) : M S unit := λ s, (Ok tt, f s).

(** [for (const x of xs) { body(x) }] *)
Fixpoint for_each {S A} (xs : list A) (body : A → M S unit) : M S unit :=
  match xs with
  | [] => ret tt
  | x :: rest => bind (body x) (λ _, for_each rest body)
  end.

(** Running a computation of a component inside a larger state. *)
Definition lift {S T A} (get : S → T) (put : T → S → S) (m : M T A) : M S A :=
  λ s, match m (get s) with (r, t) => (r, put t s) end.

(** A computation keeps a property of the state, however it ends. *)
Definition preserves {S A} (P : S → Prop) (m : M S A) : Prop :=
  ∀ s, P s → P (m s).2.

(** A computation returns, whatever the state it starts in. *)
Definition never_throws {S A} (m : M S A) : Prop :=
  ∀ s, ∃ a, (m s).1 = Ok a.

End Eff.

Declare Scope eff_scope.
Delimit Scope eff_scope with eff.
Notation "'let*' x ':=' m 'in' k" := (Eff.bind m (λ x, k))
(at level 10, x name, m at level 100, k at level 200) : eff_scope.
Notation "m ';;' k" := (Eff.bind m (λ _, k))
(at level 100, k at level 200, right associativity) : eff_scope.

(** ** lib/database.js: the JSON fallback store *)

Module Database.

(** A browser push subscription, as the tests build it. *)
Record Subscription := {
  endpoint : string;
  p256dh : string;
  auth : string
}.

Record Entry := {
  userId : string;
  subscription : Subscription;
  createdAt : Z
}.

(** The array [db.subscriptions] of [data/subscriptions.json]; [initDB]
    creates the file with an empty array.  The file system is taken to be
    always available. *)
Abbreviation Db := (list Entry).

Definition empty : Db := [].

(** [addSubscription(userId, subscription)]: the value returned and the
    array written back. *)
Definition addSubscription (now : Z) (uid : string) (sub : Subscription) (db : Db)
    : Subscription * Db :=
  (* Remove existing subscription for this user *)
  let kept := filter (λ e, userId e ≠ uid) db in
  (* Add new subscription *)
  (sub, kept ++ [{| userId := uid; subscription := sub; createdAt := now |}]).

(** [getSubscription(userId)]: [Array.prototype.find]. *)
Definition getSubscription (uid : string) (db : Db) : option Entry :=
  List.find (λ e, bool_decide (userId e = uid)) db.

Definition getAllSubscriptions (db : Db) : list Entry := db.

(** [removeSubscription(userId)] *)
Definition removeSubscription (uid : string) (db : Db) : Db :=
  filter (λ e, userId e ≠ uid) db.

(** No user has two records. *)
Definition unique_users (db : Db) : Prop := NoDup (userId <$> db).

(** Number of records kept for a user. *)
Definition records_of (uid : string) (db : Db) : nat :=
  length (filter (λ e, userId e = uid) db).

End Database.

(** ** pages/api: the subscription endpoints over the JSON store *)

Module Pages.
Import Database(Subscription).

(** A user id as a request body carries it and as the JSON file keeps it:
    the JSON value, a text or a number.  The page handlers hand it to
    [lib/database.js] as it arrived. *)
Inductive JsonId : Type :=
| IdText (text : string)
| IdNumber (number : Z).

#[global] Instance JsonId_eq_dec : EqDecision JsonId.
Proof. solve_decision. Defined.


(** An element of [db.subscriptions], the user id being the value it was
    saved with. *)
Record Saved := {
  saved_userId : JsonId;
  saved_subscription : Subscription;
  saved_createdAt : Z
}.

Abbreviation File := (list Saved).

(** [addSubscription(userId, subscription)] of [lib/database.js];
    [sub.userId !== userId] is strict, a text never equals a number. *)
Definition addSubscription (now : Z) (userId : JsonId) (subscription : Subscription)
    (db : File) : Subscription * File :=
  (* Remove existing subscription for this user *)
  let kept := filter (λ sub, saved_userId sub ≠ userId) db in
  (* Add new subscription *)
  (subscription,
   kept ++ [{| saved_userId := userId; saved_subscription := subscription;
               saved_createdAt := now |}]).

(** [getSubscription(userId)] of [lib/database.js]: [Array.prototype.find]
    with [sub.userId === userId]. *)
Definition getSubscription (userId : JsonId) (db : File) : option Saved :=
  List.find (λ sub, bool_decide (saved_userId sub = userId)) db.

(** A store whose user ids are all texts, as [Database] has it. *)
Definition of_db (db : Database.Db) : File :=
  (λ e, {| saved_userId := IdText (Database.userId e);
           saved_subscription := Database.subscription e;
           saved_createdAt := Database.createdAt e |}) <$> db.






(** *** pages/api/notifications/send-socket.js *)

(** The body of a send-socket request; [type] is [None] when the key is
    missing, [broadcast] is the truth value of the field. *)
Record SendSocketBody := {
  ss_userId : option string;
  ss_message : option string;
  ss_type : option string;
  ss_broadcast : bool
}.

(** [notificationData] *)
Record SocketNotification := {
  sn_message : string;
  sn_type : string;
  sn_timestamp : Z;
  sn_id : Z
}.

(** [io.emit('notification', ...)] and [io.to(room).emit('notification', ...)]. *)
Record SocketEmission := {
  se_target : Socket.Target;
  se_event : string;
  se_data : SocketNotification
}.

Inductive SendSocketBody_out : Type :=
| SocketMessage (message : string)
| SocketSent (message : string) (data : SocketNotification).

Record SendSocketResponse := {
  ss_status : Z;
  ss_body : SendSocketBody_out
}.

(** The handler; [io] is the module variable of [lib/socket.js], [None]
    before [initSocket] has run.  [getSocket] throws then, and the [catch]
    answers 500. *)
Definition send_socket (method : string) (body : SendSocketBody) (now : Z)
    (io : option Socket.World) : SendSocketResponse * list SocketEmission :=
  if negb (String.eqb method "POST") then
    ({| ss_status := 405; ss_body := SocketMessage "Method not allowed" |}, [])
  else
    match Socket.truthy_val (ss_message body) with
    | None => ({| ss_status := 400; ss_body := SocketMessage "Message is required" |}, [])
    | Some message =>
        match Socket.getSocket io with
        | Throw _ =>
            ({| ss_status := 500;
                ss_body := SocketMessage "Failed to send socket notification" |}, [])
        | Ok _ =>
            let notificationData :=
              {| sn_message := message; sn_type := default "info" (ss_type body);
                 sn_timestamp := now; sn_id := now |} in
            let sent :=
              {| ss_status := 200;
                 ss_body := SocketSent "Socket notification sent successfully"
                              notificationData |} in
            if ss_broadcast body then
              (sent, [{| se_target := Socket.ToAll; se_event := "notification";
                         se_data := notificationData |}])
            else
              match Socket.truthy_val (ss_userId body) with
              | None =>
                  ({| ss_status := 400;
                      ss_body := SocketMessage
                                   "userId is required for non-broadcast messages" |}, [])
              | Some userId =>
                  (sent, [{| se_target := Socket.ToRoom (Socket.userRoom userId);
                             se_event := "notification";
                             se_data := notificationData |}])
              end
        end
    end.

End Pages.

(** ** lib/mysql-database.js: the MySQL store *)

Module MysqlDatabase.
Import Eff.
Import Database(Subscription).

(** A row of [socket_subscriptions]; [subscription_data] is the JSON
    document the INSERT wrote. *)
Record Row := {
  id : N;
  user_id : string;
  subscription_data : Subscription;
  created_at : Z;
  updated_at : Z
}.

(** The table with its AUTO_INCREMENT counter, and the outcomes of the
    coming round trips to the server: [true] when the round trip goes
    through, [false] when it fails; past the end of the script every
    round trip goes through. *)
Record State := {
  rows : list Row;
  auto_increment : N;
  script : list bool
}.

Definition empty : State := {| rows := []; auto_increment := 1; script := [] |}.

(** One round trip: it consumes the next outcome of the script. *)
Definition round_trip : M State unit :=
  λ st,
    match script st with
    | [] => (Ok tt, st)
    | true :: rest =>
        (Ok tt, {| rows := rows st; auto_increment := auto_increment st; script := rest |})
    | false :: rest =>
        (Throw "connect ECONNREFUSED",
         {| rows := rows st; auto_increment := auto_increment st; script := rest |})
    end.

(** [getConnection]: connect when needed, then [ping]; a failure is
    rethrown. *)
Definition getConnection : M State unit := round_trip.

(** [DELETE FROM socket_subscriptions WHERE user_id = ?]; the value is
    [affectedRows].  The comparison of the column is string equality. *)
Definition execute_delete (uid : string) : M State nat :=
  (round_trip ;;
   λ st,
     (Ok (length (filter (λ r, user_id r = uid) (rows st))),
      {| rows := filter (λ r, user_id r ≠ uid) (rows st);
         auto_increment := auto_increment st; script := script st |}))%eff.

(** [INSERT INTO socket_subscriptions (...) VALUES (?, ?, NOW(), NOW())];
    the value is [insertId].  The unique key on [user_id] rejects a second
    row for a user. *)
Definition execute_insert (now : Z) (uid : string) (sub : Subscription) : M State N :=
  (round_trip ;;
   λ st,
     if bool_decide (uid ∈ user_id <$> rows st) then
       (Throw "ER_DUP_ENTRY", st)
     else
       (Ok (auto_increment st),
        {| rows := rows st ++ [{| id := auto_increment st; user_id := uid;
                                 subscription_data := sub;
                                 created_at := now; updated_at := now |}];
           auto_increment := N.succ (auto_increment st); script := script st |}))%eff.

(** [SELECT * FROM socket_subscriptions WHERE user_id = ?] *)
Definition execute_select (uid : string) : M State (list Row) :=
  (round_trip ;; gets (λ st, filter (λ r, user_id r = uid) (rows st)))%eff.

(** [SELECT 1 as test] *)
Definition execute_select_1 : M State unit := round_trip.

(** [testConnection]: never throws, reports [success]. *)
Definition testConnection : M State bool :=
  try_catch (getConnection ;; execute_select_1 ;; ret true)%eff (λ _, ret false).

(** What [addSubscription] returns. *)
Record Added := {
  added_id : N;
  added_userId : string;
  added_subscription : Subscription;
  added_createdAt : Z
}.

(** [addSubscription(userId, subscription)]; its [catch] logs and
    rethrows. *)
Definition addSubscription (now : Z) (uid : string) (sub : Subscription) : M State Added :=
  (getConnection ;;
   (* Remove existing subscription for this user *)
   execute_delete uid ;;
   (* Add new subscription *)
   let* insertId := execute_insert now uid sub in
   ret {| added_id := insertId; added_userId := uid;
          added_subscription := sub; added_createdAt := now |})%eff.

(** What [getSubscription] returns for a row. *)
Record Found := {
  found_userId : string;
  found_subscription : Subscription;
  found_createdAt : Z
}.

(** [JSON.parse(rows[0].subscription_data)].  What the driver hands back
    for [subscription_data] is not the text that was inserted: the column
    is of type [json] (the schema of [socket_subscriptions]), and the driver
    returns such a column parsed.  [JSON.parse] turns an argument that is
    not a text into one, '[object Object]' for an object, and throws on
    it. *)
Definition JSON_parse (subscription_data : Subscription) : result Subscription :=
  Throw "Unexpected token o in JSON at position 1".

(** [getSubscription(userId)]; its [catch] logs and rethrows. *)
Definition getSubscription (uid : string) : M State (option Found) :=
  (getConnection ;;
   let* found := execute_select uid in
   match found with
   | r :: _ =>
       let* subscription := (λ st, (JSON_parse (subscription_data r), st)) in
       ret (Some {| found_userId := user_id r;
                    found_subscription := subscription;
                    found_createdAt := created_at r |})
   | [] => ret None
   end)%eff.

(** [removeSubscription(userId)]: [affectedRows > 0]. *)
Definition removeSubscription (uid : string) : M State bool :=
  (getConnection ;;
   let* affectedRows := execute_delete uid in
   ret (0 <? affectedRows)%nat)%eff.

(** Every round trip of the script goes through. *)
Definition all_through (fs : list bool) : Prop := Forall (λ b, b = true) fs.

(** No user has two rows: what the unique key on [user_id] stands for. *)
Definition unique_users (st : State) : Prop := NoDup (user_id <$> rows st).

(** Number of rows kept for a user. *)
Definition rows_of (uid : string) (st : State) : nat :=
  length (filter (λ r, user_id r = uid) (rows st)).

End MysqlDatabase.

(** ** lib/hybrid-database.js: MySQL with the JSON store as fallback *)

Module HybridDatabase.
Import Eff.
Import Database(Subscription, Entry).

(** An entry of [syncQueue]: [{ type: 'add', userId, subscription,
    timestamp }] or [{ type: 'remove', userId, subscription: null,
    timestamp }]. *)
Inductive Operation : Type :=
| Add (userId : string) (subscription : Subscription) (timestamp : Z)
| Remove (userId : string) (timestamp : Z).

Definition op_userId (op : Operation) : string :=
  match op with
  | Add uid _ _ => uid
  | Remove uid _ => uid
  end.

(** The module variables [isOnline] and [syncQueue], and the two stores
    the module writes to. *)
Record State := {
  isOnline : bool;
  syncQueue : list Operation;
  jsonDB : Database.Db;
  mysqlDB : MysqlDatabase.State
}.

Definition initial : State :=
  {| isOnline := true; syncQueue := [];
     jsonDB := Database.empty; mysqlDB := MysqlDatabase.empty |}.

Definition set_isOnline (b : bool) (s : State) : State :=
  {| isOnline := b; syncQueue := syncQueue s; jsonDB := jsonDB s; mysqlDB := mysqlDB s |}.

Definition set_syncQueue (q : list Operation) (s : State) : State :=
  {| isOnline := isOnline s; syncQueue := q; jsonDB := jsonDB s; mysqlDB := mysqlDB s |}.

Definition set_jsonDB (db : Database.Db) (s : State) : State :=
  {| isOnline := isOnline s; syncQueue := syncQueue s; jsonDB := db; mysqlDB := mysqlDB s |}.

Definition set_mysqlDB (m : MysqlDatabase.State) (s : State) : State :=
  {| isOnline := isOnline s; syncQueue := syncQueue s; jsonDB := jsonDB s; mysqlDB := m |}.

(** Calls into [mysqlDB.*]. *)
Definition mysql {A} (m : M MysqlDatabase.State A) : M State A :=
  lift mysqlDB set_mysqlDB m.

(** One queued operation sent to MySQL, inside its own [try]: a failure is
    logged and the loop goes on. *)
Definition sync_one (now : Z) (operation : Operation) : M State unit :=
  try_catch
    (match operation with
     | Add uid sub _ => mysql (MysqlDatabase.addSubscription now uid sub) ;; ret tt
     | Remove uid _ => mysql (MysqlDatabase.removeSubscription uid) ;; ret tt
     end)%eff
    (λ _, ret tt).

(** [syncOfflineData] *)
Definition syncOfflineData (now : Z) : M State unit :=
  (let* online := gets isOnline in
   let* queue := gets syncQueue in
   if negb online || (length queue =? 0)%nat then ret tt
   else
     for_each queue (sync_one now) ;;
     (* Clear sync queue after successful sync *)
     modify (set_syncQueue []))%eff.

(** [checkMySQLHealth] *)
Definition checkMySQLHealth (now : Z) : M State bool :=
  try_catch
    (let* success := mysql MysqlDatabase.testConnection in
     let* wasOffline := gets (λ s, negb (isOnline s)) in
     modify (set_isOnline success) ;;
     (if wasOffline && success then syncOfflineData now else ret tt) ;;
     gets isOnline)%eff
    (λ _, modify (set_isOnline false) ;; ret false)%eff.

(** [addToSyncQueue(type, userId, subscription = null)] *)
Definition addToSyncQueue (operation : Operation) : M State unit :=
  modify (λ s, set_syncQueue (syncQueue s ++ [operation]) s).

(** Hybrid [addSubscription(userId, subscription)]: the MySQL result when
    MySQL took the write, the JSON result otherwise. *)
Definition addSubscription (now : Z) (uid : string) (sub : Subscription)
    : M State (MysqlDatabase.Added + Subscription) :=
  ((* Always save to JSON first (immediate backup) *)
   let* jsonResult :=
     (λ s, let '(r, db) := Database.addSubscription now uid sub (jsonDB s) in
           (Ok r, set_jsonDB db s)) in
   let* online := checkMySQLHealth now in
   if online then
     try_catch
       ((* Try MySQL *)
        let* mysqlResult := mysql (MysqlDatabase.addSubscription now uid sub) in
        ret (inl mysqlResult))
       (λ _, addToSyncQueue (Add uid sub now) ;; ret (inr jsonResult))
   else
     addToSyncQueue (Add uid sub now) ;; ret (inr jsonResult))%eff.

(** Hybrid [getSubscription(userId)] *)
Definition getSubscription (now : Z) (uid : string)
    : M State (option (MysqlDatabase.Found + Entry)) :=
  (let* online := checkMySQLHealth now in
   let* fromMysql :=
     (if online then
        try_catch
          (* Try MySQL first *)
          (mysql (MysqlDatabase.getSubscription uid))
          (λ _, ret None)
      else ret None) in
   match fromMysql with
   | Some mysqlResult => ret (Some (inl mysqlResult))
   | None =>
       (* Fallback to JSON *)
       gets (λ s, inr <$> Database.getSubscription uid (jsonDB s))
   end)%eff.

(** Hybrid [removeSubscription(userId)] *)
Definition removeSubscription (now : Z) (uid : string) : M State unit :=
  ((* Always remove from JSON *)
   modify (λ s, set_jsonDB (Database.removeSubscription uid (jsonDB s)) s) ;;
   let* online := checkMySQLHealth now in
   if online then
     try_catch
       (mysql (MysqlDatabase.removeSubscription uid) ;; ret tt)
       (λ _, addToSyncQueue (Remove uid now))
   else
     addToSyncQueue (Remove uid now))%eff.

(** [forcSync]: the value is its [success] field. *)
Definition forcSync (now : Z) : M State bool :=
  (let* online := checkMySQLHealth now in
   if online then syncOfflineData now ;; ret true
   else ret false)%eff.

(** The entry points of the module, as its callers and its 30-second
    timer use them. *)
Inductive Call : Type :=
| CallAdd (userId : string) (subscription : Subscription)
| CallRemove (userId : string)
| CallGet (userId : string)
| CallHealthCheck
| CallForceSync.

(** One invocation: the call, the clock reading, and how the round trips
    to MySQL made during it turn out. *)
Record Invocation := {
  call : Call;
  at_time : Z;
  outcomes : list bool
}.

Definition with_outcomes (fs : list bool) (s : State) : State :=
  set_mysqlDB {| MysqlDatabase.rows := MysqlDatabase.rows (mysqlDB s);
                 MysqlDatabase.auto_increment := MysqlDatabase.auto_increment (mysqlDB s);
                 MysqlDatabase.script := fs |} s.

(** The state an invocation leaves. *)
Definition invoke (s : State) (i : Invocation) : State :=
  let s0 := with_outcomes (outcomes i) s in
  match call i with
  | CallAdd uid sub => (addSubscription (at_time i) uid sub s0).2
  | CallRemove uid => (removeSubscription (at_time i) uid s0).2
  | CallGet uid => (getSubscription (at_time i) uid s0).2
  | CallHealthCheck => (checkMySQLHealth (at_time i) s0).2
  | CallForceSync => (forcSync (at_time i) s0).2
  end.

Definition run (trace : list Invocation) (s : State) : State := foldl invoke s trace.

(** The outcome of the connection test an invocation starts with:
    [getConnection] then [SELECT 1]. *)
Definition probe (fs : list bool) : bool :=
  match fs with
  | [] => true
  | [b] => b
  | b1 :: b2 :: _ => b1 && b2
  end.

(** The effect of a queued operation on the table when MySQL takes it. *)
Definition apply_row_op (now : Z) (op : Operation) (t : list MysqlDatabase.Row * N)
    : list MysqlDatabase.Row * N :=
  match op with
  | Add uid sub _ =>
      (filter (λ r, MysqlDatabase.user_id r ≠ uid) t.1 ++
         [{| MysqlDatabase.id := t.2; MysqlDatabase.user_id := uid;
             MysqlDatabase.subscription_data := sub;
             MysqlDatabase.created_at := now; MysqlDatabase.updated_at := now |}],
       N.succ t.2)
  | Remove uid _ =>
      (filter (λ r, MysqlDatabase.user_id r ≠ uid) t.1, t.2)
  end.

Definition table (s : State) : list MysqlDatabase.Row * N :=
  (MysqlDatabase.rows (mysqlDB s), MysqlDatabase.auto_increment (mysqlDB s)).

(** The subscription MySQL holds for a user. *)
Definition durable (uid : string) (t : list MysqlDatabase.Row * N) : option Subscription :=
  MysqlDatabase.subscription_data <$>
    head (filter (λ r, MysqlDatabase.user_id r = uid) t.1).

(** The subscription the JSON store holds for a user. *)
Definition fallback (uid : string) (s : State) : option Subscription :=
  Database.subscription <$> Database.getSubscription uid (jsonDB s).

(** The queue entry a write call adds when MySQL does not take it. *)
Definition queued (i : Invocation) : list Operation :=
  match call i with
  | CallAdd uid sub => [Add uid sub (at_time i)]
  | CallRemove uid => [Remove uid (at_time i)]
  | _ => []
  end.

(** No user has two records, in either store. *)
Definition stores_unique (s : State) : Prop :=
  Database.unique_users (jsonDB s) ∧ MysqlDatabase.unique_users (mysqlDB s).

(** The queued operations sent to MySQL in order, each taken. *)
Definition replay (now : Z) (queue : list Operation) (t : list MysqlDatabase.Row * N)
    : list MysqlDatabase.Row * N :=
  foldl (λ t op, apply_row_op now op t) t queue.

(** What a write asks for: the subscription its user should have. *)
Definition wanted (op : Operation) : option Subscription :=
  match op with
  | Add _ sub _ => Some sub
  | Remove _ _ => None
  end.

(** The subscription in what hybrid [getSubscription] returned. *)
Definition subscription_of (found : option (MysqlDatabase.Found + Entry))
    : option Subscription :=
  match found with
  | Some (inl mysqlResult) => Some (MysqlDatabase.found_subscription mysqlResult)
  | Some (inr jsonResult) => Some (Database.subscription jsonResult)
  | None => None
  end.

(** [getSystemStatus]: [mysql], [json], [syncQueue] and [lastCheck]. *)
Definition getSystemStatus (now : Z) (s : State) : bool * bool * nat * Z :=
  (isOnline s, true, length (syncQueue s), now).

(** What a call does to the JSON store. *)
Definition json_write (i : Invocation) (db : Database.Db) : Database.Db :=
  match call i with
  | CallAdd uid sub => (Database.addSubscription (at_time i) uid sub db).2
  | CallRemove uid => Database.removeSubscription uid db
  | _ => db
  end.

(** *** A run used in the examples *)

(** The subscription of [test-offline-support.js]. *)
Definition test_subscription : Subscription :=
  {| Database.endpoint := "https://test.com/push";
     Database.p256dh := "test_p256dh_key"; Database.auth := "test_auth_key" |}.

(** An [addSubscription] made while MySQL refuses connections. *)
Definition offline_add : Invocation :=
  {| call := CallAdd "u1" test_subscription; at_time := 1; outcomes := [false] |}.

(** An [addSubscription] whose connection test goes through and whose own
    connection is refused. *)
Definition refused_add : Invocation :=
  {| call := CallAdd "u1" test_subscription; at_time := 1;
     outcomes := [true; true; false] |}.

(** A first [addSubscription], MySQL answering. *)
Definition first_add : Invocation :=
  {| call := CallAdd "u1" test_subscription; at_time := 1; outcomes := [] |}.


(** A health check and a removal for another user, MySQL still away. *)
Definition offline_calls : list Invocation :=
  [{| call := CallHealthCheck; at_time := 2; outcomes := [false] |};
   {| call := CallRemove "u2"; at_time := 3; outcomes := [true; false] |}].

(** The health check that finds MySQL back. *)
Definition recovery_check : Invocation :=
  {| call := CallHealthCheck; at_time := 4; outcomes := [] |}.

End HybridDatabase.

(** ** lib/web-push-service.js: push notifications through the stored
    subscriptions *)

Module WebPushService.
Import Eff.
Import Database(Subscription).

(** An entry of [payload.actions]. *)
Record Action := { action : string; action_title : string }.

(** A value of [payload.data]: a text or a time stamp. *)
Inductive DataValue : Type :=
| Text (text : string)
| Flag (flag : bool)
| Time (millis : Z).

(** The [payload] the callers pass; every field may be missing. *)
Record Payload := {
  title : option string;
  message : option string;
  body : option string;
  icon : option string;
  badge : option string;
  url : option string;
  data : gmap string DataValue;
  actions : option (list Action)
}.

(** The object that is serialised and handed to [webpush]. *)
Record NotificationPayload := {
  n_title : string;
  n_body : option string;
  n_icon : string;
  n_badge : string;
  n_data : gmap string DataValue;
  n_actions : list Action
}.

(** [{ url: payload.url || '/', userId, timestamp, ...payload.data }]: the
    keys of [payload.data] win. *)
Definition notificationPayload (now : Z) (uid : string) (payload : Payload)
    : NotificationPayload :=
  {| n_title := Js.or_else (title payload) "Notification";
     n_body := Socket.or_opt (message payload) (body payload);
     n_icon := Js.or_else (icon payload) "/icon-192x192.png";
     n_badge := Js.or_else (badge payload) "/badge-72x72.png";
     n_data := data payload ∪
               <["url" := Text (Js.or_else (url payload) "/")]>
                 (<["userId" := Text uid]> {["timestamp" := Time now]});
     n_actions := default [{| action := "open"; action_title := "Open App" |};
                           {| action := "close"; action_title := "Close" |}]
                          (actions payload) |}.

(** What [webpush.sendNotification] does with a subscription and a
    payload: it resolves, or it rejects with an error that may carry a
    [statusCode]. *)
Inductive PushOutcome : Type :=
| Delivered
| Rejected (error_message : string) (statusCode : option Z).

Definition WebPush : Type := Subscription → NotificationPayload → PushOutcome.

(** What [sendPushNotification] returns:
    [{ success: false, error: 'No subscription found' }],
    [{ success: true, result, userId, message }] or
    [{ success: false, error, statusCode }]. *)
Inductive PushResult : Type :=
| NoSubscription
| PushSent (userId : string) (result_message : option string)
| PushFailed (error : string) (statusCode : option Z).

Definition success (r : PushResult) : bool :=
  match r with
  | PushSent _ _ => true
  | _ => false
  end.

(** [error.statusCode === 410 || error.statusCode === 404] *)
Definition subscription_gone (statusCode : option Z) : bool :=
  match statusCode with
  | Some code => (code =? 410)%Z || (code =? 404)%Z
  | None => false
  end.

(** The [catch] of [sendPushNotification]: an invalid subscription is
    removed from the database. *)
Definition on_error (now : Z) (uid : string) (error_message : string)
    (statusCode : option Z) : M HybridDatabase.State PushResult :=
  ((if subscription_gone statusCode
    then HybridDatabase.removeSubscription now uid
    else ret tt) ;;
   ret (PushFailed error_message statusCode))%eff.

(** [subscription.subscription], of a MySQL result or of a JSON record. *)
Definition stored (found : MysqlDatabase.Found + Database.Entry) : Subscription :=
  match found with
  | inl mysqlResult => MysqlDatabase.found_subscription mysqlResult
  | inr jsonResult => Database.subscription jsonResult
  end.

(** [sendPushNotification(userId, payload)]; an error of the database layer
    has no [statusCode]. *)
Definition sendPushNotification (now : Z) (webpush : WebPush) (uid : string)
    (payload : Payload) : M HybridDatabase.State PushResult :=
  λ s,
    match HybridDatabase.getSubscription now uid s with
    | (Throw e, s1) => on_error now uid e None s1
    | (Ok None, s1) => (Ok NoSubscription, s1)
    | (Ok (Some subscription), s1) =>
        match webpush (stored subscription) (notificationPayload now uid payload) with
        | Delivered =>
            (Ok (PushSent uid (Socket.or_opt (message payload) (body payload))), s1)
        | Rejected e statusCode => on_error now uid e statusCode s1
        end
    end.

(** The loop of [sendPushToMultipleUsers]:
    [results.push({ userId, ...result })]. *)
Fixpoint send_each (now : Z) (webpush : WebPush) (userIds : list string)
    (payload : Payload) : M HybridDatabase.State (list (string * PushResult)) :=
  match userIds with
  | [] => ret []
  | uid :: rest =>
      (let* result := sendPushNotification now webpush uid payload in
       let* results := send_each now webpush rest payload in
       ret ((uid, result) :: results))%eff
  end.

Record Summary := {
  total : nat;
  successful : nat;
  failed : nat;
  results : list (string * PushResult)
}.

(** [sendPushToMultipleUsers(userIds, payload)] *)
Definition sendPushToMultipleUsers (now : Z) (webpush : WebPush)
    (userIds : list string) (payload : Payload) : M HybridDatabase.State Summary :=
  (let* results := send_each now webpush userIds payload in
   ret {| total := length userIds;
          successful := length (filter (λ r, success r.2 = true) results);
          failed := length (filter (λ r, success r.2 ≠ true) results);
          results := results |})%eff.

(** [testPushNotification(userId)] *)
Definition testPushNotification (now : Z) (webpush : WebPush) (uid : string)
    : M HybridDatabase.State PushResult :=
  sendPushNotification now webpush uid
    {| title := Some "🧪 Test Notification";
       message := Some "This is a test push notification from your server!";
       body := None;
       icon := Some "/icon-192x192.png"; badge := None; url := None;
       data := <["test" := Flag true]> {["timestamp" := Time now]};
       actions := None |}.

(** A push service that has dropped every subscription. *)
Definition all_gone : WebPush := λ _ _, Rejected "Received unexpected response code" (Some 410).

(** A payload with a message and nothing else. *)
Definition plain (text : string) : Payload :=
  {| title := None; message := Some text; body := None; icon := None; badge := None;
     url := None; data := ∅; actions := None |}.

End WebPushService.

(** * Properties *)

(** ** Strings *)

Section StringFacts.

Lemma string_app_length (s t : string) :
  String.length (s +:+ t) = (String.length s + String.length t)%nat.
Proof.
  induction s as [|c s IH]; [reflexivity|].
  change (S (String.length (s +:+ t)) = S (String.length s + String.length t)).
  now rewrite IH.
Qed.

(** Appending the same suffix is injective. *)
Lemma string_app_inv_tail (s1 s2 t : string) :
  s1 +:+ t = s2 +:+ t → s1 = s2.
Proof.
  revert s2. induction s1 as [|c s1 IH]; intros [|d s2] H.
  - reflexivity.
  - apply (f_equal String.length) in H.
    rewrite !string_app_length in H. simpl in H. lia.
  - apply (f_equal String.length) in H.
    rewrite !string_app_length in H. simpl in H. lia.
  - change (String c (s1 +:+ t) = String d (s2 +:+ t)) in H.
    injection H as -> H. f_equal. now apply IH.
Qed.

Lemma number_toString_inj (a b : Z) : number_toString a = number_toString b → a = b.
Proof. unfold number_toString. apply pretty_Z_inj. Qed.

End StringFacts.

(** ** The duplicate cache *)

Section DedupFacts.
Import Socket.

Lemma admit_fresh (id : string) (now : Z) (sent : gmap string Z) :
  sent !! id = None → admitId id now sent = (true, <[id := now]> sent).
Proof. intros H. unfold admitId. now rewrite H. Qed.

Lemma admit_known (id : string) (now t0 : Z) (sent : gmap string Z) :
  sent !! id = Some t0 → admitId id now sent = (false, sent).
Proof. intros H. unfold admitId. now rewrite H. Qed.

Lemma cleanup_lookup_Some (id : string) (now t0 : Z) (sent : gmap string Z) :
  cleanup now sent !! id = Some t0 ↔ sent !! id = Some t0 ∧ (now - retention <= t0)%Z.
Proof.
  unfold cleanup. rewrite map_lookup_filter_Some. simpl. intuition lia.
Qed.

Lemma cleanup_keeps (id : string) (now t0 : Z) (sent : gmap string Z) :
  sent !! id = Some t0 → (now - t0 <= retention)%Z → cleanup now sent !! id = Some t0.
Proof. intros H Hle. apply cleanup_lookup_Some. split; [done | lia]. Qed.

Lemma cleanup_drops (id : string) (now t0 : Z) (sent : gmap string Z) :
  sent !! id = Some t0 → (retention < now - t0)%Z → cleanup now sent !! id = None.
Proof.
  intros H Hlt. destruct (cleanup now sent !! id) as [t|] eqn:E; [|done].
  apply cleanup_lookup_Some in E as [E ?]. rewrite H in E. injection E as <-. lia.
Qed.

(** Sweeps that all run within the retention window of an entry keep it. *)
Lemma cleanups_keep (id : string) (t0 : Z) (sweeps : list Z) (sent : gmap string Z) :
  sent !! id = Some t0 →
  Forall (λ now, (now - t0 <= retention)%Z) sweeps →
  foldl (λ c now, cleanup now c) sent sweeps !! id = Some t0.
Proof.
  intros H Hall. revert sent H.
  induction Hall as [|now sweeps Hnow _ IH]; intros sent H; simpl; [done|].
  apply IH. now apply cleanup_keeps.
Qed.

End DedupFacts.

Section DedupTheorems.
Import Socket.

Lemma cleanup_lookup_back (id : string) (now t : Z) (sent : gmap string Z) :
  cleanup now sent !! id = Some t → sent !! id = Some t.
Proof. intros H. now apply cleanup_lookup_Some in H. Qed.

Lemma cleanups_lookup_back (id : string) (t : Z) (sweeps : list Z) (sent : gmap string Z) :
  foldl (λ c now, cleanup now c) sent sweeps !! id = Some t → sent !! id = Some t.
Proof.
  revert sent. induction sweeps as [|now sweeps IH]; intros sent H; simpl in H; [done|].
  apply IH in H. now apply cleanup_lookup_back in H.
Qed.

(** C2 (as amended).  The first [admitId] of a fingerprint returns [true] and
    records it with the current time.  While the entry is in the cache,
    which it is as long as every sweep so far ran within the retention
    window of the entry, [admitId] returns [false], whatever the time of
    the call.  Once a sweep has run more than [retention] milliseconds
    after the entry was recorded, [admitId] returns [true] again and
    records the new time. *)
Theorem admit_retention (F : string) (t0 : Z) (sent : gmap string Z) :
  sent !! F = None →
  admitId F t0 sent = (true, <[F := t0]> sent) ∧
  (∀ (sweeps : list Z) (t1 : Z),
      Forall (λ now, (now - t0 <= retention)%Z) sweeps →
      admitId F t1 (foldl (λ c now, cleanup now c) (<[F := t0]> sent) sweeps)
      = (false, foldl (λ c now, cleanup now c) (<[F := t0]> sent) sweeps)) ∧
  (∀ (sweeps : list Z) (now t1 : Z),
      (retention < now - t0)%Z →
      (admitId F t1 (cleanup now (foldl (λ c s, cleanup s c) (<[F := t0]> sent) sweeps))).1
      = true).
Proof.
  intros Hfresh. split; [now apply admit_fresh|]. split.
  - intros sweeps t1 Hall. apply admit_known with (t0 := t0).
    apply cleanups_keep; [apply lookup_insert_eq | done].
  - intros sweeps now t1 Hlate.
    set (c := foldl _ _ sweeps).
    assert (cleanup now c !! F = None) as Hgone.
    { destruct (cleanup now c !! F) as [t|] eqn:E; [|done].
      apply cleanup_lookup_Some in E as [E Hin].
      apply cleanups_lookup_back in E. rewrite lookup_insert_eq in E.
      injection E as <-. lia. }
    now rewrite (admit_fresh _ _ _ Hgone).
Qed.

Lemma admit_retention_witness :
  admitId "evt" 0 ∅ = (true, <["evt" := 0%Z]> ∅) ∧
  (∀ (sweeps : list Z) (t1 : Z),
      Forall (λ now, (now - 0 <= retention)%Z) sweeps →
      admitId "evt" t1 (foldl (λ c now, cleanup now c) (<["evt" := 0%Z]> ∅) sweeps)
      = (false, foldl (λ c now, cleanup now c) (<["evt" := 0%Z]> ∅) sweeps)) ∧
  (∀ (sweeps : list Z) (now t1 : Z),
      (retention < now - 0)%Z →
      (admitId "evt" t1 (cleanup now (foldl (λ c s, cleanup s c) (<["evt" := 0%Z]> ∅) sweeps))).1
      = true).
Proof. apply (admit_retention "evt" 0 ∅). reflexivity. Defined.

(** C2 (as stated) fails: a fingerprint recorded at time 0 is still turned
    away at time 300500, after the window of 300000 ms has elapsed,
    because the last sweep ran at 299990 and the next one is not due. *)
Lemma admit_after_window_still_refused :
  (admitId "evt" 300500 (cleanup 299990 (admitId "evt" 0 ∅).2)).1 = false
  ∧ (retention < 300500 - 0)%Z.
Proof. split; [vm_compute; reflexivity | unfold retention; lia]. Qed.

(** C3 (as amended).  Every identifier embeds the clock reading in
    milliseconds: for a fixed target and message, two derivations agree
    exactly when they are made at the same clock reading. *)
Theorem identifier_embeds_clock (uid message : string) (t1 t2 : Z) :
  (notificationId uid t1 message = notificationId uid t2 message ↔ t1 = t2) ∧
  (serverNotificationId uid t1 message = serverNotificationId uid t2 message ↔ t1 = t2) ∧
  (broadcastId t1 message = broadcastId t2 message ↔ t1 = t2) ∧
  (serverBroadcastId t1 message = serverBroadcastId t2 message ↔ t1 = t2).
Proof.
  unfold notificationId, serverNotificationId, broadcastId, serverBroadcastId.
  repeat split; try (intros ->; reflexivity); intros H;
    repeat (apply String.app_inj in H);
    apply string_app_inv_tail in H; now apply number_toString_inj.
Qed.

(** C3 (as stated) fails: the same target and message, one millisecond
    apart, give two identifiers. *)
Lemma identifier_changes_with_time :
  notificationId "42" 1000 "hi" = "user-42-1000-hi" ∧
  notificationId "42" 1001 "hi" = "user-42-1001-hi" ∧
  String.eqb (notificationId "42" 1000 "hi") (notificationId "42" 1001 "hi") = false.
Proof. vm_compute. repeat split. Qed.

End DedupTheorems.

(** ** The server-side helpers *)

Section HelperTheorems.
Import Socket.

Lemma members_set_sent (room : string) (c : gmap string Z) (w : World) :
  members room (set_sent c w) = members room w.
Proof. reflexivity. Qed.

(** C9.  When the derived identifier is not in the cache, [sendToUser]
    records it and returns the notification whether or not a connection
    is in the target room: the value returned is the same for every live
    state, nothing is emitted when the room is empty, and the entry the
    undelivered call left makes a repeat of the call return [null]. *)
Theorem sendToUser_admits_before_resolving
    (w : World) (userId message : string) (type title : option string) (now : Z) :
  sentNotifications w !! serverNotificationId userId now message = None →
  let id := serverNotificationId userId now message in
  let notification :=
    {| n_id := id; n_message := message; n_type := default "info" type;
       n_title := title; n_timestamp := now; n_broadcast := false;
       n_from := "server-direct" |} in
  let out := sendToUser (Some w) userId message type title now in
  out.1.1 = Ok (Some notification) ∧
  out.2 = Some (set_sent (<[id := now]> (sentNotifications w)) w) ∧
  (members (userRoom userId) w = ∅ → out.1.2 = []) ∧
  (members (userRoom userId) w ≠ ∅ →
     out.1.2 = [emit (ToRoom (userRoom userId)) "notification" (NotificationMsg notification)]) ∧
  (sendToUser out.2 userId message type title now).1.1 = Ok None.
Proof.
  intros Hfresh id notification out. subst out. unfold sendToUser.
  fold id. rewrite (admit_fresh id now _ Hfresh). rewrite members_set_sent.
  assert (size (members (userRoom userId) w) = 0%nat ↔ members (userRoom userId) w = ∅)
    as Hsize by (rewrite size_empty_iff; apply leibniz_equiv_iff).
  destruct (0 <? size (members (userRoom userId) w))%nat eqn:E.
  - apply Nat.ltb_lt in E. repeat split; simpl.
    + intros Hempty. apply Hsize in Hempty. lia.
    + unfold admitId. simpl. now rewrite lookup_insert_eq.
  - apply Nat.ltb_ge in E. repeat split; simpl.
    + intros Hne. exfalso. apply Hne, Hsize. lia.
    + unfold admitId. simpl. now rewrite lookup_insert_eq.
Qed.

Lemma sendToUser_admits_before_resolving_witness :
  let out := sendToUser (Some initial) "42" "hi" None None 1000 in
  out.1.1 = Ok (Some {| n_id := "server-42-1000-hi"; n_message := "hi"; n_type := "info";
                        n_title := None; n_timestamp := 1000; n_broadcast := false;
                        n_from := "server-direct" |}) ∧
  out.1.2 = [] ∧
  (sendToUser out.2 "42" "hi" None None 1000).1.1 = Ok None.
Proof.
  pose proof (sendToUser_admits_before_resolving initial "42" "hi" None None 1000
                ltac:(reflexivity)) as (Hret & _ & Hquiet & _ & Hagain).
  split; [exact Hret|]. split; [apply Hquiet; reflexivity | exact Hagain].
Defined.

(** C10.  [getConnectionStats] returns in every state, and before
    [initSocket] its value is [{ connected: false, clientsCount: 0 }];
    in that state [getSocket], [sendToUser] and [broadcastToAll] throw
    'Socket.io not initialized'. *)
Theorem getConnectionStats_never_throws :
  (∀ (st : option World) (now : Z), ∃ stats, getConnectionStats st now = Ok stats) ∧
  (∀ now : Z, getConnectionStats None now = Ok (StatsDown false 0)) ∧
  getSocket None = Throw "Socket.io not initialized" ∧
  (∀ (userId message : string) (type title : option string) (now : Z),
      sendToUser None userId message type title now
      = (Throw "Socket.io not initialized", [], None)) ∧
  (∀ (message : string) (type title : option string) (now : Z),
      broadcastToAll None message type title now
      = (Throw "Socket.io not initialized", [], None)).
Proof.
  repeat split.
  intros [w|] now; eexists; reflexivity.
Qed.

End HelperTheorems.

(** ** The room registry *)

Section AdapterFacts.
Import Socket.

Implicit Types (r : gmap string (gset string)) (sid room : string).

Lemma elem_of_join sid room r sid' room' :
  sid' ∈ default ∅ (join sid room r !! room')
  ↔ (room' = room ∧ sid' = sid) ∨ sid' ∈ default ∅ (r !! room').
Proof.
  unfold join. destruct (decide (room = room')) as [->|Hne].
  - rewrite lookup_insert_eq. simpl. set_solver.
  - rewrite lookup_insert_ne by done. naive_solver.
Qed.

Lemma elem_of_leave sid room r sid' room' :
  sid' ∈ default ∅ (leave sid room r !! room')
  ↔ sid' ∈ default ∅ (r !! room') ∧ ¬ (room' = room ∧ sid' = sid).
Proof.
  unfold leave. destruct (r !! room) as [m|] eqn:Hm.
  - destruct (decide (m ∖ {[sid]} = ∅)) as [Hempty|Hrest].
    + destruct (decide (room = room')) as [->|Hne].
      * rewrite lookup_delete_eq, Hm. simpl. set_solver.
      * rewrite lookup_delete_ne by done. naive_solver.
    + destruct (decide (room = room')) as [->|Hne].
      * rewrite lookup_insert_eq, Hm. simpl. set_solver.
      * rewrite lookup_insert_ne by done. naive_solver.
  - destruct (decide (room = room')) as [->|Hne].
    + rewrite Hm. simpl. set_solver.
    + naive_solver.
Qed.

Lemma elem_of_leaveAll sid r sid' room' :
  sid' ∈ default ∅ (leaveAll sid r !! room')
  ↔ sid' ∈ default ∅ (r !! room') ∧ sid' ≠ sid.
Proof.
  unfold leaveAll. rewrite lookup_omap.
  destruct (r !! room') as [m|]; simpl; [|set_solver].
  destruct (decide (sid ∈ m)) as [Hin|Hout]; simpl.
  - destruct (decide (m ∖ {[sid]} = ∅)) as [Hempty|Hrest]; simpl; set_solver.
  - set_solver.
Qed.

Lemma userRoom_inj (u1 u2 : string) : userRoom u1 = userRoom u2 → u1 = u2.
Proof. unfold userRoom. apply String.app_inj. Qed.

Lemma companyRoom_inj (c1 c2 : string) : companyRoom c1 = companyRoom c2 → c1 = c2.
Proof. unfold companyRoom. apply String.app_inj. Qed.

Lemma waiterRoom_inj (c1 c2 : string) : waiterRoom c1 = waiterRoom c2 → c1 = c2.
Proof. unfold waiterRoom. apply String.app_inj. Qed.

Lemma userRoom_not_company (u c : string) : userRoom u ≠ companyRoom c.
Proof. discriminate. Qed.

Lemma userRoom_not_waiter (u c : string) : userRoom u ≠ waiterRoom c.
Proof. discriminate. Qed.

Lemma userRoom_not_waiters (u : string) : userRoom u ≠ "waiters".
Proof. discriminate. Qed.

Lemma waiterRoom_not_waiters (c : string) : waiterRoom c ≠ "waiters".
Proof. discriminate. Qed.

Lemma truthy_val_Some (v : option string) (s : string) :
  truthy_val v = Some s ↔ v = Some s ∧ s ≠ "".
Proof.
  unfold truthy_val. destruct v as [x|]; [|naive_solver].
  destruct (String.eqb_spec x ""); naive_solver.
Qed.

Lemma truthy_val_None (v : option string) :
  truthy_val v = None ↔ v = None ∨ v = Some "".
Proof.
  unfold truthy_val. destruct v as [x|]; [|naive_solver].
  destruct (String.eqb_spec x ""); naive_solver.
Qed.

End AdapterFacts.

Section RegistryInvariant.
Import Socket.

Lemma registry_inv_initial : registry_inv initial.
Proof.
  split.
  - intros sid sk u H. change (sockets initial) with (∅ : gmap string SocketData) in H.
    now rewrite lookup_empty in H.
  - intros sid u. unfold members.
    change (rooms initial) with (∅ : gmap string (gset string)).
    change (sockets initial) with (∅ : gmap string SocketData).
    rewrite lookup_empty. simpl.
    split; [set_solver|]. intros (sk & H & _). now rewrite lookup_empty in H.
Qed.

(** The rooms of a connection after [join-user-room] went through. *)
Lemma join_user_room_members (sid : string) (sk : SocketData) (uid : string)
    (now : Z) (w : World) (sid' room' : string) :
  uid ≠ "" →
  sid' ∈ members room' (join_user_room sid sk (Some uid) now w).2
  ↔ (room' = userRoom uid ∧ sid' = sid)
    ∨ (sid' ∈ members room' w
       ∧ ¬ (∃ old, truthy_val (s_userId sk) = Some old
                   ∧ room' = userRoom old ∧ sid' = sid)).
Proof.
  intros Huid. unfold join_user_room.
  assert (truthy_val (Some uid) = Some uid) as -> by (apply truthy_val_Some; done).
  destruct (truthy_val (s_userId sk)) as [old|] eqn:Hold;
    unfold members; simpl; rewrite elem_of_join.
  - rewrite elem_of_leave. naive_solver.
  - naive_solver.
Qed.

Lemma join_user_room_sockets (sid : string) (sk : SocketData) (uid : string)
    (now : Z) (w : World) :
  uid ≠ "" →
  sockets (join_user_room sid sk (Some uid) now w).2
  = <[sid := {| s_userId := Some uid; s_companyId := s_companyId sk |}]> (sockets w).
Proof.
  intros Huid. unfold join_user_room.
  assert (truthy_val (Some uid) = Some uid) as -> by (apply truthy_val_Some; done).
  destruct (truthy_val (s_userId sk)); reflexivity.
Qed.

Lemma join_user_room_userSockets (sid : string) (sk : SocketData) (uid : string)
    (now : Z) (w : World) :
  uid ≠ "" →
  userSockets (join_user_room sid sk (Some uid) now w).2
  = <[uid := sid]>
      (match truthy_val (s_userId sk) with
       | Some old => delete old (userSockets w)
       | None => userSockets w
       end).
Proof.
  intros Huid. unfold join_user_room.
  assert (truthy_val (Some uid) = Some uid) as -> by (apply truthy_val_Some; done).
  destruct (truthy_val (s_userId sk)); reflexivity.
Qed.

Lemma join_user_room_rejected (sid : string) (sk : SocketData) (userId : option string)
    (now : Z) (w : World) :
  truthy_val userId = None →
  join_user_room sid sk userId now w
  = (Ok [emit (ToSocket sid) "join-error" (JoinError "User ID is required")], w).
Proof. intros H. unfold join_user_room. now rewrite H. Qed.

Lemma join_user_room_inv (sid : string) (sk : SocketData) (userId : option string)
    (now : Z) (w : World) :
  sockets w !! sid = Some sk →
  registry_inv w → registry_inv (join_user_room sid sk userId now w).2.
Proof.
  intros Hsk [Htruthy Hrooms].
  destruct (truthy_val userId) as [uid|] eqn:Huid.
  2:{ rewrite join_user_room_rejected by done. now split. }
  apply truthy_val_Some in Huid as [-> Huid]. split.
  - intros sid' sk' u. rewrite join_user_room_sockets by done.
    destruct (decide (sid = sid')) as [<-|Hne].
    + rewrite lookup_insert_eq. intros [= <-]. simpl. now intros [= <-].
    + rewrite lookup_insert_ne by done. apply Htruthy.
  - intros sid' u. rewrite join_user_room_members, join_user_room_sockets by done.
    rewrite Hrooms. destruct (decide (sid = sid')) as [<-|Hne].
    + rewrite lookup_insert_eq. split.
      * intros [[Heq _]|[(sk' & Hsk' & Hu) Hnot]].
        -- apply userRoom_inj in Heq as ->. eauto.
        -- exfalso. apply Hnot. exists u. rewrite Hsk in Hsk'. injection Hsk' as <-.
           split; [|done]. apply truthy_val_Some. split; [done|]. eapply Htruthy; eauto.
      * intros (sk' & [= <-] & Hu). simpl in Hu. injection Hu as <-. now left.
    + rewrite lookup_insert_ne by done. split.
      * intros [[_ ->]|[H _]]; [done | exact H].
      * intros H. right. split; [exact H|]. intros (old & _ & _ & ->). done.
Qed.


(** A handler that leaves the user ids of the sockets and the user rooms
    as they are keeps the invariant. *)
Lemma registry_inv_transfer (w w' : World) :
  (∀ sid u, (∃ sk, sockets w' !! sid = Some sk ∧ s_userId sk = Some u)
            ↔ (∃ sk, sockets w !! sid = Some sk ∧ s_userId sk = Some u)) →
  (∀ sid u, sid ∈ members (userRoom u) w' ↔ sid ∈ members (userRoom u) w) →
  registry_inv w → registry_inv w'.
Proof.
  intros Hsk Hrm [Htruthy Hrooms]. split.
  - intros sid sk u H1 H2.
    destruct (proj1 (Hsk sid u)) as (sk0 & H3 & H4); [eauto|].
    eapply Htruthy; eauto.
  - intros sid u. rewrite Hrm, Hrooms, Hsk. done.
Qed.

Lemma join_company_room_members (sid : string) (sk : SocketData) (uid cid : string)
    (now : Z) (w : World) (sid' room' : string) :
  uid ≠ "" → cid ≠ "" →
  sid' ∈ members room'
    (join_company_room sid sk (Some {| cj_userId := Some uid; cj_companyId := Some cid |})
       now w).2
  ↔ (room' = companyRoom cid ∧ sid' = sid)
    ∨ (sid' ∈ members room' w
       ∧ ¬ (∃ old, truthy_val (s_companyId sk) = Some old
                   ∧ room' = companyRoom old ∧ sid' = sid)).
Proof.
  intros Huid Hcid. unfold join_company_room. cbn [cj_userId cj_companyId].
  assert (truthy_val (Some uid) = Some uid) as -> by (apply truthy_val_Some; done).
  assert (truthy_val (Some cid) = Some cid) as -> by (apply truthy_val_Some; done).
  destruct (truthy_val (s_companyId sk)) as [old|] eqn:Hold;
    unfold members; simpl; rewrite elem_of_join.
  - rewrite elem_of_leave. naive_solver.
  - naive_solver.
Qed.

Lemma join_company_room_sockets (sid : string) (sk : SocketData) (uid cid : string)
    (now : Z) (w : World) :
  uid ≠ "" → cid ≠ "" →
  sockets (join_company_room sid sk
             (Some {| cj_userId := Some uid; cj_companyId := Some cid |}) now w).2
  = <[sid := {| s_userId := s_userId sk; s_companyId := Some cid |}]> (sockets w).
Proof.
  intros Huid Hcid. unfold join_company_room. cbn [cj_userId cj_companyId].
  assert (truthy_val (Some uid) = Some uid) as -> by (apply truthy_val_Some; done).
  assert (truthy_val (Some cid) = Some cid) as -> by (apply truthy_val_Some; done).
  destruct (truthy_val (s_companyId sk)); reflexivity.
Qed.

Lemma join_company_room_rejected (sid : string) (sk : SocketData) (d : CompanyJoin)
    (now : Z) (w : World) :
  truthy_val (cj_userId d) = None ∨ truthy_val (cj_companyId d) = None →
  join_company_room sid sk (Some d) now w
  = (Ok [emit (ToSocket sid) "join-error"
           (JoinError "User ID and Company ID are required")], w).
Proof.
  intros H. unfold join_company_room.
  destruct (truthy_val (cj_userId d)), (truthy_val (cj_companyId d)); naive_solver.
Qed.

Lemma join_company_room_inv (sid : string) (sk : SocketData) (data : option CompanyJoin)
    (now : Z) (w : World) :
  sockets w !! sid = Some sk →
  registry_inv w → registry_inv (join_company_room sid sk data now w).2.
Proof.
  intros Hsk Hinv. destruct data as [[ouid ocid]|]; [|exact Hinv].
  destruct (truthy_val ouid) as [uid|] eqn:Huid.
  2:{ rewrite join_company_room_rejected by (simpl; auto). exact Hinv. }
  destruct (truthy_val ocid) as [cid|] eqn:Hcid.
  2:{ rewrite join_company_room_rejected by (simpl; auto). exact Hinv. }
  apply truthy_val_Some in Huid as [-> Huid]. apply truthy_val_Some in Hcid as [-> Hcid].
  revert Hinv. apply registry_inv_transfer.
  - intros sid' u. rewrite join_company_room_sockets by done.
    destruct (decide (sid = sid')) as [<-|Hne].
    + rewrite lookup_insert_eq. naive_solver.
    + rewrite lookup_insert_ne by done. done.
  - intros sid' u. rewrite join_company_room_members by done.
    pose proof (userRoom_not_company u). naive_solver.
Qed.

Lemma join_waiter_room_members (sid : string) (companyId : option string) (w : World)
    (sid' room' : string) :
  sid' ∈ members room' (join_waiter_room sid companyId w).2
  ↔ (room' = "waiters" ∧ sid' = sid)
    ∨ (∃ cid, truthy_val companyId = Some cid ∧ room' = waiterRoom cid ∧ sid' = sid)
    ∨ sid' ∈ members room' w.
Proof.
  unfold join_waiter_room.
  destruct (truthy_val companyId) as [cid|]; unfold members; simpl; rewrite elem_of_join.
  - rewrite elem_of_join. naive_solver.
  - naive_solver.
Qed.

Lemma join_waiter_room_sockets (sid : string) (companyId : option string) (w : World) :
  sockets (join_waiter_room sid companyId w).2 = sockets w.
Proof. unfold join_waiter_room. destruct (truthy_val companyId); reflexivity. Qed.

Lemma join_waiter_room_inv (sid : string) (companyId : option string) (w : World) :
  registry_inv w → registry_inv (join_waiter_room sid companyId w).2.
Proof.
  apply registry_inv_transfer.
  - intros sid' u. now rewrite join_waiter_room_sockets.
  - intros sid' u. rewrite join_waiter_room_members.
    pose proof (userRoom_not_waiters u). pose proof (userRoom_not_waiter u).
    naive_solver.
Qed.

(** [send-notification] only touches the duplicate cache. *)
Lemma send_notification_registry (sid : string) (sk : SocketData) (data : option SendData)
    (now : Z) (w : World) :
  let w' := (send_notification sid sk data now w).2 in
  sockets w' = sockets w ∧ rooms w' = rooms w ∧ userSockets w' = userSockets w.
Proof.
  unfold send_notification. destruct data as [d|]; [|done].
  destruct (truthy_val (sd_targetUserId d)); [|done].
  destruct (truthy_val (sd_message d)); [|done].
  destruct (admitId _ _ _) as [[|] sent]; [|done].
  destruct (0 <? _)%nat; done.
Qed.

Lemma send_notification_inv (sid : string) (sk : SocketData) (data : option SendData)
    (now : Z) (w : World) :
  registry_inv w → registry_inv (send_notification sid sk data now w).2.
Proof.
  destruct (send_notification_registry sid sk data now w) as (Hs & Hr & _).
  apply registry_inv_transfer.
  - intros sid' u. now rewrite Hs.
  - intros sid' u. unfold members. now rewrite Hr.
Qed.

(** So does [broadcast-notification]. *)
Lemma broadcast_notification_registry (sid : string) (sk : SocketData)
    (data : option BroadcastData) (now : Z) (w : World) :
  let w' := (broadcast_notification sid sk data now w).2 in
  sockets w' = sockets w ∧ rooms w' = rooms w ∧ userSockets w' = userSockets w.
Proof.
  unfold broadcast_notification. destruct data as [d|]; [|done].
  destruct (truthy_val (bd_message d)); [|done].
  destruct (admitId _ _ _) as [[|] sent]; done.
Qed.

Lemma broadcast_notification_inv (sid : string) (sk : SocketData)
    (data : option BroadcastData) (now : Z) (w : World) :
  registry_inv w → registry_inv (broadcast_notification sid sk data now w).2.
Proof.
  destruct (broadcast_notification_registry sid sk data now w) as (Hs & Hr & _).
  apply registry_inv_transfer.
  - intros sid' u. now rewrite Hs.
  - intros sid' u. unfold members. now rewrite Hr.
Qed.

Lemma disconnect_inv (sid : string) (sk : SocketData) (w : World) :
  sockets w !! sid = Some sk →
  registry_inv w → registry_inv (disconnect sid sk w).2.
Proof.
  intros Hsk [Htruthy Hrooms]. unfold disconnect.
  destruct (truthy_val (s_userId sk)); split; simpl.
  all: try (intros sid' sk' u; destruct (decide (sid = sid')) as [<-|Hne];
            [rewrite lookup_delete_eq; done | rewrite lookup_delete_ne by done; apply Htruthy]).
  all: intros sid' u; unfold members; simpl; rewrite elem_of_leaveAll;
    fold (members (userRoom u) w); rewrite Hrooms;
    destruct (decide (sid = sid')) as [<-|Hne];
    [rewrite lookup_delete_eq; naive_solver | rewrite lookup_delete_ne by done; naive_solver].
Qed.

Lemma connection_inv (sid : string) (w : World) :
  registry_inv w → registry_inv (connection sid w).2.
Proof.
  intros Hinv. unfold connection. destruct (sockets w !! sid) as [sk|] eqn:Hsk; [done|].
  revert Hinv. apply registry_inv_transfer; [|done].
  intros sid' u. simpl. destruct (decide (sid = sid')) as [<-|Hne].
  - rewrite lookup_insert_eq, Hsk. naive_solver.
  - rewrite lookup_insert_ne by done. done.
Qed.

Lemma on_inv (sid : string) (ev : ClientEvent) (now : Z) (w : World) :
  registry_inv w → registry_inv (on sid ev now w).2.
Proof.
  intros Hinv. destruct ev; simpl; [now apply connection_inv|..];
    destruct (sockets w !! sid) as [sk|] eqn:Hsk; try exact Hinv.
  - now apply join_user_room_inv.
  - now apply join_company_room_inv.
  - now apply join_waiter_room_inv.
  - now apply send_notification_inv.
  - now apply broadcast_notification_inv.
  - now apply disconnect_inv.
Qed.

Lemma step_inv (w : World) (s : Step) : registry_inv w → registry_inv (step w s).
Proof.
  destruct s as [sid ev now|now|idle]; simpl; [apply on_inv|..];
    apply registry_inv_transfer; done.
Qed.

Lemma run_inv (steps : list Step) (w : World) :
  registry_inv w → registry_inv (run steps w).
Proof.
  revert w. induction steps as [|s steps IH]; intros w Hinv; [exact Hinv|].
  apply IH. now apply step_inv.
Qed.

End RegistryInvariant.

Section RegistryTheorems.
Import Socket.

(** C6.  In every state the server reaches, a connection is in the room of
    at most one user.  A [join-user-room] with a truthy id on a connected
    socket leaves the connection in the room of that user and of no other,
    maps the user to the socket in [userSockets], and takes the connection
    out of the room it was in before, together with that user's entry of
    [userSockets]. *)
Theorem one_user_scope_per_connection (steps : list Step) (sid : string) :
  let w := run steps initial in
  (∀ u1 u2, sid ∈ members (userRoom u1) w → sid ∈ members (userRoom u2) w → u1 = u2) ∧
  (∀ (uid : string) (now : Z),
      uid ≠ "" → is_Some (sockets w !! sid) →
      let w' := (on sid (JoinUserRoom (Some uid)) now w).2 in
      (∀ u, sid ∈ members (userRoom u) w' ↔ u = uid) ∧
      userSockets w' !! uid = Some sid ∧
      (∀ old, sid ∈ members (userRoom old) w → old ≠ uid →
              (sid ∉ members (userRoom old) w') ∧ userSockets w' !! old = None)).
Proof.
  intros w.
  assert (registry_inv w) as Hinv by (apply run_inv, registry_inv_initial).
  split.
  - destruct Hinv as [_ Hrooms]. intros u1 u2 H1 H2.
    apply Hrooms in H1 as (sk1 & Hs1 & Hu1). apply Hrooms in H2 as (sk2 & Hs2 & Hu2).
    congruence.
  - intros uid now Huid [sk Hsk] w'.
    assert (registry_inv w') as [_ Hrooms'].
    { subst w'. now apply on_inv. }
    subst w'. cbn [on] in *. rewrite Hsk in *.
    split; [|split].
    + intros u. rewrite Hrooms', join_user_room_sockets, lookup_insert_eq by done.
      naive_solver.
    + rewrite join_user_room_userSockets by done. apply lookup_insert_eq.
    + intros old Hold Hne. split.
      * rewrite Hrooms', join_user_room_sockets, lookup_insert_eq by done.
        naive_solver.
      * destruct Hinv as [Htruthy Hrooms].
        apply Hrooms in Hold as (sk' & Hsk' & Hu). rewrite Hsk in Hsk'.
        injection Hsk' as <-.
        assert (truthy_val (s_userId sk) = Some old) as Ht.
        { apply truthy_val_Some. split; [done|]. eapply Htruthy; eauto. }
        rewrite join_user_room_userSockets, Ht by done.
        rewrite lookup_insert_ne by done. apply lookup_delete_eq.
Qed.

(** C7 (as amended).  A connection holds one company room at a time:
    joining company [b] after company [a] leaves the room of [a].  Waiter
    rooms add up: after joining the waiter rooms of [a] and of [b] the
    connection is in both, and in the global room [waiters]. *)
Theorem company_room_replaced_waiter_rooms_kept
    (w : World) (sid : string) (sk : SocketData) (u1 u2 a b : string) (now1 now2 : Z) :
  sockets w !! sid = Some sk →
  u1 ≠ "" → u2 ≠ "" → a ≠ "" → b ≠ "" → a ≠ b →
  let wc :=
    run [Client sid (JoinCompanyRoom
                       (Some {| cj_userId := Some u1; cj_companyId := Some a |})) now1;
         Client sid (JoinCompanyRoom
                       (Some {| cj_userId := Some u2; cj_companyId := Some b |})) now2] w in
  let ww :=
    run [Client sid (JoinWaiterRoom (Some a)) now1;
         Client sid (JoinWaiterRoom (Some b)) now2] w in
  sid ∈ members (companyRoom b) wc ∧ (sid ∉ members (companyRoom a) wc) ∧
  sid ∈ members (waiterRoom a) ww ∧ sid ∈ members (waiterRoom b) ww ∧
  sid ∈ members "waiters" ww.
Proof.
  intros Hsk Hu1 Hu2 Ha Hb Hab wc ww. subst wc ww. unfold run. cbn [foldl step on].
  rewrite Hsk. rewrite join_company_room_sockets, lookup_insert_eq by done.
  rewrite join_waiter_room_sockets, Hsk.
  rewrite !join_company_room_members by done.
  rewrite !join_waiter_room_members.
  assert (truthy_val (Some a) = Some a) as Hta by (apply truthy_val_Some; done).
  assert (truthy_val (Some b) = Some b) as Htb by (apply truthy_val_Some; done).
  cbn [s_companyId]. rewrite Hta, Htb.
  split; [naive_solver|]. split.
  - intros [[Heq _]|[_ Hnot]].
    + apply companyRoom_inj in Heq. done.
    + apply Hnot. exists a. done.
  - split; [|split]; naive_solver.
Qed.

(** C8 (as amended).  A [join-user-room] without a user id, and a
    [join-company-room] whose payload lacks the user id or the company id,
    are answered with [join-error] and leave the state as it was.  A
    [join-waiter-room] without a company id is not turned away: the
    connection joins the global room [waiters] and is told
    [joined-waiter-room] with [success: true]. *)
Theorem join_without_identifier (w : World) (sid : string) (sk : SocketData) (now : Z) :
  (∀ userId : option string,
      userId = None ∨ userId = Some "" →
      join_user_room sid sk userId now w
      = (Ok [emit (ToSocket sid) "join-error" (JoinError "User ID is required")], w)) ∧
  (∀ d : CompanyJoin,
      (cj_userId d = None ∨ cj_userId d = Some "") ∨
      (cj_companyId d = None ∨ cj_companyId d = Some "") →
      join_company_room sid sk (Some d) now w
      = (Ok [emit (ToSocket sid) "join-error"
               (JoinError "User ID and Company ID are required")], w)) ∧
  (∀ companyId : option string,
      companyId = None ∨ companyId = Some "" →
      join_waiter_room sid companyId w
      = (Ok [emit (ToSocket sid) "joined-waiter-room" (JoinedWaiterRoom true companyId)],
         set_rooms (join sid "waiters" (rooms w)) w)
      ∧ sid ∈ members "waiters" (join_waiter_room sid companyId w).2).
Proof.
  split; [|split].
  - intros userId H. apply join_user_room_rejected. now apply truthy_val_None.
  - intros d H. apply join_company_room_rejected. rewrite !truthy_val_None. exact H.
  - intros companyId H. apply truthy_val_None in H. split.
    + unfold join_waiter_room. now rewrite H.
    + rewrite join_waiter_room_members. now left.
Qed.

End RegistryTheorems.

Section RegistryExamples.
Import Socket.

Lemma one_user_scope_per_connection_witness :
  is_Some (sockets joined_client !! "s1") ∧
  "s1" ∈ members (userRoom "42") joined_client ∧
  (∀ u, "s1" ∈ members (userRoom u)
                 (on "s1" (JoinUserRoom (Some "43")) 2 joined_client).2 ↔ u = "43") ∧
  userSockets (on "s1" (JoinUserRoom (Some "43")) 2 joined_client).2 !! "43" = Some "s1" ∧
  ("s1" ∉ members (userRoom "42") (on "s1" (JoinUserRoom (Some "43")) 2 joined_client).2) ∧
  userSockets (on "s1" (JoinUserRoom (Some "43")) 2 joined_client).2 !! "42" = None.
Proof.
  assert (is_Some (sockets joined_client !! "s1")) as Hconnected
    by (vm_compute; eauto).
  assert ("s1" ∈ members (userRoom "42") joined_client) as Hin
    by (vm_compute; set_solver).
  pose proof (one_user_scope_per_connection
                [Client "s1" Connection 0; Client "s1" (JoinUserRoom (Some "42")) 1]
                "s1") as H.
  cbv zeta in H. destruct H as [_ H].
  destruct (H "43" 2%Z ltac:(discriminate) Hconnected) as (Hrooms & Hmap & Hold).
  destruct (Hold "42" Hin ltac:(discriminate)) as [Hleft Hgone].
  split; [exact Hconnected|]. split; [exact Hin|]. split; [exact Hrooms|].
  split; [exact Hmap|]. split; [exact Hleft | exact Hgone].
Defined.

Lemma company_room_replaced_waiter_rooms_kept_witness :
  let w := one_client in
  let wc :=
    run [Client "s1" (JoinCompanyRoom
                        (Some {| cj_userId := Some "u1"; cj_companyId := Some "A" |})) 1;
         Client "s1" (JoinCompanyRoom
                        (Some {| cj_userId := Some "u1"; cj_companyId := Some "B" |})) 2] w in
  let ww :=
    run [Client "s1" (JoinWaiterRoom (Some "A")) 1;
         Client "s1" (JoinWaiterRoom (Some "B")) 2] w in
  "s1" ∈ members (companyRoom "B") wc ∧ ("s1" ∉ members (companyRoom "A") wc) ∧
  "s1" ∈ members (waiterRoom "A") ww ∧ "s1" ∈ members (waiterRoom "B") ww ∧
  "s1" ∈ members "waiters" ww.
Proof.
  apply (company_room_replaced_waiter_rooms_kept one_client "s1"
           {| s_userId := None; s_companyId := None |} "u1" "u1" "A" "B" 1 2);
    [reflexivity | discriminate..].
Defined.

(** C7 (as stated) fails: a connection that joins the room of company A
    and then the room of company B is no longer in the room of A. *)
Lemma second_company_evicts_first :
  let wc :=
    run [Client "s1" (JoinCompanyRoom
                        (Some {| cj_userId := Some "u1"; cj_companyId := Some "A" |})) 1;
         Client "s1" (JoinCompanyRoom
                        (Some {| cj_userId := Some "u1"; cj_companyId := Some "B" |})) 2]
      one_client in
  bool_decide ("s1" ∈ members (companyRoom "A") wc) = false ∧
  bool_decide ("s1" ∈ members (companyRoom "B") wc) = true.
Proof. vm_compute. split; reflexivity. Qed.

(** C8 (as stated) fails: [join-waiter-room] without a company id is
    answered with a success event, and the connection, in no room before,
    is in the room [waiters] afterwards. *)
Lemma waiter_join_without_id_goes_through :
  let out := on "s1" (JoinWaiterRoom None) 1 one_client in
  out.1 = Ok [emit (ToSocket "s1") "joined-waiter-room" (JoinedWaiterRoom true None)] ∧
  forallb (λ e, negb (is_error e))
    [emit (ToSocket "s1") "joined-waiter-room" (JoinedWaiterRoom true None)] = true ∧
  bool_decide ("s1" ∈ members "waiters" one_client) = false ∧
  bool_decide ("s1" ∈ members "waiters" out.2) = true.
Proof. vm_compute. repeat split. Qed.

End RegistryExamples.

(** ** Delivery to a user nobody is connected for *)

Section ZeroMembers.
Import Socket Server.

(** C1 (as amended).  When no connection is in the room of the target user:
    the HTTP endpoint answers 200 with [success: true] and reports the
    number of all connected clients, the event it sends reaching nobody;
    the [send-notification] handler, for an identifier not in the cache,
    records the identifier and answers the sender with
    [notification-error], 'Target user not connected'. *)
Theorem delivery_to_empty_user_room
    (w : World) (sid : string) (sk : SocketData) (target message : string)
    (type title : option string) (now : Z) :
  members (userRoom target) w = ∅ → target ≠ "" → message ≠ "" →
  let apiNotification :=
    {| a_message := message; a_type := default "info" type;
       a_timestamp := now; a_id := now; a_from := "api" |} in
  let id := notificationId target now message in
  api_notifications_send "POST"
    (Ok {| b_userId := Some target; b_message := Some message; b_type := type |}) now w
  = ({| status := 200;
        body := NotificationAccepted true "Notification sent" target apiNotification
                  (clientsCount w) |},
     [emit (ToRoom (userRoom target)) "notification" (ApiNotificationMsg apiNotification)]) ∧
  recipients (ToRoom (userRoom target)) w = ∅ ∧
  (sentNotifications w !! id = None →
   send_notification sid sk
     (Some {| sd_targetUserId := Some target; sd_message := Some message;
              sd_type := type; sd_title := title |}) now w
   = (Ok [emit (ToSocket sid) "notification-error"
            (NotificationError "Target user not connected" None (Some target) now)],
      set_sent (<[id := now]> (sentNotifications w)) w)).
Proof.
  intros Hempty Htarget Hmessage apiNotification id.
  assert (truthy_val (Some target) = Some target) as Ht by (apply truthy_val_Some; done).
  assert (truthy_val (Some message) = Some message) as Hm by (apply truthy_val_Some; done).
  split; [|split].
  - unfold api_notifications_send. cbn [String.eqb negb b_userId b_message b_type].
    change (String.eqb "POST" "POST") with true. cbn [negb].
    now rewrite Ht, Hm.
  - exact Hempty.
  - intros Hfresh. unfold send_notification.
    cbn [sd_targetUserId sd_message sd_type sd_title]. rewrite Ht, Hm.
    fold id. rewrite (admit_fresh id now _ Hfresh).
    rewrite members_set_sent, Hempty. reflexivity.
Qed.

Lemma delivery_to_empty_user_room_witness :
  api_notifications_send "POST"
    (Ok {| b_userId := Some "42"; b_message := Some "hi"; b_type := None |}) 1000 one_client
  = ({| status := 200;
        body := NotificationAccepted true "Notification sent" "42"
                  {| a_message := "hi"; a_type := "info";
                     a_timestamp := 1000; a_id := 1000; a_from := "api" |}
                  (clientsCount one_client) |},
     [emit (ToRoom (userRoom "42")) "notification"
        (ApiNotificationMsg {| a_message := "hi"; a_type := "info";
                               a_timestamp := 1000; a_id := 1000; a_from := "api" |})]) ∧
  recipients (ToRoom (userRoom "42")) one_client = ∅ ∧
  send_notification "s1" {| s_userId := None; s_companyId := None |}
    (Some {| sd_targetUserId := Some "42"; sd_message := Some "hi";
             sd_type := None; sd_title := None |}) 1000 one_client
  = (Ok [emit (ToSocket "s1") "notification-error"
           (NotificationError "Target user not connected" None (Some "42") 1000)],
     set_sent (<[notificationId "42" 1000 "hi" := 1000]> (sentNotifications one_client))
       one_client).
Proof.
  pose proof (delivery_to_empty_user_room one_client "s1"
                {| s_userId := None; s_companyId := None |} "42" "hi" None None 1000
                ltac:(reflexivity) ltac:(discriminate) ltac:(discriminate))
    as (Hapi & Hnobody & Hsocket).
  split; [exact Hapi|]. split; [exact Hnobody|]. apply Hsocket. reflexivity.
Defined.

(** C1 (as stated) fails.  One client is connected and nobody is in the
    room of user 42.  A [send-notification] for user 42 is answered with an
    error event and with no event that reports a delivery; the HTTP
    endpoint does answer with success, and the count in its answer is 1. *)
Lemma empty_room_is_reported_as_error :
  let out := on "s1" (SendNotification
                        (Some {| sd_targetUserId := Some "42"; sd_message := Some "hi";
                                 sd_type := None; sd_title := None |})) 1000 one_client in
  let reply := [emit (ToSocket "s1") "notification-error"
                  (NotificationError "Target user not connected" None (Some "42") 1000)] in
  size (members (userRoom "42") one_client) = 0%nat ∧
  out.1 = Ok reply ∧
  existsb is_error reply = true ∧
  existsb (reports_delivery 0) reply = false ∧
  body (api_notifications_send "POST"
          (Ok {| b_userId := Some "42"; b_message := Some "hi"; b_type := None |})
          1000 one_client).1
  = NotificationAccepted true "Notification sent" "42"
      {| a_message := "hi"; a_type := "info"; a_timestamp := 1000; a_id := 1000;
         a_from := "api" |} 1.
Proof. vm_compute. repeat split. Qed.

End ZeroMembers.

(** ** The persistence layer *)

Section EffFacts.
Import Eff.

Context {S : Type} (P : S → Prop).

Lemma preserves_ret {A} (a : A) : preserves P (ret a).
Proof. intros s H. exact H. Qed.

Lemma preserves_throw {A} (e : string) : preserves P (throw (A := A) e).
Proof. intros s H. exact H. Qed.

Lemma preserves_gets {A} (f : S → A) : preserves P (gets f).
Proof. intros s H. exact H. Qed.

Lemma preserves_modify (f : S → S) : (∀ s, P s → P (f s)) → preserves P (modify f).
Proof. intros Hf s H. now apply Hf. Qed.

Lemma preserves_bind {A B} (m : M S A) (k : A → M S B) :
  preserves P m → (∀ a, preserves P (k a)) → preserves P (bind m k).
Proof.
  intros Hm Hk s H. unfold bind. specialize (Hm s H).
  destruct (m s) as [[a|e] s']; simpl in *; [now apply Hk | exact Hm].
Qed.

Lemma preserves_try_catch {A} (m : M S A) (h : string → M S A) :
  preserves P m → (∀ e, preserves P (h e)) → preserves P (try_catch m h).
Proof.
  intros Hm Hh s H. unfold try_catch. specialize (Hm s H).
  destruct (m s) as [[a|e] s']; simpl in *; [exact Hm | now apply Hh].
Qed.

Lemma preserves_for_each {A} (xs : list A) (body : A → M S unit) :
  (∀ x, preserves P (body x)) → preserves P (for_each xs body).
Proof.
  intros Hbody. induction xs as [|x xs IH]; simpl.
  - apply preserves_ret.
  - apply preserves_bind; [apply Hbody | intros _; exact IH].
Qed.

Lemma preserves_if {A} (b : bool) (m1 m2 : M S A) :
  preserves P m1 → preserves P m2 → preserves P (if b then m1 else m2).
Proof. now destruct b. Qed.

End EffFacts.

(** Lists of records with a key, as both stores keep them. *)

Section KeyedLists.
Context {A : Type} (key : A → string).

Implicit Types (l : list A) (k : string).

Lemma keyed_drop_self l k :
  filter (λ x, key x = k) (filter (λ x, key x ≠ k) l) = [].
Proof.
  induction l as [|x l IH]; [reflexivity|].
  rewrite (filter_cons (λ x, key x ≠ k)). destruct (decide (key x ≠ k)) as [Hne|Heq].
  - rewrite filter_cons. destruct (decide (key x = k)); [done | exact IH].
  - exact IH.
Qed.

Lemma keyed_drop_other l k k' :
  k' ≠ k →
  filter (λ x, key x = k') (filter (λ x, key x ≠ k) l) = filter (λ x, key x = k') l.
Proof.
  intros Hne. induction l as [|x l IH]; [reflexivity|].
  rewrite (filter_cons (λ x, key x ≠ k)), (filter_cons (λ x, key x = k') x l).
  destruct (decide (key x ≠ k)) as [Hx|Hx].
  - rewrite filter_cons. destruct (decide (key x = k')); now rewrite IH.
  - destruct (decide (key x = k')) as [Hx'|_]; [|exact IH].
    exfalso. apply Hx. congruence.
Qed.

(** Replacing the records of a key by one record leaves exactly that
    record under the key. *)
Lemma keyed_replace_self l k x :
  key x = k →
  filter (λ y, key y = k) (filter (λ y, key y ≠ k) l ++ [x]) = [x].
Proof.
  intros Hx. rewrite filter_app, keyed_drop_self. simpl.
  rewrite filter_cons. destruct (decide (key x = k)); done.
Qed.

Lemma keyed_replace_other l k k' x :
  key x = k → k' ≠ k →
  filter (λ y, key y = k') (filter (λ y, key y ≠ k) l ++ [x])
  = filter (λ y, key y = k') l.
Proof.
  intros Hx Hne. rewrite filter_app, keyed_drop_other by done.
  rewrite filter_cons. destruct (decide (key x = k')) as [Heq|_]; [congruence|].
  rewrite filter_nil. apply app_nil_r.
Qed.

Lemma keyed_drop_NoDup l k :
  NoDup (key <$> l) → NoDup (key <$> filter (λ x, key x ≠ k) l).
Proof.
  intros Hl. apply (sublist_NoDup _ (key <$> l)); [exact Hl|].
  apply fmap_sublist, sublist_filter.
Qed.

Lemma keyed_drop_not_elem l k : k ∉ key <$> filter (λ x, key x ≠ k) l.
Proof.
  intros (x & Hk & Hx)%list_elem_of_fmap. apply list_elem_of_filter in Hx as [Hne _].
  congruence.
Qed.

Lemma keyed_replace_NoDup l k x :
  key x = k → NoDup (key <$> l) →
  NoDup (key <$> (filter (λ y, key y ≠ k) l ++ [x])).
Proof.
  intros Hx Hl. rewrite fmap_app. apply NoDup_app. split; [now apply keyed_drop_NoDup|].
  split.
  - intros y Hy Hin. apply list_elem_of_fmap in Hin as (x' & -> & Hx').
    apply list_elem_of_singleton in Hx' as ->. rewrite Hx in Hy.
    now apply keyed_drop_not_elem in Hy.
  - simpl. apply NoDup_singleton.
Qed.

Lemma keyed_snoc_NoDup l x :
  key x ∉ key <$> l → NoDup (key <$> l) → NoDup (key <$> (l ++ [x])).
Proof.
  intros Hx Hl. rewrite fmap_app. apply NoDup_app. split; [done|]. split.
  - intros y Hy Hin. apply list_elem_of_fmap in Hin as (x' & -> & Hx').
    apply list_elem_of_singleton in Hx' as ->. done.
  - simpl. apply NoDup_singleton.
Qed.

(** Under distinct keys a key has at most one record. *)
Lemma keyed_NoDup_at_most_one l k :
  NoDup (key <$> l) → (length (filter (λ x, key x = k) l) <= 1)%nat.
Proof.
  induction l as [|x l IH]; simpl; [lia|].
  intros Hnd. apply NoDup_cons in Hnd as [Hx Hl]. rewrite filter_cons.
  destruct (decide (key x = k)) as [Hk|Hk]; [|now apply IH].
  assert (filter (λ y, key y = k) l = []) as ->; [|simpl; lia].
  destruct (filter (λ y, key y = k) l) as [|y rest] eqn:E; [done|].
  exfalso. apply Hx.
  assert (y ∈ filter (λ y, key y = k) l) as Hy by (rewrite E; left).
  apply list_elem_of_filter in Hy as [Hyk Hyl].
  apply list_elem_of_fmap. exists y. split; [congruence | done].
Qed.

End KeyedLists.

(** *** The JSON store *)

Section DatabaseFacts.
Import Database.

Lemma json_find_skip (uid : string) (db rest : Db) :
  List.find (λ e, bool_decide (userId e = uid)) (filter (λ e, userId e ≠ uid) db ++ rest)
  = List.find (λ e, bool_decide (userId e = uid)) rest.
Proof.
  induction db as [|e db IH]; [reflexivity|].
  rewrite filter_cons. destruct (decide (userId e ≠ uid)) as [Hne|Heq]; [|exact IH].
  simpl. rewrite bool_decide_eq_false_2 by done. exact IH.
Qed.

Lemma json_add_records (now : Z) (uid : string) (sub : Subscription) (db : Db) :
  records_of uid (addSubscription now uid sub db).2 = 1%nat.
Proof.
  unfold records_of, addSubscription. simpl.
  now rewrite (keyed_replace_self userId).
Qed.

Lemma json_add_get (now : Z) (uid : string) (sub : Subscription) (db : Db) :
  getSubscription uid (addSubscription now uid sub db).2
  = Some {| userId := uid; subscription := sub; createdAt := now |}.
Proof.
  unfold getSubscription, addSubscription. cbn [snd]. rewrite json_find_skip.
  simpl. now rewrite bool_decide_eq_true_2.
Qed.

Lemma json_add_other (now : Z) (uid uid' : string) (sub : Subscription) (db : Db) :
  uid' ≠ uid →
  records_of uid' (addSubscription now uid sub db).2 = records_of uid' db.
Proof.
  intros Hne. unfold records_of, addSubscription. simpl.
  now rewrite (keyed_replace_other userId).
Qed.

Lemma json_remove_get (uid : string) (db : Db) :
  getSubscription uid (removeSubscription uid db) = None.
Proof.
  unfold getSubscription, removeSubscription.
  rewrite <- (app_nil_r (filter _ db)). now rewrite json_find_skip.
Qed.

Lemma json_add_unique (now : Z) (uid : string) (sub : Subscription) (db : Db) :
  unique_users db → unique_users (addSubscription now uid sub db).2.
Proof. apply (keyed_replace_NoDup userId). reflexivity. Qed.

Lemma json_remove_unique (uid : string) (db : Db) :
  unique_users db → unique_users (removeSubscription uid db).
Proof. apply (keyed_drop_NoDup userId). Qed.

End DatabaseFacts.

(** *** The MySQL store *)

Section MysqlFacts.
Import Eff MysqlDatabase.
Import Database(Subscription).

Lemma all_through_tail (fs : list bool) : all_through fs → all_through (tail fs).
Proof. intros H. destruct H; [constructor | assumption]. Qed.

Lemma round_trip_through (st : State) :
  all_through (script st) →
  round_trip st
  = (Ok tt, {| rows := rows st; auto_increment := auto_increment st;
               script := tail (script st) |}).
Proof.
  intros H. unfold round_trip. destruct st as [r a fs]. simpl in *.
  destruct H as [|b fs Hb H]; [reflexivity|]. now subst b.
Qed.

(** [addSubscription] when MySQL answers: the rows of the user are replaced
    by one new row. *)
Lemma mysql_add_through (now : Z) (uid : string) (sub : Subscription) (st : State) :
  all_through (script st) →
  addSubscription now uid sub st
  = (Ok {| added_id := auto_increment st; added_userId := uid;
           added_subscription := sub; added_createdAt := now |},
     {| rows := filter (λ r, user_id r ≠ uid) (rows st) ++
                  [{| id := auto_increment st; user_id := uid; subscription_data := sub;
                      created_at := now; updated_at := now |}];
        auto_increment := N.succ (auto_increment st);
        script := tail (tail (tail (script st))) |}).
Proof.
  intros H. unfold addSubscription, getConnection, execute_delete, execute_insert, bind, ret.
  rewrite round_trip_through by done.
  rewrite round_trip_through by (now apply all_through_tail).
  cbn [rows auto_increment script].
  rewrite round_trip_through by (cbn [script]; now do 2 apply all_through_tail).
  cbn [rows auto_increment script].
  rewrite bool_decide_eq_false_2 by apply (keyed_drop_not_elem user_id).
  reflexivity.
Qed.

(** [removeSubscription] when MySQL answers. *)
Lemma mysql_remove_through (uid : string) (st : State) :
  all_through (script st) →
  removeSubscription uid st
  = (Ok (0 <? length (filter (λ r, user_id r = uid) (rows st)))%nat,
     {| rows := filter (λ r, user_id r ≠ uid) (rows st);
        auto_increment := auto_increment st;
        script := tail (tail (script st)) |}).
Proof.
  intros H. unfold removeSubscription, getConnection, execute_delete, bind, ret.
  rewrite round_trip_through by done.
  rewrite round_trip_through by (now apply all_through_tail).
  reflexivity.
Qed.

Lemma round_trip_unique : preserves unique_users round_trip.
Proof.
  intros st H. unfold round_trip. destruct (script st) as [|[|] rest]; exact H.
Qed.

Lemma execute_delete_unique (uid : string) : preserves unique_users (execute_delete uid).
Proof.
  apply preserves_bind; [apply round_trip_unique|]. intros _ st H.
  apply (keyed_drop_NoDup user_id). exact H.
Qed.

Lemma execute_insert_unique (now : Z) (uid : string) (sub : Subscription) :
  preserves unique_users (execute_insert now uid sub).
Proof.
  apply preserves_bind; [apply round_trip_unique|]. intros _ st H.
  destruct (bool_decide (uid ∈ user_id <$> rows st)) eqn:E; [exact H|].
  apply bool_decide_eq_false in E. cbn [snd]. unfold unique_users. cbn [rows].
  now apply (keyed_snoc_NoDup user_id).
Qed.

Lemma mysql_add_unique (now : Z) (uid : string) (sub : Subscription) :
  preserves unique_users (addSubscription now uid sub).
Proof.
  unfold addSubscription.
  apply preserves_bind; [apply round_trip_unique|]. intros _.
  apply preserves_bind; [apply execute_delete_unique|]. intros _.
  apply preserves_bind; [apply execute_insert_unique|]. intros insertId.
  apply preserves_ret.
Qed.

Lemma mysql_remove_unique (uid : string) : preserves unique_users (removeSubscription uid).
Proof.
  unfold removeSubscription.
  apply preserves_bind; [apply round_trip_unique|]. intros _.
  apply preserves_bind; [apply execute_delete_unique|]. intros n.
  apply preserves_ret.
Qed.

Lemma mysql_get_unique (uid : string) : preserves unique_users (getSubscription uid).
Proof.
  unfold getSubscription, execute_select.
  apply preserves_bind; [apply round_trip_unique|]. intros _.
  apply preserves_bind.
  - apply preserves_bind; [apply round_trip_unique|]. intros _. apply preserves_gets.
  - intros [|r found]; [apply preserves_ret|].
    apply preserves_bind; [intros st H; exact H | intros sub; apply preserves_ret].
Qed.

Lemma mysql_test_unique : preserves unique_users testConnection.
Proof.
  unfold testConnection, getConnection, execute_select_1.
  apply preserves_try_catch.
  - apply preserves_bind; [apply round_trip_unique|]. intros _.
    apply preserves_bind; [apply round_trip_unique|]. intros _. apply preserves_ret.
  - intros e. apply preserves_ret.
Qed.

End MysqlFacts.

(** *** The hybrid layer: one record per user *)

Section HybridUnique.
Import Eff HybridDatabase.
Import Database(Subscription).

Lemma mysql_unique {A} (m : M MysqlDatabase.State A) :
  preserves MysqlDatabase.unique_users m → preserves stores_unique (mysql m).
Proof.
  intros Hm s [Hj Hq]. unfold mysql, lift. specialize (Hm (mysqlDB s) Hq).
  destruct (m (mysqlDB s)) as [r t]. split; [exact Hj | exact Hm].
Qed.

Lemma sync_one_unique (now : Z) (op : Operation) : preserves stores_unique (sync_one now op).
Proof.
  unfold sync_one. apply preserves_try_catch; [|intros e; apply preserves_ret].
  destruct op as [uid sub t|uid t].
  - apply preserves_bind; [|intros a; apply preserves_ret].
    apply mysql_unique, mysql_add_unique.
  - apply preserves_bind; [|intros a; apply preserves_ret].
    apply mysql_unique, mysql_remove_unique.
Qed.

Lemma syncOfflineData_unique (now : Z) : preserves stores_unique (syncOfflineData now).
Proof.
  unfold syncOfflineData.
  apply preserves_bind; [apply preserves_gets|]. intros online.
  apply preserves_bind; [apply preserves_gets|]. intros queue.
  apply preserves_if; [apply preserves_ret|].
  apply preserves_bind.
  - apply preserves_for_each. intros op. apply sync_one_unique.
  - intros _. apply preserves_modify. intros s H. exact H.
Qed.

Lemma checkMySQLHealth_unique (now : Z) : preserves stores_unique (checkMySQLHealth now).
Proof.
  unfold checkMySQLHealth. apply preserves_try_catch.
  - apply preserves_bind; [apply mysql_unique, mysql_test_unique|]. intros success.
    apply preserves_bind; [apply preserves_gets|]. intros wasOffline.
    apply preserves_bind; [apply preserves_modify; intros s H; exact H|]. intros _.
    apply preserves_bind; [|intros _; apply preserves_gets].
    apply preserves_if; [apply syncOfflineData_unique | apply preserves_ret].
  - intros e. apply preserves_bind; [|intros _; apply preserves_ret].
    apply preserves_modify. intros s H. exact H.
Qed.

Lemma addToSyncQueue_unique (op : Operation) : preserves stores_unique (addToSyncQueue op).
Proof. apply preserves_modify. intros s H. exact H. Qed.

Lemma addSubscription_unique (now : Z) (uid : string) (sub : Subscription) :
  preserves stores_unique (addSubscription now uid sub).
Proof.
  unfold addSubscription. apply preserves_bind.
  - intros s [Hj Hq]. split; [|exact Hq].
    cbn. now apply json_add_unique.
  - intros jsonResult.
    apply preserves_bind; [apply checkMySQLHealth_unique|]. intros online.
    apply preserves_if.
    + apply preserves_try_catch.
      * apply preserves_bind; [|intros a; apply preserves_ret].
        apply mysql_unique, mysql_add_unique.
      * intros e. apply preserves_bind; [apply addToSyncQueue_unique|].
        intros _. apply preserves_ret.
    + apply preserves_bind; [apply addToSyncQueue_unique|]. intros _. apply preserves_ret.
Qed.

Lemma removeSubscription_unique (now : Z) (uid : string) :
  preserves stores_unique (removeSubscription now uid).
Proof.
  unfold removeSubscription. apply preserves_bind.
  - apply preserves_modify. intros s [Hj Hq]. split; [|exact Hq].
    now apply json_remove_unique.
  - intros _.
    apply preserves_bind; [apply checkMySQLHealth_unique|]. intros online.
    apply preserves_if; [|apply addToSyncQueue_unique].
    apply preserves_try_catch; [|intros e; apply addToSyncQueue_unique].
    apply preserves_bind; [|intros a; apply preserves_ret].
    apply mysql_unique, mysql_remove_unique.
Qed.

Lemma getSubscription_unique (now : Z) (uid : string) :
  preserves stores_unique (getSubscription now uid).
Proof.
  unfold getSubscription.
  apply preserves_bind; [apply checkMySQLHealth_unique|]. intros online.
  apply preserves_bind.
  - apply preserves_if; [|apply preserves_ret].
    apply preserves_try_catch; [|intros e; apply preserves_ret].
    apply mysql_unique, mysql_get_unique.
  - intros [found|]; [apply preserves_ret | apply preserves_gets].
Qed.

Lemma forcSync_unique (now : Z) : preserves stores_unique (forcSync now).
Proof.
  unfold forcSync.
  apply preserves_bind; [apply checkMySQLHealth_unique|]. intros online.
  apply preserves_if; [|apply preserves_ret].
  apply preserves_bind; [apply syncOfflineData_unique|]. intros _. apply preserves_ret.
Qed.

Lemma invoke_unique (s : State) (i : Invocation) :
  stores_unique s → stores_unique (invoke s i).
Proof.
  intros H. assert (stores_unique (with_outcomes (outcomes i) s)) as H0 by exact H.
  unfold invoke. destruct (call i).
  - now apply addSubscription_unique.
  - now apply removeSubscription_unique.
  - now apply getSubscription_unique.
  - now apply checkMySQLHealth_unique.
  - now apply forcSync_unique.
Qed.

Lemma run_unique (trace : list Invocation) (s : State) :
  stores_unique s → stores_unique (run trace s).
Proof.
  revert s. induction trace as [|i trace IH]; intros s H; [exact H|].
  apply IH. now apply invoke_unique.
Qed.

Lemma initial_unique : stores_unique initial.
Proof. split; apply NoDup_nil_2. Qed.

End HybridUnique.

(** *** The hybrid layer: writes made while MySQL is away *)

Section HybridReplay.
Import Eff HybridDatabase.
Import Database(Subscription).

(** A failed connection test: the module goes offline, nothing is sent to
    MySQL. *)
Lemma checkMySQLHealth_down (now : Z) (s : State) :
  probe (MysqlDatabase.script (mysqlDB s)) = false →
  ∃ fs, checkMySQLHealth now s
        = (Ok false,
           set_isOnline false
             (set_mysqlDB {| MysqlDatabase.rows := MysqlDatabase.rows (mysqlDB s);
                             MysqlDatabase.auto_increment :=
                               MysqlDatabase.auto_increment (mysqlDB s);
                             MysqlDatabase.script := fs |} s)).
Proof.
  destruct s as [online queue json [rows next fs]]. cbn [mysqlDB MysqlDatabase.script].
  intros Hprobe.
  destruct fs as [|[|] [|[|] rest]]; try discriminate Hprobe;
    destruct online; eexists; reflexivity.
Qed.

(** [probe] is what the connection test answers. *)
Lemma testConnection_probe (st : MysqlDatabase.State) :
  (MysqlDatabase.testConnection st).1 = Ok (probe (MysqlDatabase.script st)).
Proof.
  destruct st as [rows next fs]. cbn [MysqlDatabase.script].
  destruct fs as [|[|] [|[|] rest]]; reflexivity.
Qed.

(** A connection test that goes through. *)
Lemma testConnection_through (st : MysqlDatabase.State) :
  MysqlDatabase.all_through (MysqlDatabase.script st) →
  MysqlDatabase.testConnection st
  = (Ok true, {| MysqlDatabase.rows := MysqlDatabase.rows st;
                 MysqlDatabase.auto_increment := MysqlDatabase.auto_increment st;
                 MysqlDatabase.script := tail (tail (MysqlDatabase.script st)) |}).
Proof.
  intros H.
  unfold MysqlDatabase.testConnection, MysqlDatabase.getConnection,
    MysqlDatabase.execute_select_1, try_catch, bind, ret.
  rewrite round_trip_through by done.
  rewrite round_trip_through by (now apply all_through_tail).
  reflexivity.
Qed.

(** One queued operation, when MySQL answers, has the effect
    [apply_row_op] on the table and no other. *)
Lemma sync_one_through (now : Z) (op : Operation) (s : State) :
  MysqlDatabase.all_through (MysqlDatabase.script (mysqlDB s)) →
  ∃ fs, MysqlDatabase.all_through fs ∧
        sync_one now op s
        = (Ok tt,
           set_mysqlDB {| MysqlDatabase.rows := (apply_row_op now op (table s)).1;
                          MysqlDatabase.auto_increment := (apply_row_op now op (table s)).2;
                          MysqlDatabase.script := fs |} s).
Proof.
  intros H. destruct op as [uid sub t|uid t].
  - exists (tail (tail (tail (MysqlDatabase.script (mysqlDB s))))).
    split; [now do 3 apply all_through_tail|].
    unfold sync_one, try_catch, bind, mysql, lift, ret.
    now rewrite mysql_add_through.
  - exists (tail (tail (MysqlDatabase.script (mysqlDB s)))).
    split; [now do 2 apply all_through_tail|].
    unfold sync_one, try_catch, bind, mysql, lift, ret.
    now rewrite mysql_remove_through.
Qed.

Lemma table_set_mysqlDB (t : list MysqlDatabase.Row * N) (fs : list bool) (s : State) :
  table (set_mysqlDB {| MysqlDatabase.rows := t.1; MysqlDatabase.auto_increment := t.2;
                        MysqlDatabase.script := fs |} s) = t.
Proof. now destruct t. Qed.

(** The loop of [syncOfflineData], when MySQL answers, replays the queue. *)
Lemma sync_loop_through (now : Z) (queue : list Operation) (s : State) :
  MysqlDatabase.all_through (MysqlDatabase.script (mysqlDB s)) →
  ∃ fs, MysqlDatabase.all_through fs ∧
        for_each queue (sync_one now) s
        = (Ok tt,
           set_mysqlDB {| MysqlDatabase.rows := (replay now queue (table s)).1;
                          MysqlDatabase.auto_increment := (replay now queue (table s)).2;
                          MysqlDatabase.script := fs |} s).
Proof.
  revert s. induction queue as [|op queue IH]; intros s H.
  - exists (MysqlDatabase.script (mysqlDB s)). split; [exact H|].
    destruct s as [online q json [rows next fs]]. reflexivity.
  - destruct (sync_one_through now op s H) as (fs1 & H1 & E1).
    cbn [for_each]. unfold bind at 1. rewrite E1.
    match goal with |- context [for_each queue _ ?s1] =>
      destruct (IH s1 H1) as (fs2 & H2 & E2); rewrite E2 end.
    exists fs2. split; [exact H2|]. rewrite table_set_mysqlDB. reflexivity.
Qed.

Lemma replay_app (now : Z) (q1 q2 : list Operation) (t : list MysqlDatabase.Row * N) :
  replay now (q1 ++ q2) t = replay now q2 (replay now q1 t).
Proof. apply foldl_app. Qed.


(** A call whose connection test fails: the module goes offline, the
    JSON store takes the write, the write is queued, MySQL is left alone. *)
Lemma invoke_degraded (s : State) (i : Invocation) :
  probe (outcomes i) = false →
  isOnline (invoke s i) = false ∧
  syncQueue (invoke s i) = syncQueue s ++ queued i ∧
  table (invoke s i) = table s ∧
  jsonDB (invoke s i)
  = match call i with
    | CallAdd uid sub => (Database.addSubscription (at_time i) uid sub (jsonDB s)).2
    | CallRemove uid => Database.removeSubscription uid (jsonDB s)
    | _ => jsonDB s
    end.
Proof.
  intros Hprobe. destruct i as [c now fs]. cbn [outcomes] in Hprobe.
  unfold queued. cbn [call at_time].
  set (s' := invoke s _).
  enough (∃ st, s' = st ∧
            isOnline st = false ∧
            syncQueue st
            = syncQueue s ++ match c with
                             | CallAdd uid sub => [Add uid sub now]
                             | CallRemove uid => [Remove uid now]
                             | _ => []
                             end ∧
            table st = table s ∧
            jsonDB st
            = match c with
              | CallAdd uid sub => (Database.addSubscription now uid sub (jsonDB s)).2
              | CallRemove uid => Database.removeSubscription uid (jsonDB s)
              | _ => jsonDB s
              end) as (st & -> & H); [exact H|].
  subst s'. unfold invoke. cbn [call at_time outcomes].
  destruct c as [uid sub|uid|uid| |].
  - unfold addSubscription. unfold bind at 1. cbn [Database.addSubscription].
    unfold bind at 1.
    match goal with |- context [checkMySQLHealth now ?s1] =>
      destruct (checkMySQLHealth_down now s1 Hprobe) as [fs' E]; rewrite E end.
    eexists. split; [reflexivity|]. repeat split.
  - unfold removeSubscription. unfold bind at 1. unfold modify at 1.
    unfold bind at 1.
    match goal with |- context [checkMySQLHealth now ?s1] =>
      destruct (checkMySQLHealth_down now s1 Hprobe) as [fs' E]; rewrite E end.
    eexists. split; [reflexivity|]. repeat split.
  - unfold getSubscription. unfold bind at 1.
    match goal with |- context [checkMySQLHealth now ?s1] =>
      destruct (checkMySQLHealth_down now s1 Hprobe) as [fs' E]; rewrite E end.
    eexists. split; [reflexivity|]. rewrite app_nil_r. repeat split.
  - match goal with |- context [checkMySQLHealth now ?s1] =>
      destruct (checkMySQLHealth_down now s1 Hprobe) as [fs' E]; rewrite E end.
    eexists. split; [reflexivity|]. rewrite app_nil_r. repeat split.
  - unfold forcSync. unfold bind at 1.
    match goal with |- context [checkMySQLHealth now ?s1] =>
      destruct (checkMySQLHealth_down now s1 Hprobe) as [fs' E]; rewrite E end.
    eexists. split; [reflexivity|]. rewrite app_nil_r. repeat split.
Qed.

(** Calls made while every connection test fails only add to the queue. *)
Lemma run_degraded (mid : list Invocation) (s : State) :
  Forall (λ j, probe (outcomes j) = false) mid →
  syncQueue (run mid s) = syncQueue s ++ concat (queued <$> mid) ∧
  table (run mid s) = table s ∧
  (isOnline s = false → isOnline (run mid s) = false).
Proof.
  intros Hall. revert s. induction Hall as [|j mid Hj _ IH]; intros s.
  - cbn. rewrite app_nil_r. done.
  - destruct (invoke_degraded s j Hj) as (Hon & Hq & Ht & _).
    destruct (IH (invoke s j)) as (Hq' & Ht' & Hon').
    change (run (j :: mid) s) with (run mid (invoke s j)).
    rewrite Hq', Hq, Ht', Ht. cbn [fmap list_fmap concat].
    rewrite <- app_assoc. split; [done|]. split; [done|]. intros _. now apply Hon'.
Qed.

(** [getSubscription] when MySQL answers, whether it returns or throws on
    the row it found: the table is left as it was. *)
Lemma mysql_get_through (uid : string) (st : MysqlDatabase.State) :
  MysqlDatabase.all_through (MysqlDatabase.script st) →
  ∃ outcome,
    MysqlDatabase.getSubscription uid st
    = (outcome, {| MysqlDatabase.rows := MysqlDatabase.rows st;
                   MysqlDatabase.auto_increment := MysqlDatabase.auto_increment st;
                   MysqlDatabase.script := tail (tail (MysqlDatabase.script st)) |}).
Proof.
  intros H.
  unfold MysqlDatabase.getSubscription, MysqlDatabase.getConnection,
    MysqlDatabase.execute_select, bind, ret, gets.
  rewrite round_trip_through by done.
  rewrite round_trip_through by (now apply all_through_tail).
  cbn [MysqlDatabase.rows MysqlDatabase.auto_increment MysqlDatabase.script].
  destruct (filter _ (MysqlDatabase.rows st)); unfold MysqlDatabase.JSON_parse;
    eexists; reflexivity.
Qed.

(** The connection test that finds MySQL back after a failure replays the
    whole queue and empties it. *)
Lemma checkMySQLHealth_up (now : Z) (s : State) :
  isOnline s = false →
  MysqlDatabase.all_through (MysqlDatabase.script (mysqlDB s)) →
  ∃ fs, MysqlDatabase.all_through fs ∧
        checkMySQLHealth now s
        = (Ok true,
           {| isOnline := true; syncQueue := []; jsonDB := jsonDB s;
              mysqlDB :=
                {| MysqlDatabase.rows := (replay now (syncQueue s) (table s)).1;
                   MysqlDatabase.auto_increment := (replay now (syncQueue s) (table s)).2;
                   MysqlDatabase.script := fs |} |}).
Proof.
  intros Hoff Hfs.
  unfold checkMySQLHealth, try_catch. unfold bind at 1. unfold mysql at 1, lift.
  rewrite testConnection_through by exact Hfs.
  unfold bind at 1. unfold gets at 1.
  change (isOnline (set_mysqlDB _ s)) with (isOnline s).
  rewrite Hoff. cbn [negb andb].
  unfold bind at 1. unfold modify at 1.
  unfold bind at 1. unfold syncOfflineData.
  unfold bind at 1. unfold gets at 1. unfold bind at 1. unfold gets at 1.
  cbn [set_isOnline isOnline syncQueue negb orb set_mysqlDB].
  destruct (syncQueue s) as [|op queue] eqn:Hq.
  - exists (tail (tail (MysqlDatabase.script (mysqlDB s)))).
    split; [now do 2 apply all_through_tail|]. cbn.
    unfold set_isOnline, set_mysqlDB. cbn [isOnline syncQueue jsonDB mysqlDB].
    now rewrite Hq.
  - cbn [length Nat.eqb].
    unfold bind at 1.
    match goal with |- context [for_each ?q _ ?s1] =>
      destruct (sync_loop_through now q s1) as (fs' & Hfs' & E);
        [cbn; now do 2 apply all_through_tail | rewrite E] end.
    exists fs'. split; [exact Hfs'|]. reflexivity.
Qed.

(** The first call that finds MySQL back, whichever it is: the queue is
    replayed, then the write of the call itself goes to MySQL. *)
Lemma invoke_recovering (s : State) (j : Invocation) :
  isOnline s = false → MysqlDatabase.all_through (outcomes j) →
  table (invoke s j) = replay (at_time j) (syncQueue s ++ queued j) (table s) ∧
  syncQueue (invoke s j) = [] ∧
  isOnline (invoke s j) = true.
Proof.
  intros Hoff Hfs. destruct j as [c now fs]. cbn [outcomes at_time] in *.
  unfold queued. cbn [call at_time]. rewrite replay_app.
  set (s' := invoke s _).
  enough (∃ st, s' = st ∧
            table st
            = replay now match c with
                         | CallAdd uid sub => [Add uid sub now]
                         | CallRemove uid => [Remove uid now]
                         | _ => []
                         end (replay now (syncQueue s) (table s)) ∧
            syncQueue st = [] ∧ isOnline st = true) as (st & -> & H); [exact H|].
  subst s'. unfold invoke. cbn [call at_time outcomes].
  destruct c as [uid sub|uid|uid| |].
  - unfold addSubscription. unfold bind at 1. cbn [Database.addSubscription].
    unfold bind at 1.
    match goal with |- context [checkMySQLHealth now ?s1] =>
      destruct (checkMySQLHealth_up now s1) as (fs' & Hfs' & E);
        [exact Hoff | exact Hfs | rewrite E] end.
    unfold try_catch, bind, mysql, lift, ret.
    rewrite mysql_add_through by exact Hfs'.
    eexists. split; [reflexivity|]. cbn. unfold table. cbn.
    first [done | now rewrite <- surjective_pairing].
  - unfold removeSubscription. unfold bind at 1. unfold modify at 1.
    unfold bind at 1.
    match goal with |- context [checkMySQLHealth now ?s1] =>
      destruct (checkMySQLHealth_up now s1) as (fs' & Hfs' & E);
        [exact Hoff | exact Hfs | rewrite E] end.
    unfold try_catch, bind, mysql, lift, ret.
    rewrite mysql_remove_through by exact Hfs'.
    eexists. split; [reflexivity|]. cbn. unfold table. cbn.
    first [done | now rewrite <- surjective_pairing].
  - unfold getSubscription. unfold bind at 1.
    match goal with |- context [checkMySQLHealth now ?s1] =>
      destruct (checkMySQLHealth_up now s1) as (fs' & Hfs' & E);
        [exact Hoff | exact Hfs | rewrite E] end.
    unfold bind at 1. unfold try_catch, mysql, lift.
    match goal with |- context [MysqlDatabase.getSubscription uid ?st] =>
      destruct (mysql_get_through uid st Hfs') as [outcome Eg]; rewrite Eg end.
    destruct outcome as [[found|]|e]; (eexists; split; [reflexivity|]); cbn;
      unfold table; cbn; first [done | now rewrite <- surjective_pairing].
  - match goal with |- context [checkMySQLHealth now ?s1] =>
      destruct (checkMySQLHealth_up now s1) as (fs' & Hfs' & E);
        [exact Hoff | exact Hfs | rewrite E] end.
    eexists. split; [reflexivity|]. cbn. unfold table. cbn.
    first [done | now rewrite <- surjective_pairing].
  - unfold forcSync. unfold bind at 1.
    match goal with |- context [checkMySQLHealth now ?s1] =>
      destruct (checkMySQLHealth_up now s1) as (fs' & Hfs' & E);
        [exact Hoff | exact Hfs | rewrite E] end.
    eexists. split; [reflexivity|]. cbn. unfold table. cbn.
    first [done | now rewrite <- surjective_pairing].
Qed.

End HybridReplay.

Section HybridTheorems.
Import HybridDatabase.
Import Database(Subscription).

Lemma durable_apply_self (uid : string) (now : Z) (op : Operation)
    (t : list MysqlDatabase.Row * N) :
  op_userId op = uid → durable uid (apply_row_op now op t) = wanted op.
Proof.
  intros <-. unfold durable. destruct op as [uid sub ts|uid ts]; cbn [apply_row_op fst op_userId wanted].
  - now rewrite (keyed_replace_self MysqlDatabase.user_id).
  - now rewrite (keyed_drop_self MysqlDatabase.user_id).
Qed.

Lemma durable_apply_other (uid : string) (now : Z) (op : Operation)
    (t : list MysqlDatabase.Row * N) :
  op_userId op ≠ uid → durable uid (apply_row_op now op t) = durable uid t.
Proof.
  intros Hne. unfold durable.
  destruct op as [uid' sub ts|uid' ts]; cbn [apply_row_op fst op_userId] in *.
  - now rewrite (keyed_replace_other MysqlDatabase.user_id) by done.
  - now rewrite (keyed_drop_other MysqlDatabase.user_id) by done.
Qed.

Lemma durable_replay_others (uid : string) (now : Z) (queue : list Operation)
    (t : list MysqlDatabase.Row * N) :
  Forall (λ o, op_userId o ≠ uid) queue → durable uid (replay now queue t) = durable uid t.
Proof.
  intros Hall. revert t. induction Hall as [|o queue Ho _ IH]; intros t; [reflexivity|].
  unfold replay. cbn [foldl]. fold (replay now queue (apply_row_op now o t)).
  rewrite IH. now apply durable_apply_other.
Qed.

(** C4.  A write whose connection test fails is in the JSON store when the
    call returns and is appended to the sync queue, MySQL being left as it
    was.  It stays queued through every later call whose connection test
    fails.  The first call after that whose round trips go through, the
    periodic health check or any other, replays the queue in order: the
    write is applied to MySQL after the operations queued before it and
    before those queued after it, the queue is emptied, and unless a later
    operation is for the same user, MySQL holds for that user what the
    write asked for. *)
Theorem degraded_write_is_replayed
    (s : State) (i : Invocation) (op : Operation) (mid : list Invocation)
    (recovery : Invocation) :
  queued i = [op] →
  probe (outcomes i) = false →
  Forall (λ j, probe (outcomes j) = false) mid →
  MysqlDatabase.all_through (outcomes recovery) →
  let s1 := invoke s i in
  let s2 := run mid s1 in
  let s3 := invoke s2 recovery in
  let later := concat (queued <$> mid) ++ queued recovery in
  let now := at_time recovery in
  fallback (op_userId op) s1 = wanted op ∧
  syncQueue s1 = syncQueue s ++ [op] ∧ table s1 = table s ∧
  syncQueue s2 = syncQueue s ++ [op] ++ concat (queued <$> mid) ∧ table s2 = table s ∧
  table s3 = replay now later (apply_row_op now op (replay now (syncQueue s) (table s))) ∧
  syncQueue s3 = [] ∧
  (Forall (λ o, op_userId o ≠ op_userId op) later →
   durable (op_userId op) (table s3) = wanted op).
Proof.
  intros Hop Hdown Hmid Hup s1 s2 s3 later now.
  destruct (invoke_degraded s i Hdown) as (Hoff1 & Hq1 & Ht1 & Hj1).
  fold s1 in Hoff1, Hq1, Ht1, Hj1. rewrite Hop in Hq1.
  destruct (run_degraded mid s1 Hmid) as (Hq2 & Ht2 & Hoff2).
  fold s2 in Hq2, Ht2, Hoff2. specialize (Hoff2 Hoff1).
  destruct (invoke_recovering s2 recovery Hoff2 Hup) as (Ht3 & Hq3 & _).
  fold s3 now in Ht3, Hq3.
  assert (table s3
          = replay now later (apply_row_op now op (replay now (syncQueue s) (table s))))
    as Htable.
  { rewrite Ht3, Hq2, Hq1, Ht2, Ht1. subst later. now rewrite !replay_app. }
  split.
  { unfold fallback. rewrite Hj1. unfold queued in Hop.
    destruct (call i) as [uid sub|uid|uid| |]; try discriminate Hop;
      injection Hop as <-; cbn [op_userId wanted].
    - now rewrite json_add_get.
    - now rewrite json_remove_get. }
  split; [exact Hq1|]. split; [exact Ht1|].
  split; [rewrite Hq2, Hq1; now rewrite <- app_assoc|].
  split; [now rewrite Ht2, Ht1|].
  split; [exact Htable|]. split; [exact Hq3|].
  intros Hothers. rewrite Htable, durable_replay_others by exact Hothers.
  now apply durable_apply_self.
Qed.

(** C5.  The stores start with no user having two records, and no call of
    the hybrid layer, whatever MySQL does during it, makes a user have two
    records in the JSON store or two rows in MySQL.  In the JSON store, and in MySQL when its round trips go
    through, [addSubscription] leaves exactly one record for the user,
    carrying the new subscription, whatever was stored before; so does the
    same [addSubscription] applied a second time. *)
Theorem one_record_per_user :
  stores_unique initial ∧
  (∀ (s : State) (trace : list Invocation),
      stores_unique s →
      stores_unique (run trace s) ∧
      ∀ uid, (Database.records_of uid (jsonDB (run trace s)) <= 1)%nat ∧
             (MysqlDatabase.rows_of uid (mysqlDB (run trace s)) <= 1)%nat) ∧
  (∀ (now : Z) (uid : string) (sub : Subscription) (db : Database.Db),
      let db' := (Database.addSubscription now uid sub db).2 in
      Database.records_of uid db' = 1%nat ∧
      Database.getSubscription uid db'
      = Some {| Database.userId := uid; Database.subscription := sub;
                Database.createdAt := now |}) ∧
  (∀ (now1 now2 : Z) (uid : string) (sub : Subscription) (db : Database.Db),
      Database.records_of uid
        (Database.addSubscription now2 uid sub
           (Database.addSubscription now1 uid sub db).2).2 = 1%nat) ∧
  (∀ (now : Z) (uid : string) (sub : Subscription) (st : MysqlDatabase.State),
      MysqlDatabase.all_through (MysqlDatabase.script st) →
      let out := MysqlDatabase.addSubscription now uid sub st in
      (∃ added, out.1 = Ok added) ∧
      MysqlDatabase.rows_of uid out.2 = 1%nat ∧
      durable uid (MysqlDatabase.rows out.2, MysqlDatabase.auto_increment out.2) = Some sub) ∧
  (∀ (now1 now2 : Z) (uid : string) (sub : Subscription) (st : MysqlDatabase.State),
      MysqlDatabase.all_through (MysqlDatabase.script st) →
      let st1 := (MysqlDatabase.addSubscription now1 uid sub st).2 in
      MysqlDatabase.rows_of uid (MysqlDatabase.addSubscription now2 uid sub st1).2
      = 1%nat).
Proof.
  split; [exact initial_unique|]. split; [|split; [|split; [|split]]].
  - intros s trace Hs.
    pose proof (run_unique trace s Hs) as Hu. split; [exact Hu|].
    destruct Hu as [Hj Hm]. intros uid. split.
    + now apply (keyed_NoDup_at_most_one Database.userId).
    + now apply (keyed_NoDup_at_most_one MysqlDatabase.user_id).
  - intros now uid sub db db'. split; [apply json_add_records | apply json_add_get].
  - intros now1 now2 uid sub db. apply json_add_records.
  - intros now uid sub st Hup out. subst out. rewrite mysql_add_through by exact Hup.
    cbn [fst snd]. split; [eauto|]. unfold MysqlDatabase.rows_of, durable.
    cbn [MysqlDatabase.rows fst].
    now rewrite (keyed_replace_self MysqlDatabase.user_id).
  - intros now1 now2 uid sub st Hup st1. subst st1.
    rewrite (mysql_add_through now1 uid sub st Hup). cbn [snd].
    rewrite mysql_add_through by (cbn; now do 3 apply all_through_tail).
    unfold MysqlDatabase.rows_of. cbn [snd MysqlDatabase.rows].
    now rewrite (keyed_replace_self MysqlDatabase.user_id).
Qed.

End HybridTheorems.

Section HybridExamples.
Import HybridDatabase.

Lemma degraded_write_is_replayed_witness :
  let s1 := invoke initial offline_add in
  let s3 := invoke (run offline_calls s1) recovery_check in
  fallback "u1" s1 = Some test_subscription ∧
  syncQueue s1 = [Add "u1" test_subscription 1] ∧
  syncQueue s3 = [] ∧
  durable "u1" (table s3) = Some test_subscription.
Proof.
  pose proof (degraded_write_is_replayed initial offline_add
                (Add "u1" test_subscription 1) offline_calls recovery_check
                ltac:(reflexivity) ltac:(reflexivity)
                ltac:(repeat constructor) ltac:(constructor))
    as (Hjson & Hqueue & _ & _ & _ & _ & Hempty & Hdurable).
  split; [exact Hjson|]. split; [exact Hqueue|]. split; [exact Hempty|].
  apply Hdurable. repeat constructor. discriminate.
Defined.

(** The same run, evaluated: the write made while MySQL is away reaches
    MySQL with the health check that finds it back. *)
Example offline_add_then_recovery :
  let s1 := invoke initial offline_add in
  let s2 := run offline_calls s1 in
  let s3 := invoke s2 recovery_check in
  (isOnline s1, syncQueue s1, MysqlDatabase.rows (mysqlDB s1))
  = (false, [Add "u1" test_subscription 1], []) ∧
  syncQueue s2 = [Add "u1" test_subscription 1; Remove "u2" 3] ∧
  (isOnline s3, syncQueue s3, MysqlDatabase.rows (mysqlDB s3))
  = (true, [],
     [{| MysqlDatabase.id := 1; MysqlDatabase.user_id := "u1";
         MysqlDatabase.subscription_data := test_subscription;
         MysqlDatabase.created_at := 4; MysqlDatabase.updated_at := 4 |}]).
Proof. vm_compute. repeat split. Qed.

(** A write MySQL refuses after the connection test went through is queued
    while [isOnline] stays [true]: the health checks that follow find MySQL
    up, see no transition, and leave the queue alone. *)
Example refused_write_waits_for_a_transition :
  let s1 := invoke initial {| call := CallAdd "u1" test_subscription; at_time := 1;
                              outcomes := [true; true; false] |} in
  let s2 := invoke s1 {| call := CallHealthCheck; at_time := 2; outcomes := [] |} in
  (isOnline s1, syncQueue s1) = (true, [Add "u1" test_subscription 1]) ∧
  (isOnline s2, syncQueue s2, MysqlDatabase.rows (mysqlDB s2))
  = (true, [Add "u1" test_subscription 1], []).
Proof. vm_compute. repeat split. Qed.

End HybridExamples.

(** * Further properties of the code *)

(** ** The duplicate cache, in the handlers *)

Section DedupInHandlers.
Import Socket.

(** X1.  A sweep leaves no entry older than the retention window, and a
    later sweep makes every earlier one redundant: sweeping at [now1] and
    then at [now2], [now1] not after [now2], leaves the cache a single
    sweep at [now2] leaves. *)
Theorem cleanup_subsumes_earlier_sweeps (now1 now2 : Z) (sent : gmap string Z) :
  (now1 <= now2)%Z →
  cleanup now2 (cleanup now1 sent) = cleanup now2 sent ∧
  (∀ id t, cleanup now2 sent !! id = Some t → (now2 - t <= retention)%Z ∧ sent !! id = Some t).
Proof.
  intros Hle. split.
  - apply map_eq. intros id. apply option_eq. intros t.
    rewrite !cleanup_lookup_Some. intuition lia.
  - intros id t H. apply cleanup_lookup_Some in H as [H ?]. split; [lia | exact H].
Qed.

Lemma cleanup_subsumes_earlier_sweeps_witness :
  cleanup 400000 (cleanup 100000 (<["a" := 0%Z]> (<["b" := 200000%Z]> ∅)))
  = cleanup 400000 (<["a" := 0%Z]> (<["b" := 200000%Z]> ∅)) ∧
  (∀ id t, cleanup 400000 (<["a" := 0%Z]> (<["b" := 200000%Z]> ∅)) !! id = Some t →
           (400000 - t <= retention)%Z ∧
           (<["a" := 0%Z]> (<["b" := 200000%Z]> ∅) : gmap string Z) !! id = Some t).
Proof.
  apply (cleanup_subsumes_earlier_sweeps 100000 400000). lia.
Defined.

(** After [send-notification] ran on a payload with a target and a message,
    the identifier it derived is in the cache, whether or not the call was
    itself turned away. *)
Lemma send_notification_marks (sid : string) (sk : SocketData) (d : SendData)
    (target message : string) (now : Z) (w : World) :
  truthy_val (sd_targetUserId d) = Some target →
  truthy_val (sd_message d) = Some message →
  is_Some (sentNotifications (send_notification sid sk (Some d) now w).2
             !! notificationId target now message).
Proof.
  intros Ht Hm. unfold send_notification. rewrite Ht, Hm. unfold admitId.
  destruct (sentNotifications w !! notificationId target now message) as [t0|] eqn:E.
  - cbn [snd]. rewrite E. eauto.
  - destruct (0 <? _)%nat; cbn; rewrite lookup_insert_eq; eauto.
Qed.

(** X2.  Within one millisecond, a second [send-notification] for the same
    target whose message has the same first twenty code units up to runs
    of white space is refused as a duplicate, whoever sends it and whatever
    the rest of the message, its type or its title: the sender gets
    [notification-error], nothing goes to the room, the state stays. *)
Theorem same_millisecond_repeat_is_refused
    (w : World) (sid sid' : string) (sk sk' : SocketData) (d d' : SendData)
    (target message message' : string) (now : Z) :
  truthy_val (sd_targetUserId d) = Some target →
  truthy_val (sd_message d) = Some message →
  truthy_val (sd_targetUserId d') = Some target →
  truthy_val (sd_message d') = Some message' →
  slug message' = slug message →
  let w1 := (send_notification sid sk (Some d) now w).2 in
  send_notification sid' sk' (Some d') now w1
  = (Ok [emit (ToSocket sid') "notification-error"
           (NotificationError "Duplicate notification prevented"
              (Some (notificationId target now message)) None now)], w1).
Proof.
  intros Ht Hm Ht' Hm' Hslug w1.
  destruct (send_notification_marks sid sk d target message now w Ht Hm) as [t0 Hin].
  fold w1 in Hin. unfold send_notification at 1. rewrite Ht', Hm'.
  assert (notificationId target now message' = notificationId target now message) as ->.
  { unfold notificationId. now rewrite Hslug. }
  now rewrite (admit_known _ now t0 _ Hin).
Qed.

Lemma same_millisecond_repeat_is_refused_witness :
  let first := {| sd_targetUserId := Some "42";
                  sd_message := Some "Your order is ready at counter 1";
                  sd_type := None; sd_title := None |} in
  let second := {| sd_targetUserId := Some "42";
                   sd_message := Some "Your order is ready and waiting at counter 7";
                   sd_type := Some "warning"; sd_title := Some "Pickup" |} in
  let w1 := (send_notification "s1" {| s_userId := None; s_companyId := None |}
               (Some first) 1000 one_client).2 in
  send_notification "s2" {| s_userId := Some "7"; s_companyId := None |} (Some second) 1000 w1
  = (Ok [emit (ToSocket "s2") "notification-error"
           (NotificationError "Duplicate notification prevented"
              (Some (notificationId "42" 1000 "Your order is ready at counter 1"))
              None 1000)], w1).
Proof.
  apply (same_millisecond_repeat_is_refused one_client "s1" "s2" _ _ _ _
           "42" "Your order is ready at counter 1"
           "Your order is ready and waiting at counter 7" 1000);
    reflexivity.
Defined.

End DedupInHandlers.

Section IdentifierNamespaces.
Import Socket.

Lemma send_notification_cache (sid : string) (sk : SocketData) (data : option SendData)
    (now : Z) (w : World) :
  sentNotifications (send_notification sid sk data now w).2 = sentNotifications w ∨
  ∃ target message,
    sentNotifications (send_notification sid sk data now w).2
    = <[notificationId target now message := now]> (sentNotifications w).
Proof.
  unfold send_notification. destruct data as [d|]; [|now left].
  destruct (truthy_val (sd_targetUserId d)) as [target|]; [|now left].
  destruct (truthy_val (sd_message d)) as [message|]; [|now left].
  unfold admitId. destruct (sentNotifications w !! _); [now left|].
  right. exists target, message. destruct (0 <? _)%nat; reflexivity.
Qed.

Lemma broadcast_notification_cache (sid : string) (sk : SocketData)
    (data : option BroadcastData) (now : Z) (w : World) :
  sentNotifications (broadcast_notification sid sk data now w).2 = sentNotifications w ∨
  ∃ message,
    sentNotifications (broadcast_notification sid sk data now w).2
    = <[broadcastId now message := now]> (sentNotifications w).
Proof.
  unfold broadcast_notification. destruct data as [d|]; [|now left].
  destruct (truthy_val (bd_message d)) as [message|]; [|now left].
  unfold admitId. destruct (sentNotifications w !! _); [now left|].
  right. exists message. reflexivity.
Qed.

(** X3.  The two socket handlers never take an identifier of the
    server-side helpers: whatever [send-notification] or
    [broadcast-notification] did, the cache answers as before for every
    identifier of [sendToUser] and of [broadcastToAll], so no client can
    make a server-side send come back [null].  The helpers are not apart
    from each other: [sendToUser] for the user id 'broadcast' derives the
    identifier of [broadcastToAll], and within one millisecond a
    [broadcastToAll] of the same message after it returns [null]. *)
Theorem server_identifiers_out_of_reach_of_clients
    (w : World) (sid : string) (sk : SocketData) (now : Z) :
  (∀ (data : option SendData) (u m : string) (t : Z),
      let w' := (send_notification sid sk data now w).2 in
      sentNotifications w' !! serverNotificationId u t m
      = sentNotifications w !! serverNotificationId u t m ∧
      sentNotifications w' !! serverBroadcastId t m
      = sentNotifications w !! serverBroadcastId t m) ∧
  (∀ (data : option BroadcastData) (u m : string) (t : Z),
      let w' := (broadcast_notification sid sk data now w).2 in
      sentNotifications w' !! serverNotificationId u t m
      = sentNotifications w !! serverNotificationId u t m ∧
      sentNotifications w' !! serverBroadcastId t m
      = sentNotifications w !! serverBroadcastId t m) ∧
  (∀ (m : string) (type title type' title' : option string),
      (broadcastToAll (sendToUser (Some w) "broadcast" m type title now).2
         m type' title' now).1.1 = Ok None).
Proof.
  split; [|split].
  - intros data u m t w'. subst w'.
    destruct (send_notification_cache sid sk data now w) as [->|(target & message & ->)];
      [done|].
    split; apply lookup_insert_ne; discriminate.
  - intros data u m t w'. subst w'.
    destruct (broadcast_notification_cache sid sk data now w) as [->|(message & ->)];
      [done|].
    split; apply lookup_insert_ne; discriminate.
  - intros m type title type' title'. unfold sendToUser.
    change (serverNotificationId "broadcast" now m) with (serverBroadcastId now m).
    unfold admitId.
    destruct (sentNotifications w !! serverBroadcastId now m) as [t0|] eqn:E.
    + cbn [fst snd]. unfold broadcastToAll, admitId. now rewrite E.
    + destruct (0 <? _)%nat; cbn [fst snd]; unfold broadcastToAll, admitId;
        cbn [sentNotifications set_sent]; now rewrite lookup_insert_eq.
Qed.

End IdentifierNamespaces.

(** ** The registry: the user map and the waiter rooms *)

Section RegistryFurther.
Import Socket.

Lemma join_user_room_userSockets_inv (sid : string) (sk : SocketData)
    (userId : option string) (now : Z) (w : World) :
  sockets w !! sid = Some sk →
  registry_inv w → userSockets_inv w →
  userSockets_inv (join_user_room sid sk userId now w).2.
Proof.
  intros Hsk [Htruthy _] Hus.
  destruct (truthy_val userId) as [uid|] eqn:Huid.
  2:{ now rewrite join_user_room_rejected. }
  apply truthy_val_Some in Huid as [-> Huid].
  intros u sid'. rewrite join_user_room_userSockets, join_user_room_sockets by done.
  destruct (decide (uid = u)) as [<-|Hne].
  - rewrite lookup_insert_eq. intros [= <-]. rewrite lookup_insert_eq. eauto.
  - rewrite lookup_insert_ne by done. intros Hlook.
    assert (userSockets w !! u = Some sid'
            ∧ truthy_val (s_userId sk) ≠ Some u) as [Hold Hnot].
    { destruct (truthy_val (s_userId sk)) as [old|] eqn:E; [|done].
      apply lookup_delete_Some in Hlook as [? ?]. split; [done|]. congruence. }
    destruct (Hus u sid' Hold) as (sk0 & Hsk0 & Hu0).
    destruct (decide (sid = sid')) as [<-|Hsid].
    + exfalso. apply Hnot. rewrite Hsk in Hsk0. injection Hsk0 as <-.
      apply truthy_val_Some. split; [done|]. eapply Htruthy; eauto.
    + rewrite lookup_insert_ne by done. eauto.
Qed.

Lemma disconnect_userSockets_inv (sid : string) (sk : SocketData) (w : World) :
  sockets w !! sid = Some sk →
  registry_inv w → userSockets_inv w → userSockets_inv (disconnect sid sk w).2.
Proof.
  intros Hsk [Htruthy _] Hus u sid' Hlook.
  assert (userSockets w !! u = Some sid'
          ∧ truthy_val (s_userId sk) ≠ Some u) as [Hold Hnot].
  { unfold disconnect in Hlook.
    destruct (truthy_val (s_userId sk)) as [old|] eqn:E; cbn in Hlook; [|done].
    apply lookup_delete_Some in Hlook as [? ?]. split; [done|]. congruence. }
  destruct (Hus u sid' Hold) as (sk0 & Hsk0 & Hu0).
  assert (sockets (disconnect sid sk w).2 = delete sid (sockets w)) as ->.
  { unfold disconnect. destruct (truthy_val (s_userId sk)); reflexivity. }
  destruct (decide (sid = sid')) as [<-|Hsid].
  - exfalso. apply Hnot. rewrite Hsk in Hsk0. injection Hsk0 as <-.
    apply truthy_val_Some. split; [done|]. eapply Htruthy; eauto.
  - rewrite lookup_delete_ne by done. eauto.
Qed.

(** A handler that leaves the user map and the user ids of the sockets as
    they are keeps [userSockets_inv]. *)
Lemma userSockets_inv_transfer (w w' : World) :
  userSockets w' = userSockets w →
  (∀ sid u, (∃ sk, sockets w !! sid = Some sk ∧ s_userId sk = Some u)
            → (∃ sk, sockets w' !! sid = Some sk ∧ s_userId sk = Some u)) →
  userSockets_inv w → userSockets_inv w'.
Proof.
  intros Hus Hsk Hinv u sid Hlook. rewrite Hus in Hlook. apply Hsk. now apply Hinv.
Qed.

Lemma on_userSockets_inv (sid : string) (ev : ClientEvent) (now : Z) (w : World) :
  registry_inv w → userSockets_inv w → userSockets_inv (on sid ev now w).2.
Proof.
  intros Hreg Hus. destruct ev; cbn [on].
  - unfold connection. destruct (sockets w !! sid) as [sk|] eqn:Hsk; [done|].
    revert Hus. apply userSockets_inv_transfer; [done|].
    intros sid' u (sk & Hsk' & Hu). cbn.
    destruct (decide (sid = sid')) as [<-|Hne]; [congruence|].
    rewrite lookup_insert_ne by done. eauto.
  - destruct (sockets w !! sid) as [sk|] eqn:Hsk; [|done].
    now apply join_user_room_userSockets_inv.
  - destruct (sockets w !! sid) as [sk|] eqn:Hsk; [|done].
    destruct data as [[ouid ocid]|]; [|done].
    destruct (truthy_val ouid) as [uid|] eqn:Huid.
    2:{ rewrite join_company_room_rejected by (simpl; auto). done. }
    destruct (truthy_val ocid) as [cid|] eqn:Hcid.
    2:{ rewrite join_company_room_rejected by (simpl; auto). done. }
    apply truthy_val_Some in Huid as [-> Huid]. apply truthy_val_Some in Hcid as [-> Hcid].
    revert Hus. apply userSockets_inv_transfer.
    + unfold join_company_room. cbn [cj_userId cj_companyId].
      destruct (truthy_val (Some uid)); [|done]. destruct (truthy_val (Some cid)); [|done].
      destruct (truthy_val (s_companyId sk)); reflexivity.
    + intros sid' u (sk' & Hsk' & Hu). rewrite join_company_room_sockets by done.
      destruct (decide (sid = sid')) as [<-|Hne].
      * rewrite lookup_insert_eq. rewrite Hsk in Hsk'. injection Hsk' as <-. eauto.
      * rewrite lookup_insert_ne by done. eauto.
  - destruct (sockets w !! sid) as [sk|] eqn:Hsk; [|done].
    revert Hus. apply userSockets_inv_transfer.
    + unfold join_waiter_room. destruct (truthy_val companyId); reflexivity.
    + intros sid' u. now rewrite join_waiter_room_sockets.
  - destruct (sockets w !! sid) as [sk|] eqn:Hsk; [|done].
    destruct (send_notification_registry sid sk data now w) as (Hs & _ & Hu).
    revert Hus. apply userSockets_inv_transfer; [exact Hu|].
    intros sid' u. now rewrite Hs.
  - destruct (sockets w !! sid) as [sk|] eqn:Hsk; [|done].
    destruct (broadcast_notification_registry sid sk data now w) as (Hs & _ & Hu).
    revert Hus. apply userSockets_inv_transfer; [exact Hu|].
    intros sid' u. now rewrite Hs.
  - destruct (sockets w !! sid) as [sk|] eqn:Hsk; [|done].
    now apply disconnect_userSockets_inv.
Qed.

Lemma run_userSockets_inv (steps : list Step) (w : World) :
  registry_inv w → userSockets_inv w →
  registry_inv (run steps w) ∧ userSockets_inv (run steps w).
Proof.
  revert w. induction steps as [|s steps IH]; intros w Hreg Hus; [done|].
  apply IH; [now apply step_inv|].
  destruct s as [sid ev now|now|idle]; cbn [step]; [now apply on_userSockets_inv|..];
    revert Hus; now apply userSockets_inv_transfer.
Qed.

Lemma userSockets_inv_initial : userSockets_inv initial.
Proof. intros u sid H. change (userSockets initial) with (∅ : gmap string string) in H.
  now rewrite lookup_empty in H. Qed.

End RegistryFurther.

Section UserMap.
Import Socket.

(** A map that sends distinct keys to distinct members of a set has at
    most as many entries as the set has members. *)
Lemma size_injective_le (m : gmap string string) (S : gset string) :
  (∀ u sid, m !! u = Some sid → sid ∈ S) →
  (∀ u1 u2 sid, m !! u1 = Some sid → m !! u2 = Some sid → u1 = u2) →
  (size m <= size S)%nat.
Proof.
  revert S. induction m as [|u sid m Hfresh IH] using map_ind; intros S Hin Hinj.
  - rewrite map_size_empty. lia.
  - rewrite map_size_insert_None by done.
    assert (sid ∈ S) as Hsid by (apply (Hin u); apply lookup_insert_eq).
    assert (size m <= size (S ∖ {[sid]}))%nat as Hle.
    { apply IH.
      - intros u' sid' Hlook.
        assert (u ≠ u') as Hne by congruence.
        apply elem_of_difference. split.
        + apply (Hin u'). now rewrite lookup_insert_ne.
        + intros ->%elem_of_singleton. apply Hne.
          apply (Hinj u u' sid); [apply lookup_insert_eq | now rewrite lookup_insert_ne].
      - intros u1 u2 sid' H1 H2.
        assert (u ≠ u1) by congruence. assert (u ≠ u2) by congruence.
        apply (Hinj u1 u2 sid'); now rewrite lookup_insert_ne. }
    rewrite size_difference in Hle by set_solver. rewrite size_singleton in Hle.
    assert (1 <= size S)%nat; [|lia].
    rewrite <- (size_singleton (C := gset string) sid). apply subseteq_size. set_solver.
Qed.

(** X4.  In every state the server reaches, an entry of [userSockets]
    names a connected socket that carries the user id of the entry and
    sits in that user's room; so the map never points at a closed
    connection, and the [userCount] of [getConnectionStats] never exceeds
    its [clientsCount]. *)
Theorem userSockets_names_live_connections (steps : list Step) (now : Z) :
  let w := run steps initial in
  (∀ u sid, userSockets w !! u = Some sid →
            (∃ sk, sockets w !! sid = Some sk ∧ s_userId sk = Some u) ∧
            sid ∈ members (userRoom u) w) ∧
  match getConnectionStats (Some w) now with
  | Ok (StatsUp _ clients users _ _ _ _) => (users <= clients)%nat
  | _ => False
  end.
Proof.
  intros w.
  destruct (run_userSockets_inv steps initial registry_inv_initial userSockets_inv_initial)
    as [[Htruthy Hrooms] Hus].
  fold w in Htruthy, Hrooms, Hus. split.
  - intros u sid Hlook. split; [now apply Hus|]. apply Hrooms. now apply Hus.
  - cbn. unfold clientsCount. rewrite <- (size_dom (sockets w)).
    etrans; [|apply Nat.le_add_r].
    apply size_injective_le.
    + intros u sid Hlook. destruct (Hus u sid Hlook) as (sk & Hsk & _).
      apply elem_of_dom. eauto.
    + intros u1 u2 sid H1 H2.
      destruct (Hus u1 sid H1) as (sk1 & Hsk1 & Hu1).
      destruct (Hus u2 sid H2) as (sk2 & Hsk2 & Hu2). congruence.
Qed.

(** X5.  When a connected socket disconnects, nothing of it is left: it is
    in no room, it is not among the sockets, and no entry of [userSockets]
    names it. *)
Theorem disconnect_leaves_no_trace (steps : list Step) (sid : string) (now : Z) :
  is_Some (sockets (run steps initial) !! sid) →
  let w' := (on sid Disconnect now (run steps initial)).2 in
  (∀ room, sid ∉ members room w') ∧
  sockets w' !! sid = None ∧
  (∀ u, userSockets w' !! u ≠ Some sid).
Proof.
  intros [sk Hsk] w'.
  destruct (run_userSockets_inv (steps ++ [Client sid Disconnect now]) initial
              registry_inv_initial userSockets_inv_initial) as [_ Hus].
  unfold run in Hus. rewrite foldl_app in Hus. cbn [foldl step] in Hus.
  fold (run steps initial) in Hus. fold w' in Hus.
  assert (sockets w' !! sid = None) as Hgone.
  { subst w'. cbn [on]. rewrite Hsk. unfold disconnect.
    destruct (truthy_val (s_userId sk)); cbn; apply lookup_delete_eq. }
  split; [|split].
  - intros room. subst w'. cbn [on]. rewrite Hsk. unfold disconnect, members.
    destruct (truthy_val (s_userId sk)); cbn; rewrite elem_of_leaveAll; naive_solver.
  - exact Hgone.
  - intros u Hlook. destruct (Hus u sid Hlook) as (sk' & Hsk' & _). congruence.
Qed.

Lemma disconnect_leaves_no_trace_witness :
  let w' := (on "s1" Disconnect 2 joined_client).2 in
  (∀ room, "s1" ∉ members room w') ∧
  sockets w' !! "s1" = None ∧
  (∀ u, userSockets w' !! u ≠ Some "s1").
Proof.
  apply (disconnect_leaves_no_trace
           [Client "s1" Connection 0; Client "s1" (JoinUserRoom (Some "42")) 1] "s1" 2).
  vm_compute. eauto.
Defined.

End UserMap.

Section WaiterRooms.
Import Socket.

Lemma on_waiters_inv (sid : string) (ev : ClientEvent) (now : Z) (w : World) :
  waiters_inv w → waiters_inv (on sid ev now w).2.
Proof.
  intros Hinv.
  assert (∀ u c, waiterRoom c ≠ userRoom u) as Hwu by discriminate.
  assert (∀ u, "waiters" ≠ userRoom u) as Hgu by discriminate.
  assert (∀ u c, waiterRoom c ≠ companyRoom u) as Hwc by discriminate.
  assert (∀ u, "waiters" ≠ companyRoom u) as Hgc by discriminate.
  assert (∀ c, "waiters" ≠ waiterRoom c) as Hgw by discriminate.
  destruct ev; cbn [on].
  - unfold connection. destruct (sockets w !! sid); exact Hinv.
  - destruct (sockets w !! sid) as [sk|] eqn:Hsk; [|done].
    destruct (truthy_val userId) as [uid|] eqn:Huid.
    2:{ now rewrite join_user_room_rejected. }
    apply truthy_val_Some in Huid as [-> Huid].
    intros sid' c. rewrite !join_user_room_members by done.
    intros [[Heq _]|[Hin _]]; [now apply Hwu in Heq|].
    right. split; [now apply (Hinv sid' c)|]. intros (old & _ & Heq & _). now apply Hgu in Heq.
  - destruct (sockets w !! sid) as [sk|] eqn:Hsk; [|done].
    destruct data as [[ouid ocid]|]; [|done].
    destruct (truthy_val ouid) as [uid|] eqn:Huid.
    2:{ rewrite join_company_room_rejected by (simpl; auto). done. }
    destruct (truthy_val ocid) as [cid|] eqn:Hcid.
    2:{ rewrite join_company_room_rejected by (simpl; auto). done. }
    apply truthy_val_Some in Huid as [-> Huid]. apply truthy_val_Some in Hcid as [-> Hcid].
    intros sid' c. rewrite !join_company_room_members by done.
    intros [[Heq _]|[Hin _]]; [now apply Hwc in Heq|].
    right. split; [now apply (Hinv sid' c)|]. intros (old & _ & Heq & _). now apply Hgc in Heq.
  - destruct (sockets w !! sid) as [sk|] eqn:Hsk; [|done].
    intros sid' c. rewrite !join_waiter_room_members.
    intros [[Heq _]|[(cid & _ & _ & ->)|Hin]].
    + symmetry in Heq. now apply Hgw in Heq.
    + now left.
    + right. right. now apply (Hinv sid' c).
  - destruct (sockets w !! sid) as [sk|] eqn:Hsk; [|done].
    destruct (send_notification_registry sid sk data now w) as (_ & Hr & _).
    intros sid' c. unfold members. rewrite Hr. apply Hinv.
  - destruct (sockets w !! sid) as [sk|] eqn:Hsk; [|done].
    destruct (broadcast_notification_registry sid sk data now w) as (_ & Hr & _).
    intros sid' c. unfold members. rewrite Hr. apply Hinv.
  - destruct (sockets w !! sid) as [sk|] eqn:Hsk; [|done].
    intros sid' c. unfold disconnect, members.
    destruct (truthy_val (s_userId sk)); cbn; rewrite !elem_of_leaveAll;
      intros [Hin Hne]; (split; [now apply (Hinv sid' c) | done]).
Qed.

Lemma run_waiters_inv (steps : list Step) (w : World) :
  waiters_inv w → waiters_inv (run steps w).
Proof.
  revert w. induction steps as [|s steps IH]; intros w Hinv; [done|].
  apply IH. destruct s as [sid ev now|now|idle]; cbn [step]; [now apply on_waiters_inv|..];
    exact Hinv.
Qed.

Lemma waiters_inv_initial : waiters_inv initial.
Proof.
  intros sid c. unfold members.
  change (rooms initial) with (∅ : gmap string (gset string)).
  rewrite lookup_empty. set_solver.
Qed.

(** X6.  In every state the server reaches, a connection in the waiter
    room of a company is in the room [waiters] too; so the [customer-bell]
    of a [call-waiter], which carries no company, rings the waiters of
    every company. *)
Theorem call_waiter_rings_every_company
    (steps : list Step) (waiter company caller : string) (d : CallWaiter) (now : Z) :
  waiter ∈ members (waiterRoom company) (run steps initial) →
  waiter ∈ members "waiters" (run steps initial) ∧
  ∃ bell, (call_waiter caller (Some d) now).1 !! 0%nat = Some bell ∧
          r_event bell = "customer-bell" ∧
          waiter ∈ recipients (r_target bell) (run steps initial).
Proof.
  intros Hin.
  pose proof (run_waiters_inv steps initial waiters_inv_initial waiter company Hin) as Hall.
  split; [exact Hall|]. eexists. split; [reflexivity|]. split; [reflexivity|]. exact Hall.
Qed.

Lemma call_waiter_rings_every_company_witness :
  "s1" ∈ members "waiters" company_waiter ∧
  ∃ bell, (call_waiter "s9" (Some {| cw_tableId := Some "5"; cw_tableName := None;
                                     cw_userName := None |}) 3).1 !! 0%nat = Some bell ∧
          r_event bell = "customer-bell" ∧
          "s1" ∈ recipients (r_target bell) company_waiter.
Proof.
  apply (call_waiter_rings_every_company
           [Client "s1" Connection 0; Client "s1" (JoinWaiterRoom (Some "A")) 1]
           "s1" "A" "s9" _ 3).
  vm_compute. set_solver.
Defined.

(** X7.  A [cancel-call-request] that carries a company id is emitted to
    [waiters] and to the waiter room of the company: a waiter of that
    company is pushed the [request-cancelled] event twice, a waiter of
    another company once. *)
Theorem cancel_reaches_company_waiters_twice
    (steps : list Step) (company request : string) :
  company ≠ "" →
  let w := run steps initial in
  let out := (cancel_call_request
                (Some {| cr_companyId := Some company; cr_request := request |})).1 in
  (∀ waiter, waiter ∈ members (waiterRoom company) w → deliveries waiter w out = 2%nat) ∧
  (∀ waiter, waiter ∈ members "waiters" w → waiter ∉ members (waiterRoom company) w →
             deliveries waiter w out = 1%nat).
Proof.
  intros Hc w out. subst out. unfold cancel_call_request. cbn [cr_companyId cr_request].
  assert (truthy_val (Some company) = Some company) as -> by (apply truthy_val_Some; done).
  cbn [fst]. unfold deliveries. split.
  - intros waiter Hin.
    pose proof (run_waiters_inv steps initial waiters_inv_initial waiter company Hin) as Hall.
    fold w in Hall.
    rewrite filter_cons_True by exact Hall.
    rewrite filter_cons_True by exact Hin. reflexivity.
  - intros waiter Hall Hnot.
    rewrite filter_cons_True by exact Hall.
    rewrite filter_cons_False by exact Hnot. reflexivity.
Qed.

Lemma cancel_reaches_company_waiters_twice_witness :
  let out := (cancel_call_request
                (Some {| cr_companyId := Some "A"; cr_request := "{}" |})).1 in
  (∀ waiter, waiter ∈ members (waiterRoom "A") company_waiter →
             deliveries waiter company_waiter out = 2%nat) ∧
  (∀ waiter, waiter ∈ members "waiters" company_waiter →
             waiter ∉ members (waiterRoom "A") company_waiter →
             deliveries waiter company_waiter out = 1%nat).
Proof.
  apply (cancel_reaches_company_waiters_twice
           [Client "s1" Connection 0; Client "s1" (JoinWaiterRoom (Some "A")) 1] "A" "{}").
  discriminate.
Defined.

End WaiterRooms.

Section Rejoin.
Import Socket.

Implicit Types (r : gmap string (gset string)) (sid room : string).

Lemma lookup_join sid room r room' :
  join sid room r !! room'
  = if decide (room = room') then Some ({[sid]} ∪ default ∅ (r !! room)) else r !! room'.
Proof.
  unfold join. destruct (decide (room = room')) as [->|Hne].
  - apply lookup_insert_eq.
  - now apply lookup_insert_ne.
Qed.

Lemma lookup_leave_ne sid room r room' :
  room ≠ room' → leave sid room r !! room' = r !! room'.
Proof.
  intros Hne. unfold leave. destruct (r !! room) as [m|]; [|done].
  destruct (decide (m ∖ {[sid]} = ∅)).
  - now apply lookup_delete_ne.
  - now apply lookup_insert_ne.
Qed.

Lemma join_leave_same sid room r : join sid room (leave sid room r) = join sid room r.
Proof.
  apply map_eq. intros room'. rewrite !lookup_join.
  destruct (decide (room = room')) as [->|Hne]; [|now apply lookup_leave_ne].
  f_equal. apply set_eq. intros x.
  rewrite !elem_of_union, elem_of_leave, !elem_of_singleton.
  destruct (decide (x = sid)); naive_solver.
Qed.

Lemma join_join_same sid room r : join sid room (join sid room r) = join sid room r.
Proof.
  apply map_eq. intros room'. rewrite !lookup_join.
  destruct (decide (room = room')) as [->|Hne]; [|done].
  rewrite decide_True by done. f_equal. simpl. set_solver.
Qed.

Lemma join_comm sid (room1 room2 : string) r :
  join sid room1 (join sid room2 r) = join sid room2 (join sid room1 r).
Proof.
  apply map_eq. intros room'. rewrite !lookup_join.
  repeat case_decide; subst; simpl; try done; f_equal; set_solver.
Qed.

Lemma world_eq (w1 w2 : World) :
  sockets w1 = sockets w2 → rooms w1 = rooms w2 →
  userSockets w1 = userSockets w2 → sentNotifications w1 = sentNotifications w2 →
  idleTransports w1 = idleTransports w2 →
  w1 = w2.
Proof. destruct w1, w2. cbn. now intros -> -> -> -> ->. Qed.

Lemma join_user_room_rooms (sid : string) (sk : SocketData) (uid : string)
    (now : Z) (w : World) :
  uid ≠ "" →
  rooms (join_user_room sid sk (Some uid) now w).2
  = join sid (userRoom uid)
      (match truthy_val (s_userId sk) with
       | Some old => leave sid (userRoom old) (rooms w)
       | None => rooms w
       end) ∧
  sentNotifications (join_user_room sid sk (Some uid) now w).2 = sentNotifications w.
Proof.
  intros Huid. unfold join_user_room.
  assert (truthy_val (Some uid) = Some uid) as -> by (apply truthy_val_Some; done).
  destruct (truthy_val (s_userId sk)); split; reflexivity.
Qed.

Lemma join_company_room_rooms (sid : string) (sk : SocketData) (uid cid : string)
    (now : Z) (w : World) :
  uid ≠ "" → cid ≠ "" →
  let w' := (join_company_room sid sk
               (Some {| cj_userId := Some uid; cj_companyId := Some cid |}) now w).2 in
  rooms w'
  = join sid (companyRoom cid)
      (match truthy_val (s_companyId sk) with
       | Some old => leave sid (companyRoom old) (rooms w)
       | None => rooms w
       end) ∧
  userSockets w' = userSockets w ∧ sentNotifications w' = sentNotifications w.
Proof.
  intros Huid Hcid. unfold join_company_room. cbn [cj_userId cj_companyId].
  assert (truthy_val (Some uid) = Some uid) as -> by (apply truthy_val_Some; done).
  assert (truthy_val (Some cid) = Some cid) as -> by (apply truthy_val_Some; done).
  destruct (truthy_val (s_companyId sk)); repeat split; reflexivity.
Qed.

Lemma join_user_room_idle (sid : string) (sk : SocketData) (userId : option string)
    (now : Z) (w : World) :
  idleTransports (join_user_room sid sk userId now w).2 = idleTransports w.
Proof.
  unfold join_user_room. destruct (truthy_val userId); [|reflexivity].
  now destruct (truthy_val (s_userId sk)).
Qed.

Lemma join_company_room_idle (sid : string) (sk : SocketData) (data : option CompanyJoin)
    (now : Z) (w : World) :
  idleTransports (join_company_room sid sk data now w).2 = idleTransports w.
Proof.
  unfold join_company_room. destruct data as [d|]; [|reflexivity].
  destruct (truthy_val (cj_userId d)), (truthy_val (cj_companyId d)); try reflexivity.
  now destruct (truthy_val (s_companyId sk)).
Qed.

(** X8.  Joining again is a no-op: a [join-user-room], [join-company-room]
    or [join-waiter-room] repeated on the same socket with the same payload
    leaves the state the first one left. *)
Theorem rejoin_changes_nothing (w : World) (sid : string) (ev : ClientEvent) (now1 now2 : Z) :
  (∃ userId, ev = JoinUserRoom userId) ∨ (∃ data, ev = JoinCompanyRoom data)
  ∨ (∃ companyId, ev = JoinWaiterRoom companyId) →
  run [Client sid ev now1; Client sid ev now2] w = run [Client sid ev now1] w.
Proof.
  intros Hev. unfold run. cbn [foldl step].
  destruct (sockets w !! sid) as [sk|] eqn:Hsk.
  2:{ destruct Hev as [[x ->]|[[x ->]|[x ->]]]; cbn [on]; rewrite Hsk; cbn [snd];
        now rewrite Hsk. }
  destruct Hev as [[userId ->]|[[data ->]|[companyId ->]]]; cbn [on]; rewrite Hsk.
  - destruct (truthy_val userId) as [uid|] eqn:Huid.
    2:{ rewrite join_user_room_rejected by done. cbn [snd]. rewrite Hsk.
        now rewrite join_user_room_rejected. }
    apply truthy_val_Some in Huid as [-> Huid].
    set (w1 := (join_user_room sid sk (Some uid) now1 w).2).
    assert (sockets w1 !! sid
            = Some {| s_userId := Some uid; s_companyId := s_companyId sk |}) as Hsk1.
    { subst w1. rewrite join_user_room_sockets by done. apply lookup_insert_eq. }
    rewrite Hsk1.
    assert (truthy_val (Some uid) = Some uid) as Ht by (apply truthy_val_Some; done).
    apply world_eq.
    + rewrite join_user_room_sockets by done. subst w1.
      rewrite join_user_room_sockets by done. cbn [s_companyId].
      apply insert_insert_eq.
    + rewrite (proj1 (join_user_room_rooms _ _ _ _ _ Huid)). cbn [s_userId]. rewrite Ht.
      subst w1. rewrite (proj1 (join_user_room_rooms _ _ _ _ _ Huid)).
      now rewrite join_leave_same, join_join_same.
    + rewrite join_user_room_userSockets by done. cbn [s_userId]. rewrite Ht.
      subst w1. rewrite join_user_room_userSockets by done.
      now rewrite insert_delete_eq, insert_insert_eq.
    + rewrite (proj2 (join_user_room_rooms _ _ _ _ _ Huid)). reflexivity.
    + apply join_user_room_idle.
  - destruct data as [[ouid ocid]|]; [|cbn [join_company_room snd]; now rewrite Hsk].
    destruct (truthy_val ouid) as [uid|] eqn:Huid.
    2:{ rewrite join_company_room_rejected by (simpl; auto). cbn [snd]. rewrite Hsk.
        now rewrite join_company_room_rejected by (simpl; auto). }
    destruct (truthy_val ocid) as [cid|] eqn:Hcid.
    2:{ rewrite join_company_room_rejected by (simpl; auto). cbn [snd]. rewrite Hsk.
        now rewrite join_company_room_rejected by (simpl; auto). }
    apply truthy_val_Some in Huid as [-> Huid]. apply truthy_val_Some in Hcid as [-> Hcid].
    set (w1 := (join_company_room sid sk _ now1 w).2).
    assert (sockets w1 !! sid
            = Some {| s_userId := s_userId sk; s_companyId := Some cid |}) as Hsk1.
    { subst w1. rewrite join_company_room_sockets by done. apply lookup_insert_eq. }
    rewrite Hsk1.
    assert (truthy_val (Some cid) = Some cid) as Ht by (apply truthy_val_Some; done).
    destruct (join_company_room_rooms sid sk uid cid now1 w Huid Hcid) as (Hr1 & Hu1 & Hs1).
    fold w1 in Hr1, Hu1, Hs1.
    destruct (join_company_room_rooms sid
                {| s_userId := s_userId sk; s_companyId := Some cid |} uid cid now2 w1
                Huid Hcid) as (Hr2 & Hu2 & Hs2).
    cbn [s_companyId] in Hr2. rewrite Ht in Hr2.
    apply world_eq.
    + rewrite join_company_room_sockets by done. subst w1.
      rewrite join_company_room_sockets by done. cbn [s_userId].
      apply insert_insert_eq.
    + rewrite Hr2, Hr1. now rewrite join_leave_same, join_join_same.
    + exact Hu2.
    + exact Hs2.
    + apply join_company_room_idle.
  - set (w1 := (join_waiter_room sid companyId w).2).
    assert (sockets w1 !! sid = Some sk) as ->.
    { subst w1. now rewrite join_waiter_room_sockets. }
    subst w1. unfold join_waiter_room.
    destruct (truthy_val companyId) as [cid|]; apply world_eq; try reflexivity;
      cbn [snd rooms set_rooms].
    + rewrite (join_comm sid (waiterRoom cid) "waiters"), join_join_same.
      now rewrite join_join_same.
    + apply join_join_same.
Qed.

End Rejoin.

Section Rejoined.
Import Socket.

Lemma rejoin_changes_nothing_witness :
  run [Client "s1" (JoinUserRoom (Some "42")) 1; Client "s1" (JoinUserRoom (Some "42")) 2]
    one_client
  = run [Client "s1" (JoinUserRoom (Some "42")) 1] one_client.
Proof.
  apply (rejoin_changes_nothing one_client "s1" (JoinUserRoom (Some "42")) 1 2).
  left. eexists. reflexivity.
Defined.

End Rejoined.

(** ** The HTTP endpoints that relay *)

Section ServerRelays.
Import Socket Server.


End ServerRelays.

(** ** The subscription endpoints *)

Section PageFacts.
Import Pages.
Import Database(Subscription).





(** On user ids that are texts the file is the store of [Database]. *)
Lemma of_db_filter (uid : string) (db : Database.Db) :
  filter (λ sub, saved_userId sub ≠ IdText uid) (of_db db)
  = of_db (filter (λ e, Database.userId e ≠ uid) db).
Proof.
  induction db as [|e db IH]; [reflexivity|].
  change (of_db (e :: db)) with (of_db [e] ++ of_db db).
  destruct (decide (Database.userId e = uid)) as [He|He].
  - rewrite (filter_cons_False (λ e, Database.userId e ≠ uid))
      by (intros Hn; now apply Hn).
    cbn [of_db fmap list_fmap app]. rewrite filter_cons_False; [exact IH|].
    cbn [saved_userId]. intros Hn. apply Hn. now rewrite He.
  - rewrite (filter_cons_True (λ e, Database.userId e ≠ uid)) by done.
    cbn [of_db fmap list_fmap app]. rewrite filter_cons_True; [now rewrite IH|].
    cbn [saved_userId]. congruence.
Qed.

Lemma of_db_add (now : Z) (uid : string) (sub : Subscription) (db : Database.Db) :
  addSubscription now (IdText uid) sub (of_db db)
  = (sub, of_db (Database.addSubscription now uid sub db).2).
Proof.
  unfold addSubscription, Database.addSubscription. cbn [snd].
  rewrite of_db_filter. unfold of_db. now rewrite fmap_app.
Qed.

Lemma of_db_get (uid : string) (db : Database.Db) :
  saved_subscription <$> getSubscription (IdText uid) (of_db db)
  = Database.subscription <$> Database.getSubscription uid db.
Proof.
  unfold getSubscription, Database.getSubscription.
  induction db as [|e db IH]; [reflexivity|].
  cbn [of_db fmap list_fmap List.find saved_userId].
  destruct (decide (Database.userId e = uid)) as [He|He].
  - rewrite !bool_decide_eq_true_2 by congruence. reflexivity.
  - rewrite !bool_decide_eq_false_2 by congruence. exact IH.
Qed.



End PageFacts.

(** ** The hybrid layer, further *)

Section HybridFurther.
Import Eff HybridDatabase.
Import Database(Subscription).

(** One queued operation never throws, and touches neither the flag, nor
    the queue, nor the JSON store. *)
Lemma sync_one_frame (now : Z) (op : Operation) (s : State) :
  ∃ s', sync_one now op s = (Ok tt, s') ∧
        isOnline s' = isOnline s ∧ syncQueue s' = syncQueue s ∧ jsonDB s' = jsonDB s.
Proof.
  unfold sync_one, try_catch, bind, mysql, lift, ret. destruct op as [uid sub t|uid t].
  - destruct (MysqlDatabase.addSubscription now uid sub (mysqlDB s)) as [[a|e] st];
      eexists; (split; [reflexivity|]); done.
  - destruct (MysqlDatabase.removeSubscription uid (mysqlDB s)) as [[a|e] st];
      eexists; (split; [reflexivity|]); done.
Qed.

Lemma sync_loop_frame (now : Z) (queue : list Operation) (s : State) :
  ∃ s', for_each queue (sync_one now) s = (Ok tt, s') ∧
        isOnline s' = isOnline s ∧ syncQueue s' = syncQueue s ∧ jsonDB s' = jsonDB s.
Proof.
  revert s. induction queue as [|op queue IH]; intros s.
  - exists s. done.
  - destruct (sync_one_frame now op s) as (s1 & E1 & Ho1 & Hq1 & Hj1).
    destruct (IH s1) as (s2 & E2 & Ho2 & Hq2 & Hj2).
    exists s2. cbn [for_each]. unfold bind at 1. rewrite E1, E2.
    split; [reflexivity|]. split; [congruence|]. split; congruence.
Qed.

(** A queued operation whose connection is refused leaves the table. *)
Lemma sync_one_refused (now : Z) (op : Operation) (s : State) (rest : list bool) :
  MysqlDatabase.script (mysqlDB s) = false :: rest →
  ∃ s', sync_one now op s = (Ok tt, s') ∧ table s' = table s ∧
        MysqlDatabase.script (mysqlDB s') = rest.
Proof.
  intros Hs. destruct s as [online queue json [rows next fs]]. cbn in Hs. subst fs.
  destruct op; eexists; (split; [reflexivity|]); done.
Qed.

Lemma sync_loop_refused (now : Z) (queue : list Operation) (s : State) (rest : list bool) :
  MysqlDatabase.script (mysqlDB s) = replicate (length queue) false ++ rest →
  ∃ s', for_each queue (sync_one now) s = (Ok tt, s') ∧ table s' = table s.
Proof.
  revert s. induction queue as [|op queue IH]; intros s Hs.
  - exists s. done.
  - cbn [length replicate] in Hs.
    destruct (sync_one_refused now op s _ Hs) as (s1 & E1 & Ht1 & Hs1).
    destruct (IH s1 Hs1) as (s2 & E2 & Ht2).
    exists s2. cbn [for_each]. unfold bind at 1. rewrite E1, E2.
    split; [reflexivity | congruence].
Qed.

(** A connection test that succeeds consumes its two round trips. *)
Lemma testConnection_probe_up (st : MysqlDatabase.State) :
  probe (MysqlDatabase.script st) = true →
  MysqlDatabase.testConnection st
  = (Ok true, {| MysqlDatabase.rows := MysqlDatabase.rows st;
                 MysqlDatabase.auto_increment := MysqlDatabase.auto_increment st;
                 MysqlDatabase.script := tail (tail (MysqlDatabase.script st)) |}).
Proof.
  destruct st as [rows next fs]. cbn [MysqlDatabase.script].
  destruct fs as [|[|] [|[|] rest]]; intros H; try discriminate H; reflexivity.
Qed.

(** The health check that finds MySQL back: the queue is walked once and
    cleared, whatever the replayed operations met. *)
Lemma checkMySQLHealth_back (now : Z) (s : State) :
  isOnline s = false →
  probe (MysqlDatabase.script (mysqlDB s)) = true →
  ∃ st, checkMySQLHealth now s = (Ok true, st) ∧
        syncQueue st = [] ∧ isOnline st = true ∧ jsonDB st = jsonDB s ∧
        (tail (tail (MysqlDatabase.script (mysqlDB s)))
         = replicate (length (syncQueue s)) false → table st = table s).
Proof.
  intros Hoff Hprobe.
  unfold checkMySQLHealth, try_catch. unfold bind at 1. unfold mysql at 1, lift.
  rewrite testConnection_probe_up by exact Hprobe.
  unfold bind at 1. unfold gets at 1.
  change (isOnline (set_mysqlDB _ s)) with (isOnline s).
  rewrite Hoff. cbn [negb andb].
  unfold bind at 1. unfold modify at 1.
  unfold bind at 1. unfold syncOfflineData.
  unfold bind at 1. unfold gets at 1. unfold bind at 1. unfold gets at 1.
  cbn [set_isOnline isOnline syncQueue negb orb set_mysqlDB].
  destruct (syncQueue s) as [|op queue] eqn:Hq.
  - eexists. split; [reflexivity|]. cbn. rewrite Hq. done.
  - cbn [length Nat.eqb].
    unfold bind at 1.
    match goal with |- context [for_each ?q _ ?s1] =>
      destruct (sync_loop_frame now q s1) as (st & E & Ho & Hs & Hj);
      pose proof (sync_loop_refused now q s1 []) as Hrefused end.
    rewrite E. cbn in Ho, Hj. cbn. rewrite Ho.
    eexists. split; [reflexivity|]. cbn.
    split; [done|]. split; [exact Ho|]. split; [exact Hj|].
    intros Htail.
    destruct Hrefused as (st' & E' & Ht').
    { cbn [mysqlDB MysqlDatabase.script]. rewrite Htail, app_nil_r. reflexivity. }
    rewrite E in E'. injection E' as <-. exact Ht'.
Qed.

(** X11.  A health check that finds MySQL back after a failure empties the
    sync queue whatever becomes of the replayed operations: an operation
    MySQL refuses is logged and gone.  When MySQL answers the connection
    test and then refuses the connection of every replayed operation, the
    queue is empty afterwards and the table is as it was. *)
Theorem replay_empties_the_queue_whatever_fails (s : State) (now : Z) :
  isOnline s = false →
  (∀ fs, probe fs = true →
         let s' := invoke s {| call := CallHealthCheck; at_time := now; outcomes := fs |} in
         syncQueue s' = [] ∧ isOnline s' = true ∧ jsonDB s' = jsonDB s ∧
         ∀ later, getSystemStatus later s' = (true, true, 0%nat, later)) ∧
  (let fs := [true; true] ++ replicate (length (syncQueue s)) false in
   let s' := invoke s {| call := CallHealthCheck; at_time := now; outcomes := fs |} in
   syncQueue s' = [] ∧ table s' = table s).
Proof.
  intros Hoff. split.
  - intros fs Hprobe s'. subst s'. unfold invoke. cbn [call at_time outcomes].
    destruct (checkMySQLHealth_back now (with_outcomes fs s))
      as (st & E & Hq & Ho & Hj & _); [exact Hoff | exact Hprobe |].
    rewrite E. cbn [snd]. unfold getSystemStatus. rewrite Hq, Ho. done.
  - intros fs s'. subst s'. unfold invoke. cbn [call at_time outcomes].
    destruct (checkMySQLHealth_back now (with_outcomes fs s))
      as (st & E & Hq & Ho & Hj & Ht); [exact Hoff | reflexivity |].
    rewrite E. cbn [snd]. split; [exact Hq|]. now apply Ht.
Qed.

Lemma replay_empties_the_queue_whatever_fails_witness :
  syncQueue (invoke (invoke initial offline_add)
               {| call := CallHealthCheck; at_time := 4; outcomes := [true; true; false] |})
  = [] ∧
  table (invoke (invoke initial offline_add)
           {| call := CallHealthCheck; at_time := 4; outcomes := [true; true; false] |})
  = table initial.
Proof.
  exact (proj2 (replay_empties_the_queue_whatever_fails
                  (invoke initial offline_add) 4 eq_refl)).
Defined.

(** The health check of a layer that is online: no replay, whatever the
    connection test answers. *)
Lemma checkMySQLHealth_online (now : Z) (s : State) :
  isOnline s = true →
  ∃ fs, checkMySQLHealth now s
        = (Ok (probe (MysqlDatabase.script (mysqlDB s))),
           set_isOnline (probe (MysqlDatabase.script (mysqlDB s)))
             (set_mysqlDB {| MysqlDatabase.rows := MysqlDatabase.rows (mysqlDB s);
                             MysqlDatabase.auto_increment :=
                               MysqlDatabase.auto_increment (mysqlDB s);
                             MysqlDatabase.script := fs |} s)) ∧
        (MysqlDatabase.all_through (MysqlDatabase.script (mysqlDB s)) →
         MysqlDatabase.all_through fs).
Proof.
  intros Hon. destruct (probe (MysqlDatabase.script (mysqlDB s))) eqn:Hprobe.
  - exists (tail (tail (MysqlDatabase.script (mysqlDB s)))). split.
    + unfold checkMySQLHealth, try_catch. unfold bind at 1. unfold mysql at 1, lift.
      rewrite testConnection_probe_up by exact Hprobe.
      unfold bind at 1. unfold gets at 1.
      change (isOnline (set_mysqlDB _ s)) with (isOnline s).
      rewrite Hon. reflexivity.
    + intros H. now do 2 apply all_through_tail.
  - destruct (checkMySQLHealth_down now s Hprobe) as [fs E].
    exists fs. split; [exact E|].
    intros H. exfalso.
    destruct (MysqlDatabase.script (mysqlDB s)) as [|b1 [|b2 rest]];
      [discriminate Hprobe | |].
    + inversion H as [|? ? Hb1 ?]; subst. discriminate Hprobe.
    + inversion H as [|? ? Hb1 H']; subst.
      inversion H' as [|? ? Hb2 ?]; subst. discriminate Hprobe.
Qed.

(** [syncOfflineData] of an online layer when MySQL answers. *)
Lemma syncOfflineData_through (now : Z) (s : State) :
  isOnline s = true →
  MysqlDatabase.all_through (MysqlDatabase.script (mysqlDB s)) →
  ∃ fs, MysqlDatabase.all_through fs ∧
        syncOfflineData now s
        = (Ok tt,
           {| isOnline := true; syncQueue := []; jsonDB := jsonDB s;
              mysqlDB :=
                {| MysqlDatabase.rows := (replay now (syncQueue s) (table s)).1;
                   MysqlDatabase.auto_increment := (replay now (syncQueue s) (table s)).2;
                   MysqlDatabase.script := fs |} |}).
Proof.
  intros Hon Hfs. unfold syncOfflineData.
  unfold bind at 1. unfold gets at 1. unfold bind at 1. unfold gets at 1.
  rewrite Hon. cbn [negb orb].
  destruct (syncQueue s) as [|op queue] eqn:Hq.
  - exists (MysqlDatabase.script (mysqlDB s)). split; [exact Hfs|].
    destruct s as [online q json [rows next fs]]. cbn in *. now subst.
  - cbn [length Nat.eqb]. unfold bind at 1.
    destruct (sync_loop_through now (op :: queue) s Hfs) as (fs' & Hfs' & E).
    rewrite E. exists fs'. split; [exact Hfs'|].
    cbn. unfold set_syncQueue, set_mysqlDB. cbn. now rewrite Hon.
Qed.

(** X12.  [forcSync] is the one entry point that replays the queue of a
    layer that is already online.  From any state, when MySQL answers every
    round trip, it reports success, the queue is empty and the table is the
    old one with the queue replayed in order; when the connection test
    fails it reports failure and neither the queue, nor the table, nor the
    JSON store has changed. *)
Theorem forcSync_drains_the_queue (s : State) (now : Z) (fs : list bool) :
  (MysqlDatabase.all_through fs →
   (forcSync now (with_outcomes fs s)).1 = Ok true ∧
   syncQueue (forcSync now (with_outcomes fs s)).2 = [] ∧
   table (forcSync now (with_outcomes fs s)).2 = replay now (syncQueue s) (table s) ∧
   isOnline (forcSync now (with_outcomes fs s)).2 = true ∧
   jsonDB (forcSync now (with_outcomes fs s)).2 = jsonDB s) ∧
  (probe fs = false →
   (forcSync now (with_outcomes fs s)).1 = Ok false ∧
   syncQueue (forcSync now (with_outcomes fs s)).2 = syncQueue s ∧
   table (forcSync now (with_outcomes fs s)).2 = table s ∧
   isOnline (forcSync now (with_outcomes fs s)).2 = false ∧
   jsonDB (forcSync now (with_outcomes fs s)).2 = jsonDB s).
Proof.
  set (out := forcSync now (with_outcomes fs s)).
  split.
  - intros Hfs.
    enough (∃ st, out = (Ok true, st) ∧ syncQueue st = [] ∧
                  table st = replay now (syncQueue s) (table s) ∧
                  isOnline st = true ∧ jsonDB st = jsonDB s)
      as (st & -> & H); [split; [reflexivity | exact H]|].
    subst out. unfold forcSync. unfold bind at 1.
    destruct (isOnline s) eqn:Hon.
    + destruct (checkMySQLHealth_online now (with_outcomes fs s) Hon)
        as (fs1 & E & Hfs1).
      rewrite E.
      assert (probe (MysqlDatabase.script (mysqlDB (with_outcomes fs s))) = true)
        as ->.
      { cbn. destruct Hfs as [|b1 [|b2 rest] -> H']; [done..|].
        inversion H' as [|? ? -> ?]. reflexivity. }
      unfold bind at 1.
      match goal with |- context [syncOfflineData now ?s1] =>
        destruct (syncOfflineData_through now s1) as (fs2 & Hfs2 & E2);
          [reflexivity | apply Hfs1; exact Hfs | rewrite E2] end.
      eexists. split; [reflexivity|]. cbn. unfold table. cbn.
      repeat split; first [done | now rewrite <- surjective_pairing].
    + destruct (checkMySQLHealth_up now (with_outcomes fs s) Hon Hfs)
        as (fs1 & Hfs1 & E).
      rewrite E. unfold bind at 1.
      match goal with |- context [syncOfflineData now ?s1] =>
        destruct (syncOfflineData_through now s1) as (fs2 & Hfs2 & E2);
          [reflexivity | exact Hfs1 | rewrite E2] end.
      eexists. split; [reflexivity|]. cbn. unfold table. cbn.
      repeat split; first [done | now rewrite <- surjective_pairing].
  - intros Hprobe.
    enough (∃ st, out = (Ok false, st) ∧ syncQueue st = syncQueue s ∧
                  table st = table s ∧ isOnline st = false ∧ jsonDB st = jsonDB s)
      as (st & -> & H); [split; [reflexivity | exact H]|].
    subst out. unfold forcSync. unfold bind at 1.
    destruct (checkMySQLHealth_down now (with_outcomes fs s) Hprobe) as [fs1 E].
    rewrite E. eexists. split; [reflexivity|]. done.
Qed.

(** A call into MySQL leaves the queue, the flag and the JSON store. *)
Lemma mysql_frame {A} (m : M MysqlDatabase.State A) (s : State) :
  syncQueue (mysql m s).2 = syncQueue s ∧ isOnline (mysql m s).2 = isOnline s ∧
  jsonDB (mysql m s).2 = jsonDB s.
Proof. unfold mysql, lift. destruct (m (mysqlDB s)) as [r st]. done. Qed.

(** X13.  While the layer stays online nothing but [forcSync] replays the
    sync queue: after any other call made on an online layer, whatever MySQL
    answers, every operation that was queued is still queued, in place, and
    at most the call's own write has been added behind them. *)
Theorem queue_of_an_online_layer_waits (s : State) (i : Invocation) :
  isOnline s = true → call i ≠ CallForceSync →
  syncQueue (invoke s i) = syncQueue s ∨
  syncQueue (invoke s i) = syncQueue s ++ queued i.
Proof.
  intros Hon Hcall. destruct i as [c now fs]. cbn [call] in Hcall.
  unfold queued. cbn [call at_time].
  set (s' := invoke s _).
  enough (∃ st, s' = st ∧
            (syncQueue st = syncQueue s ∨
             syncQueue st = syncQueue s ++
               match c with
               | CallAdd uid sub => [Add uid sub now]
               | CallRemove uid => [Remove uid now]
               | _ => []
               end)) as (st & -> & H); [exact H|].
  subst s'. unfold invoke. cbn [call at_time outcomes].
  destruct c as [uid sub|uid|uid| |]; [| | | |done].
  - unfold addSubscription. unfold bind at 1. cbn [Database.addSubscription].
    unfold bind at 1.
    match goal with |- context [checkMySQLHealth now ?s1] =>
      destruct (checkMySQLHealth_online now s1 Hon) as (fs' & E & _); rewrite E;
      destruct (probe (MysqlDatabase.script (mysqlDB s1))) end.
    + unfold try_catch. unfold bind at 1. unfold bind at 1.
      match goal with |- context [mysql ?m ?s1] =>
        pose proof (mysql_frame m s1) as (Hq & _);
        destruct (mysql m s1) as [[a|e] st] end; cbn [snd] in Hq.
      * eexists. split; [reflexivity|]. left. cbn. exact Hq.
      * eexists. split; [reflexivity|]. right. cbn. now rewrite Hq.
    + eexists. split; [reflexivity|]. right. reflexivity.
  - unfold removeSubscription. unfold bind at 1. unfold modify at 1.
    unfold bind at 1.
    match goal with |- context [checkMySQLHealth now ?s1] =>
      destruct (checkMySQLHealth_online now s1 Hon) as (fs' & E & _); rewrite E;
      destruct (probe (MysqlDatabase.script (mysqlDB s1))) end.
    + unfold try_catch. unfold bind at 1.
      match goal with |- context [mysql ?m ?s1] =>
        pose proof (mysql_frame m s1) as (Hq & _);
        destruct (mysql m s1) as [[a|e] st] end; cbn [snd] in Hq.
      * eexists. split; [reflexivity|]. left. cbn. exact Hq.
      * eexists. split; [reflexivity|]. right. cbn. now rewrite Hq.
    + eexists. split; [reflexivity|]. right. reflexivity.
  - unfold getSubscription. unfold bind at 1.
    match goal with |- context [checkMySQLHealth now ?s1] =>
      destruct (checkMySQLHealth_online now s1 Hon) as (fs' & E & _); rewrite E;
      destruct (probe (MysqlDatabase.script (mysqlDB s1))) end.
    + unfold bind at 1. unfold try_catch.
      match goal with |- context [mysql ?m ?s1] =>
        pose proof (mysql_frame m s1) as (Hq & _);
        destruct (mysql m s1) as [[[f|]|e] st] end; cbn [snd] in Hq;
        (eexists; split; [reflexivity|]); left; cbn; exact Hq.
    + eexists. split; [reflexivity|]. left. reflexivity.
  - match goal with |- context [checkMySQLHealth now ?s1] =>
      destruct (checkMySQLHealth_online now s1 Hon) as (fs' & E & _); rewrite E end.
    eexists. split; [reflexivity|]. left. reflexivity.
Qed.

Lemma queue_of_an_online_layer_waits_witness :
  syncQueue (invoke (invoke initial refused_add) recovery_check)
  = syncQueue (invoke initial refused_add) ∨
  syncQueue (invoke (invoke initial refused_add) recovery_check)
  = syncQueue (invoke initial refused_add) ++ queued recovery_check.
Proof.
  apply queue_of_an_online_layer_waits; [reflexivity | discriminate].
Defined.

(** *** The JSON store *)

Lemma mysql_json {A} (db : Database.Db) (m : M MysqlDatabase.State A) :
  preserves (λ s, jsonDB s = db) (mysql m).
Proof. intros s H. now rewrite (proj2 (proj2 (mysql_frame m s))). Qed.

Lemma addToSyncQueue_json (db : Database.Db) (op : Operation) :
  preserves (λ s, jsonDB s = db) (addToSyncQueue op).
Proof. apply preserves_modify. intros s H. exact H. Qed.

Lemma sync_one_json (db : Database.Db) (now : Z) (op : Operation) :
  preserves (λ s, jsonDB s = db) (sync_one now op).
Proof.
  intros s H. destruct (sync_one_frame now op s) as (s' & E & _ & _ & Hj).
  rewrite E. cbn [snd]. congruence.
Qed.

Lemma syncOfflineData_json (db : Database.Db) (now : Z) :
  preserves (λ s, jsonDB s = db) (syncOfflineData now).
Proof.
  unfold syncOfflineData.
  apply preserves_bind; [apply preserves_gets|]. intros online.
  apply preserves_bind; [apply preserves_gets|]. intros queue.
  apply preserves_if; [apply preserves_ret|].
  apply preserves_bind.
  - apply preserves_for_each. intros op. apply sync_one_json.
  - intros _. apply preserves_modify. intros s H. exact H.
Qed.

Lemma checkMySQLHealth_json (db : Database.Db) (now : Z) :
  preserves (λ s, jsonDB s = db) (checkMySQLHealth now).
Proof.
  unfold checkMySQLHealth. apply preserves_try_catch.
  - apply preserves_bind; [apply mysql_json|]. intros success.
    apply preserves_bind; [apply preserves_gets|]. intros wasOffline.
    apply preserves_bind; [apply preserves_modify; intros s H; exact H|]. intros _.
    apply preserves_bind; [|intros _; apply preserves_gets].
    apply preserves_if; [apply syncOfflineData_json | apply preserves_ret].
  - intros e. apply preserves_bind; [|intros _; apply preserves_ret].
    apply preserves_modify. intros s H. exact H.
Qed.

(** One call: the JSON store sees the write of the call and nothing else. *)
Lemma invoke_json (s : State) (i : Invocation) :
  jsonDB (invoke s i) = json_write i (jsonDB s).
Proof.
  destruct i as [c now fs]. unfold invoke, json_write. cbn [call at_time outcomes].
  destruct c as [uid sub|uid|uid| |].
  - unfold addSubscription. unfold bind at 1.
    cbn [Database.addSubscription snd].
    match goal with |- jsonDB (Eff.bind ?m ?k ?s1).2 = ?db =>
      apply (preserves_bind (λ s, jsonDB s = db) m k) end; [| |reflexivity].
    + apply checkMySQLHealth_json.
    + intros online. apply preserves_if.
      * apply preserves_try_catch.
        -- apply preserves_bind; [apply mysql_json | intros a; apply preserves_ret].
        -- intros e. apply preserves_bind; [apply addToSyncQueue_json|].
           intros _. apply preserves_ret.
      * apply preserves_bind; [apply addToSyncQueue_json|]. intros _. apply preserves_ret.
  - unfold removeSubscription. unfold bind at 1. unfold modify at 1.
    match goal with |- jsonDB (Eff.bind ?m ?k ?s1).2 = ?db =>
      apply (preserves_bind (λ s, jsonDB s = db) m k) end; [| |reflexivity].
    + apply checkMySQLHealth_json.
    + intros online. apply preserves_if; [|apply addToSyncQueue_json].
      apply preserves_try_catch; [|intros e; apply addToSyncQueue_json].
      apply preserves_bind; [apply mysql_json | intros a; apply preserves_ret].
  - enough (preserves (λ s0, jsonDB s0 = jsonDB s) (getSubscription now uid)) as H
      by exact (H (with_outcomes fs s) eq_refl).
    unfold getSubscription.
    apply preserves_bind; [apply checkMySQLHealth_json|]. intros online.
    apply preserves_bind.
    + apply preserves_if; [|apply preserves_ret].
      apply preserves_try_catch; [apply mysql_json | intros e; apply preserves_ret].
    + intros [found|]; [apply preserves_ret | apply preserves_gets].
  - apply (checkMySQLHealth_json (jsonDB s) now (with_outcomes fs s) eq_refl).
  - enough (preserves (λ s0, jsonDB s0 = jsonDB s) (forcSync now)) as H
      by exact (H (with_outcomes fs s) eq_refl).
    unfold forcSync.
    apply preserves_bind; [apply checkMySQLHealth_json|]. intros online.
    apply preserves_if; [|apply preserves_ret].
    apply preserves_bind; [apply syncOfflineData_json|]. intros _. apply preserves_ret.
Qed.

Lemma run_json (trace : list Invocation) (s : State) :
  jsonDB (run trace s) = foldl (λ db i, json_write i db) (jsonDB s) trace.
Proof.
  revert s. induction trace as [|i trace IH]; intros s; [reflexivity|].
  cbn [run foldl]. unfold run in IH. rewrite IH, invoke_json. reflexivity.
Qed.

(** The JSON record of a user after a write for the user. *)
Lemma json_write_wanted (i : Invocation) (op : Operation) (db : Database.Db) :
  queued i = [op] →
  Database.subscription <$> Database.getSubscription (op_userId op) (json_write i db)
  = wanted op.
Proof.
  intros Hop. unfold json_write, queued in *.
  destruct (call i) as [uid sub|uid|uid| |]; try discriminate Hop;
    injection Hop as <-; cbn [op_userId wanted].
  - now rewrite json_add_get.
  - now rewrite json_remove_get.
Qed.

Lemma fallback_after_write (s : State) (i : Invocation) (op : Operation) :
  queued i = [op] → fallback (op_userId op) (invoke s i) = wanted op.
Proof.
  intros Hop. unfold fallback. rewrite invoke_json. now apply json_write_wanted.
Qed.

(** X14.  The JSON store never depends on MySQL: after any run of calls,
    whatever MySQL answered during them and whatever was replayed, the JSON
    store is what the writes of the run, applied in order to the JSON store
    alone, leave; and a user's record there is what the last write for the
    user asked for. *)
Theorem json_store_follows_the_writes (trace : list Invocation) (s : State) :
  jsonDB (run trace s) = foldl (λ db i, json_write i db) (jsonDB s) trace ∧
  (∀ i op, queued i = [op] →
           fallback (op_userId op) (run (trace ++ [i]) s) = wanted op).
Proof.
  split; [apply run_json|].
  intros i op Hop. unfold fallback. rewrite run_json, foldl_app. cbn [foldl].
  now apply json_write_wanted.
Qed.

(** *** Writes that go through *)

Lemma all_through_probe (fs : list bool) :
  MysqlDatabase.all_through fs → probe fs = true.
Proof.
  intros H. destruct H as [|b1 [|b2 rest] -> H']; [done..|].
  inversion H' as [|? ? -> ?]. reflexivity.
Qed.

Lemma subscription_of_json (jsonResult : option Database.Entry) :
  subscription_of (inr <$> jsonResult) = Database.subscription <$> jsonResult.
Proof. now destruct jsonResult. Qed.

(** A write whose round trips all go through is in both stores. *)
Lemma invoke_write_through (s : State) (i : Invocation) (op : Operation) :
  queued i = [op] → MysqlDatabase.all_through (outcomes i) →
  isOnline (invoke s i) = true ∧
  durable (op_userId op) (table (invoke s i)) = wanted op.
Proof.
  intros Hop Hfs. destruct (isOnline s) eqn:Hon.
  - destruct i as [c now fs]. cbn [outcomes] in Hfs. unfold queued in Hop.
    cbn [call at_time] in Hop.
    set (s' := invoke s _).
    enough (∃ st, s' = st ∧ isOnline st = true ∧
                  ∃ t, table st = apply_row_op now op t) as (st & -> & Ho & t & Ht).
    { split; [exact Ho|]. rewrite Ht. now apply durable_apply_self. }
    subst s'. unfold invoke. cbn [call at_time outcomes].
    destruct c as [uid sub|uid|uid| |]; try discriminate Hop; injection Hop as <-.
    + unfold addSubscription. unfold bind at 1. cbn [Database.addSubscription].
      unfold bind at 1.
      match goal with |- context [checkMySQLHealth now ?s1] =>
        destruct (checkMySQLHealth_online now s1 Hon) as (fs' & E & Hfs');
          rewrite E, (all_through_probe (MysqlDatabase.script (mysqlDB s1)) Hfs);
          specialize (Hfs' Hfs) end.
      unfold try_catch, bind, mysql, lift, ret.
      rewrite mysql_add_through by exact Hfs'.
      eexists. split; [reflexivity|]. split; [reflexivity|].
      eexists (_, _). reflexivity.
    + unfold removeSubscription. unfold bind at 1. unfold modify at 1.
      unfold bind at 1.
      match goal with |- context [checkMySQLHealth now ?s1] =>
        destruct (checkMySQLHealth_online now s1 Hon) as (fs' & E & Hfs');
          rewrite E, (all_through_probe (MysqlDatabase.script (mysqlDB s1)) Hfs);
          specialize (Hfs' Hfs) end.
      unfold try_catch, bind, mysql, lift, ret.
      rewrite mysql_remove_through by exact Hfs'.
      eexists. split; [reflexivity|]. split; [reflexivity|].
      eexists (_, _). reflexivity.
  - destruct (invoke_recovering s i Hon Hfs) as (Ht & _ & Ho).
    split; [exact Ho|]. rewrite Ht, Hop, replay_app. cbn [replay foldl].
    now apply durable_apply_self.
Qed.

End HybridFurther.

(** ** MySQL, when a round trip fails in the middle *)

Section MysqlFurther.
Import Eff MysqlDatabase.
Import Database(Subscription).

(** X17.  MySQL [addSubscription] is a DELETE followed by an INSERT with no
    transaction around them.  When it returns, the user's rows have been
    replaced by one new row.  When it throws, the error is the connection
    error, never the duplicate-key error, and the rows are either as they
    were or without the user's rows: the second happens when the INSERT is
    the round trip that fails, and the subscription the user had is then
    gone although the call failed.  The rows of other users are never
    touched. *)
Theorem mysql_add_is_not_atomic
    (now : Z) (uid : string) (sub : Subscription) (st : State) :
  match (addSubscription now uid sub st).1 with
  | Ok added =>
      rows (addSubscription now uid sub st).2
      = filter (λ r, user_id r ≠ uid) (rows st) ++
          [{| id := added_id added; user_id := uid; subscription_data := sub;
              created_at := now; updated_at := now |}]
  | Throw e =>
      e = "connect ECONNREFUSED" ∧
      (rows (addSubscription now uid sub st).2 = rows st ∨
       rows (addSubscription now uid sub st).2 = filter (λ r, user_id r ≠ uid) (rows st))
  end ∧
  (∀ rest, script st = true :: true :: false :: rest →
           (addSubscription now uid sub st).1 = Throw "connect ECONNREFUSED" ∧
           rows_of uid (addSubscription now uid sub st).2 = 0%nat) ∧
  (∀ other, other ≠ uid →
            rows_of other (addSubscription now uid sub st).2 = rows_of other st).
Proof.
  destruct st as [rws next fs].
  assert (bool_decide (uid ∈ user_id <$> filter (λ r, user_id r ≠ uid) rws) = false)
    as Hfresh by (apply bool_decide_eq_false_2, (keyed_drop_not_elem user_id)).
  unfold rows_of.
  destruct fs as [|[|] [|[|] [|[|] rest]]];
    unfold addSubscription, getConnection, execute_delete, execute_insert, bind, ret,
      round_trip;
    cbn [script rows auto_increment fst snd];
    rewrite ?Hfresh; cbn [script rows auto_increment fst snd added_id];
    (split; [first [reflexivity | split; [reflexivity | auto]]|]);
    (split; [intros rest' [=]; subst;
             (split; [reflexivity | now rewrite (keyed_drop_self user_id)])|]);
    intros other Hne;
    first [reflexivity
          | now rewrite (keyed_replace_other user_id)
          | now rewrite (keyed_drop_other user_id)].
Qed.

End MysqlFurther.

(** ** What a failure of MySQL can and cannot do to the callers *)

Section NeverThrows.
Import Eff.
Context {S : Type}.

Lemma never_throws_ret {A} (a : A) : never_throws (S := S) (ret a).
Proof. intros s. now exists a. Qed.

Lemma never_throws_gets {A} (f : S → A) : never_throws (gets f).
Proof. intros s. now exists (f s). Qed.

Lemma never_throws_modify (f : S → S) : never_throws (modify f).
Proof. intros s. now exists tt. Qed.

Lemma never_throws_bind {A B} (m : M S A) (k : A → M S B) :
  never_throws m → (∀ a, never_throws (k a)) → never_throws (bind m k).
Proof.
  intros Hm Hk s. unfold bind. destruct (Hm s) as [a Ha].
  destruct (m s) as [r s1]. cbn [fst] in Ha. subst r. apply Hk.
Qed.

Lemma never_throws_try_catch {A} (m : M S A) (handler : string → M S A) :
  (∀ e, never_throws (handler e)) → never_throws (try_catch m handler).
Proof.
  intros Hh s. unfold try_catch. destruct (m s) as [[a|e] s1]; [now exists a | apply Hh].
Qed.

Lemma never_throws_if {A} (b : bool) (m1 m2 : M S A) :
  never_throws m1 → never_throws m2 → never_throws (if b then m1 else m2).
Proof. now destruct b. Qed.

Lemma never_throws_for_each {A} (xs : list A) (body : A → M S unit) :
  (∀ x, never_throws (body x)) → never_throws (for_each xs body).
Proof.
  intros Hbody. induction xs as [|x xs IH]; [apply never_throws_ret|].
  cbn [for_each]. apply never_throws_bind; [apply Hbody | intros _; exact IH].
Qed.

End NeverThrows.

Section HybridNeverThrows.
Import Eff HybridDatabase.
Import Database(Subscription).

Lemma sync_one_returns (now : Z) (op : Operation) : never_throws (sync_one now op).
Proof. apply never_throws_try_catch. intros e. apply never_throws_ret. Qed.

Lemma syncOfflineData_returns (now : Z) : never_throws (syncOfflineData now).
Proof.
  unfold syncOfflineData.
  apply never_throws_bind; [apply never_throws_gets|]. intros online.
  apply never_throws_bind; [apply never_throws_gets|]. intros queue.
  apply never_throws_if; [apply never_throws_ret|].
  apply never_throws_bind; [|intros _; apply never_throws_modify].
  apply never_throws_for_each. intros op. apply sync_one_returns.
Qed.

Lemma checkMySQLHealth_returns (now : Z) : never_throws (checkMySQLHealth now).
Proof.
  apply never_throws_try_catch. intros e.
  apply never_throws_bind; [apply never_throws_modify | intros _; apply never_throws_ret].
Qed.

Lemma addToSyncQueue_returns (op : Operation) : never_throws (addToSyncQueue op).
Proof. apply never_throws_modify. Qed.

Lemma addSubscription_returns (now : Z) (uid : string) (sub : Subscription) :
  never_throws (addSubscription now uid sub).
Proof.
  unfold addSubscription. apply never_throws_bind.
  - intros s. eexists. reflexivity.
  - intros jsonResult.
    apply never_throws_bind; [apply checkMySQLHealth_returns|]. intros online.
    apply never_throws_if.
    + apply never_throws_try_catch. intros e.
      apply never_throws_bind; [apply addToSyncQueue_returns|].
      intros _. apply never_throws_ret.
    + apply never_throws_bind; [apply addToSyncQueue_returns|].
      intros _. apply never_throws_ret.
Qed.

Lemma removeSubscription_returns (now : Z) (uid : string) :
  never_throws (removeSubscription now uid).
Proof.
  unfold removeSubscription.
  apply never_throws_bind; [apply never_throws_modify|]. intros _.
  apply never_throws_bind; [apply checkMySQLHealth_returns|]. intros online.
  apply never_throws_if; [|apply addToSyncQueue_returns].
  apply never_throws_try_catch. intros e. apply addToSyncQueue_returns.
Qed.

Lemma getSubscription_returns (now : Z) (uid : string) :
  never_throws (getSubscription now uid).
Proof.
  unfold getSubscription.
  apply never_throws_bind; [apply checkMySQLHealth_returns|]. intros online.
  apply never_throws_bind.
  - apply never_throws_if; [|apply never_throws_ret].
    apply never_throws_try_catch. intros e. apply never_throws_ret.
  - intros [found|]; [apply never_throws_ret | apply never_throws_gets].
Qed.

Lemma forcSync_returns (now : Z) : never_throws (forcSync now).
Proof.
  unfold forcSync.
  apply never_throws_bind; [apply checkMySQLHealth_returns|]. intros online.
  apply never_throws_if; [|apply never_throws_ret].
  apply never_throws_bind; [apply syncOfflineData_returns|].
  intros _. apply never_throws_ret.
Qed.

(** X18.  No failure of MySQL reaches a caller of the hybrid layer: in
    whatever state the layer is and whatever MySQL answers or refuses, at
    the connection test, during a replay or at the operation itself,
    [addSubscription], [removeSubscription], [getSubscription],
    [checkMySQLHealth] and [forcSync] return and do not throw. *)
Theorem hybrid_layer_never_throws
    (s : State) (now : Z) (uid : string) (sub : Subscription) :
  (∃ added, (addSubscription now uid sub s).1 = Ok added) ∧
  (removeSubscription now uid s).1 = Ok tt ∧
  (∃ found, (getSubscription now uid s).1 = Ok found) ∧
  (∃ online, (checkMySQLHealth now s).1 = Ok online) ∧
  (∃ synced, (forcSync now s).1 = Ok synced).
Proof.
  split; [apply addSubscription_returns|].
  split; [destruct (removeSubscription_returns now uid s) as [[] E]; exact E|].
  split; [apply getSubscription_returns|].
  split; [apply checkMySQLHealth_returns | apply forcSync_returns].
Qed.

End HybridNeverThrows.

(** ** Reading after writing *)

Section HybridReads.
Import Eff HybridDatabase.
Import Database(Subscription).

(** MySQL [getSubscription] never returns a subscription: it returns [null]
    when the user has no row, and throws on the row it found. *)
Lemma mysql_get_never_finds (uid : string) (st : MysqlDatabase.State)
    (found : option MysqlDatabase.Found) :
  (MysqlDatabase.getSubscription uid st).1 = Ok found →
  found = None ∧ MysqlDatabase.rows_of uid st = 0%nat.
Proof.
  destruct st as [rws next fs].
  unfold MysqlDatabase.getSubscription, MysqlDatabase.getConnection,
    MysqlDatabase.execute_select, MysqlDatabase.rows_of, MysqlDatabase.JSON_parse,
    bind, ret, gets, MysqlDatabase.round_trip.
  destruct fs as [|[|] [|[|] rest]];
    cbn [MysqlDatabase.script MysqlDatabase.rows MysqlDatabase.auto_increment fst snd];
    try discriminate;
    destruct (filter _ rws) as [|r others]; cbn [fst length];
    first [discriminate | now intros [= <-]].
Qed.

(** Hybrid [getSubscription] answers from the JSON store. *)
Lemma getSubscription_from_json (now : Z) (uid : string) (s : State) :
  (getSubscription now uid s).1
  = Ok (inr <$> Database.getSubscription uid (jsonDB s)).
Proof.
  unfold getSubscription. unfold bind at 1.
  destruct (checkMySQLHealth_returns now s) as [online Eonline].
  pose proof (checkMySQLHealth_json (jsonDB s) now s eq_refl) as Hjson.
  destruct (checkMySQLHealth now s) as [r s1]. cbn [fst snd] in Eonline, Hjson.
  subst r. unfold bind at 1. destruct online; [|now rewrite <- Hjson].
  unfold try_catch.
  pose proof (mysql_frame (MysqlDatabase.getSubscription uid) s1) as (_ & _ & Hjson2).
  assert (∀ found, (mysql (MysqlDatabase.getSubscription uid) s1).1 = Ok found →
                   found = None) as Hnone.
  { intros found. unfold mysql, lift.
    pose proof (mysql_get_never_finds uid (mysqlDB s1) found) as Hfind.
    destruct (MysqlDatabase.getSubscription uid (mysqlDB s1)) as [r t].
    cbn [fst] in *. intros E. now apply Hfind. }
  destruct (mysql (MysqlDatabase.getSubscription uid) s1) as [[found|e] s2];
    cbn [fst snd] in Hjson2, Hnone.
  - rewrite (Hnone found eq_refl). cbn [fst gets]. now rewrite Hjson2, Hjson.
  - cbn [ret fst gets]. now rewrite Hjson2, Hjson.
Qed.

(** X15.  A write is read back.  After [addSubscription] or
    [removeSubscription] whose round trips all went through, the next
    [getSubscription] for the user answers what the write asked for whether
    MySQL then answers or the connection test fails; after a write whose
    connection test failed, so does the next [getSubscription] whose
    connection test fails again, and the one that finds MySQL back and
    answering: the replay it runs first puts the write into MySQL. *)
Theorem write_is_read_back
    (s : State) (i : Invocation) (op : Operation) (now : Z) (fs : list bool) :
  queued i = [op] →
  (MysqlDatabase.all_through (outcomes i) ∨ probe (outcomes i) = false) →
  (MysqlDatabase.all_through fs ∨ probe fs = false) →
  ∃ found,
    (getSubscription now (op_userId op) (with_outcomes fs (invoke s i))).1 = Ok found ∧
    subscription_of found = wanted op.
Proof.
  intros Hop _ _.
  exists (inr <$> Database.getSubscription (op_userId op)
                    (jsonDB (with_outcomes fs (invoke s i)))).
  split; [apply getSubscription_from_json|].
  rewrite subscription_of_json. now apply (fallback_after_write s i op).
Qed.

Lemma write_is_read_back_witness :
  ∃ found,
    (getSubscription 5 "u1" (with_outcomes [] (invoke initial offline_add))).1 = Ok found ∧
    subscription_of found = Some test_subscription.
Proof.
  apply (write_is_read_back initial offline_add (Add "u1" test_subscription 1) 5 []);
    [reflexivity | right; reflexivity | left; constructor].
Defined.



End HybridReads.

(** ** Push notifications *)

Section ScriptOnlyShrinks.
Import Eff.

(** MySQL calls only consume the script: a script whose round trips all go
    through stays so. *)
Lemma round_trip_keeps_through :
  preserves (λ st, MysqlDatabase.all_through (MysqlDatabase.script st))
    MysqlDatabase.round_trip.
Proof.
  intros [rws next fs] H. unfold MysqlDatabase.round_trip. cbn in *.
  destruct H as [|b fs Hb H]; [constructor|]. now destruct b.
Qed.

Lemma mysql_get_keeps_through (uid : string) :
  preserves (λ st, MysqlDatabase.all_through (MysqlDatabase.script st))
    (MysqlDatabase.getSubscription uid).
Proof.
  unfold MysqlDatabase.getSubscription, MysqlDatabase.getConnection,
    MysqlDatabase.execute_select.
  apply preserves_bind; [apply round_trip_keeps_through|]. intros _.
  apply preserves_bind.
  - apply preserves_bind; [apply round_trip_keeps_through | intros _; apply preserves_gets].
  - intros [|r found]; [apply preserves_ret|].
    apply preserves_bind; [intros st H; exact H | intros sub; apply preserves_ret].
Qed.

Lemma mysql_test_keeps_through :
  preserves (λ st, MysqlDatabase.all_through (MysqlDatabase.script st))
    MysqlDatabase.testConnection.
Proof.
  unfold MysqlDatabase.testConnection, MysqlDatabase.getConnection,
    MysqlDatabase.execute_select_1.
  apply preserves_try_catch; [|intros e; apply preserves_ret].
  apply preserves_bind; [apply round_trip_keeps_through|]. intros _.
  apply preserves_bind; [apply round_trip_keeps_through | intros _; apply preserves_ret].
Qed.

Lemma mysql_remove_keeps_through (uid : string) :
  preserves (λ st, MysqlDatabase.all_through (MysqlDatabase.script st))
    (MysqlDatabase.removeSubscription uid).
Proof.
  unfold MysqlDatabase.removeSubscription, MysqlDatabase.getConnection,
    MysqlDatabase.execute_delete.
  apply preserves_bind; [apply round_trip_keeps_through|]. intros _.
  apply preserves_bind; [|intros n; apply preserves_ret].
  apply preserves_bind; [apply round_trip_keeps_through|]. intros _.
  intros st H. exact H.
Qed.

Lemma mysql_add_keeps_through (now : Z) (uid : string) (sub : Database.Subscription) :
  preserves (λ st, MysqlDatabase.all_through (MysqlDatabase.script st))
    (MysqlDatabase.addSubscription now uid sub).
Proof.
  unfold MysqlDatabase.addSubscription, MysqlDatabase.getConnection,
    MysqlDatabase.execute_delete, MysqlDatabase.execute_insert.
  apply preserves_bind; [apply round_trip_keeps_through|]. intros _.
  apply preserves_bind.
  { apply preserves_bind; [apply round_trip_keeps_through|]. intros _.
    intros st H. exact H. }
  intros _. apply preserves_bind; [|intros n; apply preserves_ret].
  apply preserves_bind; [apply round_trip_keeps_through|]. intros _.
  intros st H. now destruct (bool_decide _).
Qed.

End ScriptOnlyShrinks.

Section HybridScript.
Import Eff HybridDatabase.

Lemma mysql_keeps_through {A} (m : M MysqlDatabase.State A) :
  preserves (λ st, MysqlDatabase.all_through (MysqlDatabase.script st)) m →
  preserves (λ s, MysqlDatabase.all_through (MysqlDatabase.script (mysqlDB s))) (mysql m).
Proof.
  intros Hm s H. unfold mysql, lift. specialize (Hm (mysqlDB s) H).
  destruct (m (mysqlDB s)) as [r t]. exact Hm.
Qed.

Lemma sync_one_keeps_through (now : Z) (op : Operation) :
  preserves (λ s, MysqlDatabase.all_through (MysqlDatabase.script (mysqlDB s)))
    (sync_one now op).
Proof.
  unfold sync_one. apply preserves_try_catch; [|intros e; apply preserves_ret].
  destruct op as [uid sub t|uid t].
  - apply preserves_bind; [|intros a; apply preserves_ret].
    apply mysql_keeps_through, mysql_add_keeps_through.
  - apply preserves_bind; [|intros a; apply preserves_ret].
    apply mysql_keeps_through, mysql_remove_keeps_through.
Qed.

Lemma checkMySQLHealth_keeps_through (now : Z) :
  preserves (λ s, MysqlDatabase.all_through (MysqlDatabase.script (mysqlDB s)))
    (checkMySQLHealth now).
Proof.
  unfold checkMySQLHealth. apply preserves_try_catch.
  - apply preserves_bind; [apply mysql_keeps_through, mysql_test_keeps_through|].
    intros success.
    apply preserves_bind; [apply preserves_gets|]. intros wasOffline.
    apply preserves_bind; [apply preserves_modify; intros s H; exact H|]. intros _.
    apply preserves_bind; [|intros _; apply preserves_gets].
    apply preserves_if; [|apply preserves_ret].
    unfold syncOfflineData.
    apply preserves_bind; [apply preserves_gets|]. intros online.
    apply preserves_bind; [apply preserves_gets|]. intros queue.
    apply preserves_if; [apply preserves_ret|].
    apply preserves_bind.
    + apply preserves_for_each. intros op. apply sync_one_keeps_through.
    + intros _. apply preserves_modify. intros s H. exact H.
  - intros e. apply preserves_bind; [|intros _; apply preserves_ret].
    apply preserves_modify. intros s H. exact H.
Qed.

Lemma getSubscription_keeps_through (now : Z) (uid : string) :
  preserves (λ s, MysqlDatabase.all_through (MysqlDatabase.script (mysqlDB s)))
    (getSubscription now uid).
Proof.
  unfold getSubscription.
  apply preserves_bind; [apply checkMySQLHealth_keeps_through|]. intros online.
  apply preserves_bind.
  - apply preserves_if; [|apply preserves_ret].
    apply preserves_try_catch; [|intros e; apply preserves_ret].
    apply mysql_keeps_through, mysql_get_keeps_through.
  - intros [found|]; [apply preserves_ret | apply preserves_gets].
Qed.

Lemma with_outcomes_self (s : State) :
  with_outcomes (MysqlDatabase.script (mysqlDB s)) s = s.
Proof. now destruct s as [online queue json [rws next fs]]. Qed.

(** [removeSubscription] as an invocation whose outcomes are the script
    that is left. *)
Lemma removeSubscription_as_invocation (now : Z) (uid : string) (s : State) :
  (removeSubscription now uid s).2
  = invoke s {| call := CallRemove uid; at_time := now;
                outcomes := MysqlDatabase.script (mysqlDB s) |}.
Proof. unfold invoke. cbn [call at_time outcomes]. now rewrite with_outcomes_self. Qed.

Lemma subscription_of_None (found : option (MysqlDatabase.Found + Database.Entry)) :
  subscription_of found = None → found = None.
Proof. now destruct found as [[f|e]|]. Qed.

End HybridScript.

Section PushFacts.
Import Eff HybridDatabase WebPushService.

Lemma on_error_returns (now : Z) (uid : string) (e : string) (statusCode : option Z)
    (s : State) :
  on_error now uid e statusCode s
  = (Ok (PushFailed e statusCode),
     if subscription_gone statusCode then (removeSubscription now uid s).2 else s).
Proof.
  unfold on_error. unfold bind at 1. destruct (subscription_gone statusCode).
  - destruct (removeSubscription_returns now uid s) as [[] E].
    destruct (removeSubscription now uid s) as [r s1]. cbn [fst] in E. now subst r.
  - reflexivity.
Qed.

Lemma sendPushNotification_returns (now : Z) (webpush : WebPush) (uid : string)
    (payload : Payload) : never_throws (sendPushNotification now webpush uid payload).
Proof.
  intros s. unfold sendPushNotification.
  destruct (getSubscription now uid s) as [[[found|]|e] s1].
  - destruct (webpush _ _) as [|e statusCode]; [eexists; reflexivity|].
    rewrite on_error_returns. eexists. reflexivity.
  - eexists. reflexivity.
  - rewrite on_error_returns. eexists. reflexivity.
Qed.

(** No subscription in either store: nothing is sent. *)
Lemma sendPushNotification_unknown (now : Z) (webpush : WebPush) (uid : string)
    (payload : Payload) (s : State) :
  (∃ found, (getSubscription now uid s).1 = Ok found ∧ subscription_of found = None) →
  (sendPushNotification now webpush uid payload s).1 = Ok NoSubscription.
Proof.
  intros (found & E & Hnone). apply subscription_of_None in Hnone. subst found.
  unfold sendPushNotification. destruct (getSubscription now uid s) as [r s1].
  cbn [fst] in E. now subst r.
Qed.

(** X19.  A subscription the push service reports gone is forgotten.  When
    [sendPushNotification] fails with status 410 or 404, the user's record
    has left the JSON store whatever MySQL did, and a later
    [sendPushNotification] for the user whose connection test fails answers
    that there is no subscription, without calling the push service.  When
    MySQL answered every round trip of the call, the user's row has left
    MySQL too, and so answers a later call that MySQL answers. *)
Theorem gone_endpoint_is_forgotten
    (s : State) (now : Z) (webpush : WebPush) (uid : string) (payload : Payload)
    (e : string) (code : Z) :
  (sendPushNotification now webpush uid payload s).1 = Ok (PushFailed e (Some code)) →
  code = 410%Z ∨ code = 404%Z →
  fallback uid (sendPushNotification now webpush uid payload s).2 = None ∧
  (∀ now' webpush' payload' fs,
      probe fs = false →
      (sendPushNotification now' webpush' uid payload'
         (with_outcomes fs (sendPushNotification now webpush uid payload s).2)).1
      = Ok NoSubscription) ∧
  (MysqlDatabase.all_through (MysqlDatabase.script (mysqlDB s)) →
   durable uid (table (sendPushNotification now webpush uid payload s).2) = None ∧
   ∀ now' webpush' payload' fs,
      MysqlDatabase.all_through fs →
      (sendPushNotification now' webpush' uid payload'
         (with_outcomes fs (sendPushNotification now webpush uid payload s).2)).1
      = Ok NoSubscription).
Proof.
  intros Hfailed Hcode.
  assert (subscription_gone (Some code) = true) as Hgone.
  { destruct Hcode as [-> | ->]; reflexivity. }
  assert ((sendPushNotification now webpush uid payload s).2
          = (removeSubscription now uid (getSubscription now uid s).2).2) as Hstate.
  { revert Hfailed. unfold sendPushNotification.
    destruct (getSubscription now uid s) as [[[found|]|e0] s1]; cbn [snd].
    - destruct (webpush _ _) as [|e1 statusCode]; [discriminate|].
      rewrite on_error_returns. cbn [fst snd]. intros [= -> ->].
      now rewrite Hgone.
    - discriminate.
    - rewrite on_error_returns. discriminate. }
  rewrite Hstate. clear Hfailed Hstate.
  set (s1 := (getSubscription now uid s).2) in *.
  rewrite removeSubscription_as_invocation.
  set (i := {| call := CallRemove uid; at_time := now;
               outcomes := MysqlDatabase.script (mysqlDB s1) |}).
  assert (fallback uid (invoke s1 i) = None) as Hjson.
  { exact (fallback_after_write s1 i (Remove uid now) eq_refl). }
  split; [exact Hjson|]. split.
  - intros now' webpush' payload' fs Hprobe.
    apply sendPushNotification_unknown.
    eexists. split; [apply getSubscription_from_json|].
    rewrite subscription_of_json. exact Hjson.
  - intros Hup.
    assert (MysqlDatabase.all_through (MysqlDatabase.script (mysqlDB s1))) as Hscript
      by exact (getSubscription_keeps_through now uid s Hup).
    destruct (invoke_write_through s1 i (Remove uid now) eq_refl Hscript) as (Hon & Hdur).
    cbn [op_userId wanted] in Hdur. split; [exact Hdur|].
    intros now' webpush' payload' fs Hfs.
    apply sendPushNotification_unknown.
    eexists. split; [apply getSubscription_from_json|].
    rewrite subscription_of_json. exact Hjson.
Qed.

Lemma gone_endpoint_is_forgotten_witness :
  fallback "u1"
    (sendPushNotification 5 all_gone "u1" (plain "Your table is ready")
       (invoke initial first_add)).2 = None.
Proof.
  exact (proj1 (gone_endpoint_is_forgotten (invoke initial first_add) 5 all_gone "u1"
                  (plain "Your table is ready")
                  "Received unexpected response code" 410
                  eq_refl (or_introl eq_refl))).
Defined.

Lemma send_each_returns (now : Z) (webpush : WebPush) (userIds : list string)
    (payload : Payload) (s : State) :
  ∃ results s', send_each now webpush userIds payload s = (Ok results, s') ∧
                results.*1 = userIds.
Proof.
  revert s. induction userIds as [|uid rest IH]; intros s.
  - exists [], s. done.
  - cbn [send_each]. unfold bind at 1.
    destruct (sendPushNotification_returns now webpush uid payload s) as [r E].
    destruct (sendPushNotification now webpush uid payload s) as [r0 s1].
    cbn [fst] in E. subst r0. unfold bind at 1.
    destruct (IH s1) as (results & s2 & E2 & Hids). rewrite E2.
    exists ((uid, r) :: results), s2. split; [reflexivity|].
    cbn. now rewrite Hids.
Qed.

(** X20.  [sendPushToMultipleUsers] goes through the whole list whatever
    happens to each user: it returns, with one result per user id, in the
    order of the list, and every user is counted once, as successful or as
    failed, so that the two counts add up to [total], the length of the
    list. *)
Theorem every_user_is_counted_once
    (s : State) (now : Z) (webpush : WebPush) (userIds : list string)
    (payload : Payload) :
  ∃ summary,
    (sendPushToMultipleUsers now webpush userIds payload s).1 = Ok summary ∧
    (results summary).*1 = userIds ∧
    total summary = length userIds ∧
    (successful summary + failed summary)%nat = total summary.
Proof.
  unfold sendPushToMultipleUsers. unfold bind at 1.
  destruct (send_each_returns now webpush userIds payload s) as (rs & s' & E & Hids).
  rewrite E. eexists. split; [reflexivity|]. cbn [results total successful failed].
  split; [exact Hids|]. split; [reflexivity|].
  rewrite <- length_app, (filter_app_complement (λ r, success r.2 = true) rs).
  rewrite <- Hids. now rewrite length_fmap.
Qed.

End PushFacts.

(** ** The send-socket page *)

Section SendSocketPage.
Import Socket Pages.

(** X21.  A notification sent through the send-socket page for a user
    reaches exactly the connections that are registered for that user: in
    every state the server reaches, the page answers 200 and emits one
    [notification] event to the room of the user, and the connections that
    event is pushed to are those whose socket records the user id, none
    when the user is not connected, in which case the page reports success
    all the same.  With [broadcast] set the event goes to every connected
    socket.  Before the socket server is initialised the page answers 500
    for every request that carries a message. *)
Theorem page_notification_reaches_the_users_connections
    (steps : list Step) (body : SendSocketBody) (now : Z) (message : string) :
  truthy_val (ss_message body) = Some message →
  (send_socket "POST" body now None).1.(ss_status) = 500%Z ∧
  (send_socket "POST" body now None).2 = [] ∧
  (ss_broadcast body = true →
   ∃ data,
     send_socket "POST" body now (Some (run steps initial))
     = ({| ss_status := 200;
           ss_body := SocketSent "Socket notification sent successfully" data |},
        [{| se_target := ToAll; se_event := "notification"; se_data := data |}]) ∧
     sn_message data = message ∧
     recipients ToAll (run steps initial) = dom (sockets (run steps initial))) ∧
  (∀ uid, ss_broadcast body = false → truthy_val (ss_userId body) = Some uid →
   ∃ data,
     send_socket "POST" body now (Some (run steps initial))
     = ({| ss_status := 200;
           ss_body := SocketSent "Socket notification sent successfully" data |},
        [{| se_target := ToRoom (userRoom uid); se_event := "notification";
            se_data := data |}]) ∧
     sn_message data = message ∧
     ∀ sid, sid ∈ recipients (ToRoom (userRoom uid)) (run steps initial)
            ↔ ∃ sk, sockets (run steps initial) !! sid = Some sk ∧
                    s_userId sk = Some uid).
Proof.
  intros Hmsg. unfold send_socket. cbn [String.eqb Ascii.eqb Bool.eqb negb]. rewrite Hmsg.
  cbn [getSocket fst snd ss_status].
  split; [reflexivity|]. split; [reflexivity|]. split.
  - intros ->. eexists. split; [reflexivity|]. split; reflexivity.
  - intros uid -> ->. eexists. split; [reflexivity|]. split; [reflexivity|].
    intros sid. cbn [recipients].
    assert (registry_inv (run steps initial)) as [_ Hrooms]
      by (apply run_inv, registry_inv_initial).
    apply Hrooms.
Qed.

Lemma page_notification_reaches_the_users_connections_witness :
  ∃ data,
    send_socket "POST"
      {| ss_userId := Some "42"; ss_message := Some "Order ready"; ss_type := None;
         ss_broadcast := false |} 7 (Some joined_client)
    = ({| ss_status := 200;
          ss_body := SocketSent "Socket notification sent successfully" data |},
       [{| se_target := ToRoom (userRoom "42"); se_event := "notification";
           se_data := data |}]) ∧
    sn_message data = "Order ready" ∧
    ∀ sid, sid ∈ recipients (ToRoom (userRoom "42")) joined_client
           ↔ ∃ sk, sockets joined_client !! sid = Some sk ∧ s_userId sk = Some "42".
Proof.
  exact (proj2 (proj2 (proj2
    (page_notification_reaches_the_users_connections
       [Client "s1" Connection 0; Client "s1" (JoinUserRoom (Some "42")) 1]
       {| ss_userId := Some "42"; ss_message := Some "Order ready";
          ss_type := None; ss_broadcast := false |} 7 "Order ready" eq_refl)))
    "42" eq_refl eq_refl).
Defined.

End SendSocketPage.

(** ** Signalling and call requests *)

Section Signalling.
Import Socket.

(** In a state the server reaches, the room of a user holds the connections
    registered for the user. *)
Lemma user_room_is_the_users_connections (steps : list Step) (sid u : string) :
  sid ∈ recipients (ToRoom (userRoom u)) (run steps initial)
  ↔ ∃ sk, sockets (run steps initial) !! sid = Some sk ∧ s_userId sk = Some u.
Proof.
  assert (registry_inv (run steps initial)) as [_ Hrooms]
    by (apply run_inv, registry_inv_initial).
  apply Hrooms.
Qed.

(** X22.  Signalling is relayed to the callee alone.  In every state the
    server reaches, [call-user], [answer-call], [ice-candidate] and
    [end-call] emit one event each, and a [request-content-refresh] with a
    target user one event, pushed to exactly the connections whose socket
    records the user id the payload names (the text 'undefined' when the
    payload names none), and to no other connection. *)
Theorem signalling_reaches_only_the_callee (steps : list Step) (sid : string) :
  (∀ d, ∃ e, call_user (Some d) = ([e], None) ∧
             (sid ∈ recipients (r_target e) (run steps initial)
              ↔ ∃ sk, sockets (run steps initial) !! sid = Some sk ∧
                      s_userId sk = Some (template (cu_userToCall d)))) ∧
  (∀ d, ∃ e1 e2 e3,
      answer_call (Some d) = ([e1], None) ∧ ice_candidate (Some d) = ([e2], None) ∧
      end_call (Some d) = ([e3], None) ∧
      r_target e1 = r_target e2 ∧ r_target e2 = r_target e3 ∧
      (sid ∈ recipients (r_target e1) (run steps initial)
       ↔ ∃ sk, sockets (run steps initial) !! sid = Some sk ∧
               s_userId sk = Some (template (sg_to d)))) ∧
  (∀ requester d now target,
      truthy_val (rr_targetUserId d) = Some target →
      ∃ e, request_content_refresh requester (Some d) now = ([e], None) ∧
           (sid ∈ recipients (r_target e) (run steps initial)
            ↔ ∃ sk, sockets (run steps initial) !! sid = Some sk ∧
                    s_userId sk = Some target)).
Proof.
  split; [|split].
  - intros d. eexists. split; [reflexivity|]. apply user_room_is_the_users_connections.
  - intros d. do 3 eexists. split; [reflexivity|]. split; [reflexivity|].
    split; [reflexivity|]. split; [reflexivity|]. split; [reflexivity|].
    apply user_room_is_the_users_connections.
  - intros requester d now target Htarget. unfold request_content_refresh.
    rewrite Htarget. eexists. split; [reflexivity|].
    apply user_room_is_the_users_connections.
Qed.

(** X23.  A [request-call] that carries a company id is pushed once to each
    connection in the waiter room of that company and to no other
    connection; one that carries none is pushed once to every connection
    that joined a waiter room, of whatever company. *)
Theorem call_request_reaches_the_company_waiters
    (steps : list Step) (caller : string) (d : CallRequest) (now : Z) :
  match truthy_val (cr_companyId d) with
  | Some company =>
      ∀ sid, deliveries sid (run steps initial) (request_call caller (Some d) now).1
             = if decide (sid ∈ members (waiterRoom company) (run steps initial))
               then 1%nat else 0%nat
  | None =>
      ∀ sid company,
        sid ∈ members (waiterRoom company) (run steps initial) →
        deliveries sid (run steps initial) (request_call caller (Some d) now).1 = 1%nat
  end.
Proof.
  unfold request_call, deliveries.
  destruct (truthy_val (cr_companyId d)) as [company|]; cbn [fst].
  - intros sid. destruct (decide _) as [Hin|Hout].
    + now rewrite filter_cons_True by exact Hin.
    + now rewrite filter_cons_False by exact Hout.
  - intros sid company Hin.
    pose proof (run_waiters_inv steps initial waiters_inv_initial sid company Hin) as Hall.
    now rewrite filter_cons_True by exact Hall.
Qed.

End Signalling.
